(* ===================================================================== *)
(*  Reveal.js presentation plugins: SVG layer step-reveal                *)
(*  (reveal-svg-layers.js / reveal-svg-layers.umd.js) and the floating   *)
(*  debug helper (plugin/floating-dev-helper.js).                        *)
(*                                                                       *)
(*  The plugins are embedded as state-passing functions over an explicit *)
(*  model of the part of the DOM they read and write.                    *)
(* ===================================================================== *)

From Stdlib Require Import String Ascii Floats.
From stdpp Require Import base gmap strings list pretty.

Local Open Scope string_scope.
Local Open Scope list_scope.

(* --------------------------------------------------------------------- *)
(*  JavaScript string primitives used by both plugins.                   *)
(*  Strings are byte strings; case mapping and white space are those of  *)
(*  the ASCII range.                                                     *)
(* --------------------------------------------------------------------- *)
Module JsString.

Definition lower_ascii (c : ascii) : ascii :=
  let n := nat_of_ascii c in
  if Nat.leb 65 n && Nat.leb n 90 then ascii_of_nat (n + 32) else c.

(* String.prototype.toLowerCase *)
Fixpoint toLowerCase (s : string) : string :=
  match s with
  | EmptyString => EmptyString
  | String c r => String (lower_ascii c) (toLowerCase r)
  end.

(* TAB, LF, VT, FF, CR, SPACE *)
Definition is_space (c : ascii) : bool :=
  let n := nat_of_ascii c in
  (Nat.leb 9 n && Nat.leb n 13) || Nat.eqb n 32.

Fixpoint trimStart (s : string) : string :=
  match s with
  | EmptyString => EmptyString
  | String c r => if is_space c then trimStart r else s
  end.

Fixpoint trimEnd (s : string) : string :=
  match s with
  | EmptyString => EmptyString
  | String c r =>
      match trimEnd r with
      | EmptyString => if is_space c then EmptyString else String c EmptyString
      | r' => String c r'
      end
  end.

(* String.prototype.trim *)
Definition trim (s : string) : string := trimEnd (trimStart s).

(* String.prototype.split with a one-character separator *)
Fixpoint split (sep : ascii) (s : string) : list string :=
  match s with
  | EmptyString => [EmptyString]
  | String c r =>
      if Ascii.eqb c sep then EmptyString :: split sep r
      else match split sep r with
           | h :: t => String c h :: t
           | [] => [String c EmptyString]
           end
  end.

(* Boolean(s) for a string: the empty string is the only falsy one. *)
Definition truthy (s : string) : bool :=
  match s with EmptyString => false | _ => true end.

(* [a || b] where [a] is a string or null/undefined *)
Definition or_else (a : option string) (b : string) : string :=
  match a with
  | Some s => if truthy s then s else b
  | None => b
  end.

(* ASCII white space of a class attribute: TAB, LF, FF, CR, SPACE.
   VT separates nothing there. *)
Definition is_ascii_whitespace (c : ascii) : bool :=
  let n := nat_of_ascii c in
  Nat.eqb n 9 || Nat.eqb n 10 || Nat.eqb n 12 || Nat.eqb n 13 || Nat.eqb n 32.

(* Split at ASCII white space into the non-empty tokens (class
   attributes). *)
Fixpoint words_aux (cur : string) (s : string) : list string :=
  match s with
  | EmptyString => if truthy cur then [cur] else []
  | String c r =>
      if is_ascii_whitespace c
      then (if truthy cur then [cur] else []) ++ words_aux EmptyString r
      else words_aux (String.append cur (String c EmptyString)) r
  end.
Definition words (s : string) : list string := words_aux EmptyString s.

End JsString.
Import JsString.

(* --------------------------------------------------------------------- *)
(*  The parsed document: element trees.                                  *)
(* --------------------------------------------------------------------- *)
Module Dom.

(* An element of a parsed tree.  [nid] is the identity of the element
   object: two references are the same element iff they carry the same
   [nid].  The attribute list is what getAttribute reads. *)
#[warnings="-register-all"]
Inductive Node : Type :=
| Elem (nid : nat) (tagName : string) (attributes : list (string * string))
       (childNodes : list Node).

Definition nid (n : Node) : nat := match n with Elem i _ _ _ => i end.
Definition tagName (n : Node) : string := match n with Elem _ t _ _ => t end.
Definition attributes (n : Node) : list (string * string) :=
  match n with Elem _ _ a _ => a end.
Definition childNodes (n : Node) : list Node :=
  match n with Elem _ _ _ k => k end.

Fixpoint assoc (k : string) (l : list (string * string)) : option string :=
  match l with
  | [] => None
  | (k', v) :: r => if String.eqb k k' then Some v else assoc k r
  end.

(* el.getAttribute(name): null when the attribute is absent *)
Definition getAttribute (el : Node) (name : string) : option string :=
  assoc name (attributes el).

(* el.id reflects the id attribute, '' when absent *)
Definition id_of (el : Node) : string :=
  match getAttribute el "id" with Some s => s | None => "" end.

(* All descendants of an element in document (pre-)order, the element
   itself excluded: the candidates of root.querySelectorAll. *)
Fixpoint descendants (n : Node) : list Node :=
  match n with
  | Elem _ _ _ kids =>
      (fix go (l : list Node) : list Node :=
         match l with
         | [] => []
         | k :: r => k :: descendants k ++ go r
         end) kids
  end.

Fixpoint forest (l : list Node) : list Node :=
  match l with
  | [] => []
  | k :: r => k :: descendants k ++ forest r
  end.

End Dom.
Import Dom.

(* --------------------------------------------------------------------- *)
(*  reveal-svg-layers: the layer step-reveal plugin.                     *)
(*                                                                       *)
(*  The model follows reveal-svg-layers.js.  reveal-svg-layers.umd.js    *)
(*  is the same plugin in a UMD wrapper: its buildSteps is the same      *)
(*  function in ES5 syntax; its initContainer runs buildSteps from a     *)
(*  promise callback and also logs what buildSteps throws.               *)
(*  buildSteps computes a set includeSet that it never reads; it is      *)
(*  left out.                                                            *)
(* --------------------------------------------------------------------- *)
Module SvgLayers.

(* const toList = (attrVal) =>
     (attrVal || '').split(',').map(s => s.trim()).filter(Boolean) *)
Definition toList (attrVal : option string) : list string :=
  filter (λ s, truthy s) (map trim (split "," (or_else attrVal ""))).

(* [a || b] where both sides may be null *)
Definition or_opt (a b : option string) : option string :=
  match a with
  | Some s => if truthy s then a else b
  | None => b
  end.

(* el.getAttribute('inkscape:label') || el.getAttribute('data-label')
     || el.id || '' *)
Definition getInkscapeLabel (el : Node) : string :=
  or_else (or_opt (or_opt (getAttribute el "inkscape:label")
                          (getAttribute el "data-label"))
                  (Some (id_of el)))
          "".

Definition attr_is (el : Node) (name value : string) : bool :=
  match getAttribute el name with
  | Some v => String.eqb v value
  | None => false
  end.

Definition has_attr (el : Node) (name : string) : bool :=
  match getAttribute el name with Some _ => true | None => false end.

Definition is_g (el : Node) : bool := String.eqb (tagName el) "g".

(* g[inkscape\:groupmode=layer], g[groupmode=layer] *)
Definition sel_layer (el : Node) : bool :=
  is_g el && (attr_is el "inkscape:groupmode" "layer" || attr_is el "groupmode" "layer").

(* :scope > g[id] is evaluated on the children of the root *)
Definition sel_g_id (el : Node) : bool := is_g el && has_attr el "id".

Definition findLayers (svgEl : Node) : list Node :=
  let inkscapeLayers := filter (λ el, sel_layer el) (descendants svgEl) in
  match inkscapeLayers with
  | _ :: _ => inkscapeLayers
  | [] =>
      let topLevelGroups := filter (λ el, sel_g_id el) (childNodes svgEl) in
      match topLevelGroups with
      | _ :: _ => topLevelGroups
      | [] => filter (λ el, is_g el) (descendants svgEl)
      end
  end.

(* const byName = (el) => getInkscapeLabel(el).toLowerCase() *)
Definition byName (el : Node) : string := toLowerCase (getInkscapeLabel el).

(* for (const g of allLayers) {
     if (baseSet.has(byName(g))) baseLayers.push(g); else stepLayers.push(g); } *)
Definition partitionLayers (baseSet : gset string) (allLayers : list Node)
  : list Node * list Node :=
  foldl (λ acc g,
           if decide (byName g ∈ baseSet)
           then (acc.1 ++ [g], acc.2)
           else (acc.1, acc.2 ++ [g]))
        ([], []) allLayers.

(* new Map(stepLayers.map(el => [byName(el), el])): entries are set in
   order, a later entry replaces an earlier one with the same key. *)
Definition mapByNameOf (stepLayers : list Node) : gmap string Node :=
  foldl (λ m el, <[byName el := el]> m) ∅ stepLayers.

(* includeList.map(n => mapByName.get(n.toLowerCase())).filter(Boolean) *)
Definition pickIncluded (mapByName : gmap string Node) (includeList : list string)
  : list Node :=
  omap id (map (λ n, mapByName !! toLowerCase n) includeList).

(* A container element: its identity, its attributes and the element
   trees it holds in the page source. *)
Record Container := {
  c_id : nat;
  c_attrs : list (string * string);
  c_content : list Node;
}.

Definition c_getAttribute (c : Container) (name : string) : option string :=
  assoc name (c_attrs c).

(* The directives buildSteps reads from the container. *)
Definition includeListOf (c : Container) : list string :=
  toList (c_getAttribute c "data-include").
Definition baseListOf (c : Container) : list string :=
  toList (c_getAttribute c "data-base").
Definition orderOf (c : Container) : string :=
  toLowerCase (or_else (c_getAttribute c "data-order") "document").
Definition baseSetOf (c : Container) : gset string :=
  list_to_set (map toLowerCase (baseListOf c)).

(* The part of buildSteps that computes baseLayers and stepLayers
   (everything up to "Initial visibility"). *)
Definition classify (container : Container) (svg : Node) : list Node * list Node :=
  let allLayers := findLayers svg in
  let includeList := includeListOf container in
  let order := orderOf container in
  let baseSet := baseSetOf container in
  let parts := partitionLayers baseSet allLayers in
  let baseLayers := parts.1 in
  let stepLayers := parts.2 in
  let stepLayers :=
    match includeList with
    | _ :: _ => pickIncluded (mapByNameOf stepLayers) includeList
    | [] => if String.eqb order "reverse" then reverse stepLayers else stepLayers
    end in
  (baseLayers, stepLayers).

(* ---- The mutable page state the plugin works on ---------------------- *)

(* An element outside the parsed trees: what document.createElement
   returns, or an authored element the deck reports as a fragment. *)
Record DynElem := {
  e_tag : string;
  e_attrs : list (string * string);
  e_classList : list string;
  e_rsvgLayer : option Node;      (* the __rsvgLayer property *)
  e_parent : option nat;          (* parentNode, a container, if attached *)
}.

(* A child appended to a container at run time. *)
Inductive Child :=
| SvgChild (svg : Node)
| SpanChild (ref : nat).

(* The variables one activation of buildSteps leaves to its closures. *)
Record Closure := {
  k_uid : string;
  k_container : Container;
  k_stepLayers : list Node;
  k_placeholders : list nat;
}.

Inductive EventName := Fragmentshown | Fragmenthidden | Slidechanged.

(* The three functions buildSteps registers, each with its environment. *)
Inductive Handler :=
| OnFragmentShown (k : Closure)
| OnFragmentHidden (k : Closure)
| OnSlideChanged (k : Closure).

Definition handlerEnv (h : Handler) : Closure :=
  match h with OnFragmentShown k | OnFragmentHidden k | OnSlideChanged k => k end.

Record State := {
  layerClass : gmap nat (list string);  (* classList of parsed elements, by nid *)
  heap : gmap nat DynElem;              (* created and authored elements *)
  next : nat;                           (* next reference createElement hands out *)
  appended : gmap nat (list Child);     (* children appended to a container *)
  processed : gset nat;                 (* containers with __rsvgProcessed *)
  counter : nat;                        (* the c of uniqId *)
  listeners : list (EventName * Handler);  (* deck.on registrations *)
  teardownFns : list Closure;
  pending : list (Container * string);  (* containers awaiting their fetch *)
  console : list string;                (* console.error lines *)
  styleInjected : bool;                 (* the style element of ensureStyle *)
}.

Definition set_layerClass (f : gmap nat (list string) → gmap nat (list string))
  (st : State) : State :=
  {| layerClass := f (layerClass st); heap := heap st; next := next st;
     appended := appended st; processed := processed st; counter := counter st;
     listeners := listeners st; teardownFns := teardownFns st;
     pending := pending st; console := console st;
     styleInjected := styleInjected st |}.

Definition set_heap (f : gmap nat DynElem → gmap nat DynElem) (st : State) : State :=
  {| layerClass := layerClass st; heap := f (heap st); next := next st;
     appended := appended st; processed := processed st; counter := counter st;
     listeners := listeners st; teardownFns := teardownFns st;
     pending := pending st; console := console st;
     styleInjected := styleInjected st |}.

Definition set_next (n : nat) (st : State) : State :=
  {| layerClass := layerClass st; heap := heap st; next := n;
     appended := appended st; processed := processed st; counter := counter st;
     listeners := listeners st; teardownFns := teardownFns st;
     pending := pending st; console := console st;
     styleInjected := styleInjected st |}.

Definition set_appended (f : gmap nat (list Child) → gmap nat (list Child))
  (st : State) : State :=
  {| layerClass := layerClass st; heap := heap st; next := next st;
     appended := f (appended st); processed := processed st; counter := counter st;
     listeners := listeners st; teardownFns := teardownFns st;
     pending := pending st; console := console st;
     styleInjected := styleInjected st |}.

Definition set_processed (f : gset nat → gset nat) (st : State) : State :=
  {| layerClass := layerClass st; heap := heap st; next := next st;
     appended := appended st; processed := f (processed st); counter := counter st;
     listeners := listeners st; teardownFns := teardownFns st;
     pending := pending st; console := console st;
     styleInjected := styleInjected st |}.

Definition set_counter (n : nat) (st : State) : State :=
  {| layerClass := layerClass st; heap := heap st; next := next st;
     appended := appended st; processed := processed st; counter := n;
     listeners := listeners st; teardownFns := teardownFns st;
     pending := pending st; console := console st;
     styleInjected := styleInjected st |}.

Definition set_listeners (f : list (EventName * Handler) → list (EventName * Handler))
  (st : State) : State :=
  {| layerClass := layerClass st; heap := heap st; next := next st;
     appended := appended st; processed := processed st; counter := counter st;
     listeners := f (listeners st); teardownFns := teardownFns st;
     pending := pending st; console := console st;
     styleInjected := styleInjected st |}.

Definition set_teardownFns (f : list Closure → list Closure) (st : State) : State :=
  {| layerClass := layerClass st; heap := heap st; next := next st;
     appended := appended st; processed := processed st; counter := counter st;
     listeners := listeners st; teardownFns := f (teardownFns st);
     pending := pending st; console := console st;
     styleInjected := styleInjected st |}.

Definition set_pending (f : list (Container * string) → list (Container * string))
  (st : State) : State :=
  {| layerClass := layerClass st; heap := heap st; next := next st;
     appended := appended st; processed := processed st; counter := counter st;
     listeners := listeners st; teardownFns := teardownFns st;
     pending := f (pending st); console := console st;
     styleInjected := styleInjected st |}.

Definition set_console (f : list string → list string) (st : State) : State :=
  {| layerClass := layerClass st; heap := heap st; next := next st;
     appended := appended st; processed := processed st; counter := counter st;
     listeners := listeners st; teardownFns := teardownFns st;
     pending := pending st; console := f (console st);
     styleInjected := styleInjected st |}.

Definition set_styleInjected (b : bool) (st : State) : State :=
  {| layerClass := layerClass st; heap := heap st; next := next st;
     appended := appended st; processed := processed st; counter := counter st;
     listeners := listeners st; teardownFns := teardownFns st;
     pending := pending st; console := console st;
     styleInjected := b |}.

(* ---- DOMTokenList -------------------------------------------------- *)

Definition classList_add (tok : string) (l : list string) : list string :=
  if decide (tok ∈ l) then l else l ++ [tok].
Definition classList_remove (tok : string) (l : list string) : list string :=
  filter (λ t, t ≠ tok) l.
Definition classList_contains (tok : string) (l : list string) : bool :=
  bool_decide (tok ∈ l).

(* The ordered set of a list of tokens: the tokens in the order of their
   first occurrence, each once. *)
Definition tokenSet (tokens : list string) : list string :=
  foldl (λ l tok, classList_add tok l) [] tokens.

(* The classList of an element whose class attribute is [className]. *)
Definition classList_of (className : string) : list string :=
  tokenSet (words className).

Definition classOf (st : State) (el : Node) : list string :=
  default [] (layerClass st !! nid el).

(* function hideLayer(el) { el.classList.add('rsvg-hidden'); } *)
Definition hideLayer (st : State) (el : Node) : State :=
  set_layerClass <[nid el := classList_add "rsvg-hidden" (classOf st el)]> st.

(* function showLayer(el) { el.classList.remove('rsvg-hidden'); } *)
Definition showLayer (st : State) (el : Node) : State :=
  set_layerClass <[nid el := classList_remove "rsvg-hidden" (classOf st el)]> st.

(* The style rule .rsvg-hidden { visibility: hidden } applies. *)
Definition isHidden (st : State) (el : Node) : bool :=
  classList_contains "rsvg-hidden" (classOf st el).

(* showLayer / hideLayer applied to a value that may be undefined: reading
   classList of undefined throws, which is [None]. *)
Definition showLayerRef (st : State) (el : option Node) : option State :=
  showLayer st <$> el.
Definition hideLayerRef (st : State) (el : option Node) : option State :=
  hideLayer st <$> el.

(* const uniqId = (() => { let c = 0;
     return (prefix = 'rsvg') => `${prefix}-${++c}`; })() *)
Definition uniqId (prefix : string) (st : State) : string * State :=
  let c := S (counter st) in
  (String.append prefix (String.append "-" (pretty c)), set_counter c st).

(* ---- buildSteps ----------------------------------------------------- *)

Record Options := {
  selector : string;
  fragmentClass : string;
}.

Definition defaults : Options :=
  {| selector := ".r-svg-layers"; fragmentClass := "" |}.

(* container.appendChild(child) *)
Definition appendChild (c : Container) (child : Child) (st : State) : State :=
  set_appended (λ m, <[c_id c := default [] (m !! c_id c) ++ [child]]> m) st.

(* `fragment rsvg-fragment${extraFrag ? ' ' + extraFrag : ''}` *)
Definition placeholderClassName (extraFrag : string) : string :=
  String.append "fragment rsvg-fragment"
    (if truthy extraFrag then String.append " " extraFrag else "").

(* The span built by one round of stepLayers.map((layerEl, i) => ...). *)
Definition placeholderFor (container : Container) (uid extraFrag : string)
  (layerEl : Node) (i : nat) : DynElem :=
  {| e_tag := "span";
     e_attrs := [("data-rsvg-uid", uid); ("data-rsvg-index", pretty i)];
     e_classList := classList_of (placeholderClassName extraFrag);
     e_rsvgLayer := Some layerEl;
     e_parent := Some (c_id container) |}.

(* stepLayers.map((layerEl, i) => { ...; container.appendChild(span);
   return span; }), from index i on. *)
Fixpoint makePlaceholders (container : Container) (uid extraFrag : string)
  (i : nat) (layers : list Node) (st : State) : list nat * State :=
  match layers with
  | [] => ([], st)
  | layerEl :: rest =>
      let span := next st in
      let st1 := set_next (S span)
                   (set_heap <[span := placeholderFor container uid extraFrag layerEl i]> st) in
      let st2 := appendChild container (SpanChild span) st1 in
      let r := makePlaceholders container uid extraFrag (S i) rest st2 in
      (span :: r.1, r.2)
  end.

(* forEach with a body that may throw *)
Fixpoint forEachM {A} (f : State → A → option State) (l : list A) (st : State)
  : option State :=
  match l with
  | [] => Some st
  | x :: r => match f st x with Some st' => forEachM f r st' | None => None end
  end.

Definition e_getAttribute (e : DynElem) (name : string) : option string :=
  assoc name (e_attrs e).

(* const syncFromVisibleFragments = () => {
     stepLayers.forEach(hideLayer);
     placeholders.forEach(ph => {
       if (ph.classList.contains('visible')) showLayer(ph.__rsvgLayer); }); } *)
Definition syncFromVisibleFragments (k : Closure) (st : State) : option State :=
  let st := foldl hideLayer st (k_stepLayers k) in
  forEachM (λ st ph,
              match heap st !! ph with
              | Some e =>
                  if classList_contains "visible" (e_classList e)
                  then showLayerRef st (e_rsvgLayer e)
                  else Some st
              | None => None
              end)
           (k_placeholders k) st.

(* const onFragmentShown = (ev) => { const ph = ev.fragment;
     if (ph && ph.getAttribute('data-rsvg-uid') === uid) showLayer(ph.__rsvgLayer); }
   A fragment that is not among the created and authored elements of the
   state is an element without the attribute. *)
Definition onFragmentShown (k : Closure) (fragment : option nat) (st : State)
  : option State :=
  match fragment with
  | None => Some st
  | Some ph =>
      match heap st !! ph with
      | Some e =>
          if bool_decide (e_getAttribute e "data-rsvg-uid" = Some (k_uid k))
          then showLayerRef st (e_rsvgLayer e)
          else Some st
      | None => Some st
      end
  end.

Definition onFragmentHidden (k : Closure) (fragment : option nat) (st : State)
  : option State :=
  match fragment with
  | None => Some st
  | Some ph =>
      match heap st !! ph with
      | Some e =>
          if bool_decide (e_getAttribute e "data-rsvg-uid" = Some (k_uid k))
          then hideLayerRef st (e_rsvgLayer e)
          else Some st
      | None => Some st
      end
  end.

(* const onSlideChanged = (ev) => { const current = ev.currentSlide;
     if (current && current.contains(container)) syncFromVisibleFragments(); }
   A slide is given by the containers it contains. *)
Definition onSlideChanged (k : Closure) (currentSlide : option (list nat))
  (st : State) : option State :=
  match currentSlide with
  | Some current =>
      if bool_decide (c_id (k_container k) ∈ current)
      then syncFromVisibleFragments k st
      else Some st
  | None => Some st
  end.

(* The event object the deck passes to a listener. *)
Inductive Ev :=
| FragmentEv (fragment : option nat)
| SlideEv (currentSlide : option (list nat)).

Definition ev_fragment (ev : Ev) : option nat :=
  match ev with FragmentEv f => f | SlideEv _ => None end.
Definition ev_currentSlide (ev : Ev) : option (list nat) :=
  match ev with SlideEv s => s | FragmentEv _ => None end.

Definition call (h : Handler) (ev : Ev) (st : State) : option State :=
  match h with
  | OnFragmentShown k => onFragmentShown k (ev_fragment ev) st
  | OnFragmentHidden k => onFragmentHidden k (ev_fragment ev) st
  | OnSlideChanged k => onSlideChanged k (ev_currentSlide ev) st
  end.

Definition eventName_eqb (a b : EventName) : bool :=
  match a, b with
  | Fragmentshown, Fragmentshown | Fragmenthidden, Fragmenthidden
  | Slidechanged, Slidechanged => true
  | _, _ => false
  end.

(* Two handler values are the same function object iff they are the same
   function of the same activation of buildSteps; uniqId numbers the
   activations. *)
Definition same_fn (h1 h2 : Handler) : bool :=
  match h1, h2 with
  | OnFragmentShown k1, OnFragmentShown k2
  | OnFragmentHidden k1, OnFragmentHidden k2
  | OnSlideChanged k1, OnSlideChanged k2 => String.eqb (k_uid k1) (k_uid k2)
  | _, _ => false
  end.

Definition registered (name : EventName) (h : Handler) (entry : EventName * Handler)
  : bool :=
  eventName_eqb name entry.1 && same_fn h entry.2.

(* deck.on(name, h) *)
Definition deck_on (name : EventName) (h : Handler) (st : State) : State :=
  set_listeners (λ l, l ++ [(name, h)]) st.

(* deck.off(name, h) *)
Definition deck_off (name : EventName) (h : Handler) (st : State) : State :=
  set_listeners (filter (λ entry, ¬ registered name h entry)) st.

(* The deck fires an event: every listener registered under the name runs;
   a listener that throws is reported and the others still run. *)
Definition dispatch (name : EventName) (ev : Ev) (st : State) : State :=
  foldl (λ st entry,
           if eventName_eqb name entry.1
           then default st (call entry.2 ev st)
           else st)
        st (listeners st).

Definition is_span (ph : nat) (c : Child) : bool :=
  match c with SpanChild r => Nat.eqb r ph | SvgChild _ => false end.

(* ph.remove() *)
Definition removeElem (st : State) (ph : nat) : State :=
  match heap st !! ph with
  | Some e =>
      match e_parent e with
      | Some p =>
          set_heap <[ph := {| e_tag := e_tag e; e_attrs := e_attrs e;
                              e_classList := e_classList e;
                              e_rsvgLayer := e_rsvgLayer e;
                              e_parent := None |}]>
            (set_appended (λ m, <[p := filter (λ c, negb (is_span ph c))
                                         (default [] (m !! p))]> m) st)
      | None => st
      end
  | None => st
  end.

(* The function pushed on teardownFns. *)
Definition teardown (st : State) (k : Closure) : State :=
  let st := deck_off Fragmentshown (OnFragmentShown k) st in
  let st := deck_off Fragmenthidden (OnFragmentHidden k) st in
  let st := deck_off Slidechanged (OnSlideChanged k) st in
  let st := foldl removeElem st (k_placeholders k) in
  foldl showLayer st (k_stepLayers k).

(* buildSteps, with the environment it creates.  [None] is an exception. *)
Definition buildSteps_env (container : Container) (svg : Node)
  (fragmentClass : string) (st : State) : Closure * option State :=
  let extraFrag :=
    or_else (or_opt (c_getAttribute container "data-fragment-class")
                    (Some fragmentClass)) "" in
  let parts := classify container svg in
  let baseLayers := parts.1 in
  let stepLayers := parts.2 in
  (* Initial visibility *)
  let st := foldl showLayer st baseLayers in
  let st := foldl hideLayer st stepLayers in
  (* Create invisible fragment anchors for each step *)
  let u := uniqId "rsvgc" st in
  let uid := u.1 in
  let r := makePlaceholders container uid extraFrag 0 stepLayers u.2 in
  let placeholders := r.1 in
  let k := {| k_uid := uid; k_container := container;
              k_stepLayers := stepLayers; k_placeholders := placeholders |} in
  let st := deck_on Fragmentshown (OnFragmentShown k) r.2 in
  let st := deck_on Fragmenthidden (OnFragmentHidden k) st in
  let st := deck_on Slidechanged (OnSlideChanged k) st in
  (* Keep for teardown *)
  let st := set_teardownFns (λ l, l ++ [k]) st in
  (* Initial sync *)
  (k, syncFromVisibleFragments k st).

Definition buildSteps (container : Container) (svg : Node)
  (fragmentClass : string) (st : State) : option State :=
  (buildSteps_env container svg fragmentClass st).2.

(* ---- Loading, initialisation, teardown ------------------------------ *)

(* How the fetch of an external graphic ends.  A response carries the
   documentElement that DOMParser.parseFromString(text, 'image/svg+xml')
   builds from its text: parseFromString does not throw on malformed
   markup, it returns a document whose root is a parsererror element. *)
Inductive Fetched :=
| FetchRejected (message : string)
| FetchResponse (ok : bool) (documentElement : Node).

Definition isParseError (documentElement : Node) : bool :=
  String.eqb (tagName documentElement) "parsererror".

Fixpoint assoc_set (k v : string) (l : list (string * string))
  : list (string * string) :=
  match l with
  | [] => [(k, v)]
  | (k', v') :: r =>
      if String.eqb k k' then (k, v) :: r else (k', v') :: assoc_set k v r
  end.

Definition setAttribute (el : Node) (name value : string) : Node :=
  match el with
  | Elem i t a kids => Elem i t (assoc_set name value a) kids
  end.

Definition attr_truthy (el : Node) (name : string) : bool :=
  truthy (or_else (getAttribute el name) "").

(* inlineExternalSvg(container, srcUrl): [inl message] is a thrown error. *)
Definition inlineExternalSvg (container : Container) (srcUrl : string)
  (res : Fetched) (st : State) : string + (Node * State) :=
  match res with
  | FetchRejected message => inl message
  | FetchResponse false _ => inl (String.append "Failed to load SVG: " srcUrl)
  | FetchResponse true documentElement =>
      let svg := documentElement in
      let svg :=
        if negb (attr_truthy svg "width") && negb (attr_truthy svg "height")
        then setAttribute svg "style" "max-width:100%; height:auto; display:block;"
        else svg in
      inr (svg, appendChild container (SvgChild svg) st)
  end.

Definition is_svg (el : Node) : bool := String.eqb (tagName el) "svg".

Definition childElements (c : Child) : list Node :=
  match c with
  | SvgChild svg => svg :: descendants svg
  | SpanChild _ => []
  end.

(* container.querySelector('svg') *)
Definition querySelectorSvg (container : Container) (st : State) : option Node :=
  head (filter (λ el, is_svg el)
          (forest (c_content container) ++
           flat_map childElements (default [] (appended st !! c_id container)))).

(* initContainer up to its await: the processed check, the search for an
   inline svg and, when one is there, buildSteps. *)
Definition initContainer (options : Options) (container : Container) (st : State)
  : State :=
  if bool_decide (c_id container ∈ processed st) then st
  else
    let st := set_processed (λ s, {[c_id container]} ∪ s) st in
    let svg := querySelectorSvg container st in
    let src := c_getAttribute container "data-src" in
    match svg with
    | Some svg => default st (buildSteps container svg (fragmentClass options) st)
    | None =>
        if truthy (or_else src "")
        then set_pending (λ l, l ++ [(container, or_else src "")]) st
        else st
    end.

(* initContainer after its await, for the i-th waiting container. *)
Definition initContainer_resume (options : Options) (i : nat) (res : Fetched)
  (st : State) : State :=
  match pending st !! i with
  | None => st
  | Some (container, src) =>
      let st := set_pending (delete i) st in
      match inlineExternalSvg container src res st with
      | inl message =>
          set_console (λ l, l ++ [String.append "[svg-layers] " message]) st
      | inr (svg, st) =>
          default st (buildSteps container svg (fragmentClass options) st)
      end
  end.

Definition ensureStyle (st : State) : State :=
  if styleInjected st then st else set_styleInjected true st.

(* init: ensureStyle, then containers.map(initContainer); the containers
   are those the selector finds. *)
Definition init (options : Options) (containers : list Container) (st : State)
  : State :=
  foldl (λ st c, initContainer options c st) (ensureStyle st) containers.

(* destroy: teardownFns.forEach(fn => { try { fn(); } catch {} });
   teardownFns = []; *)
Definition destroy (st : State) : State :=
  set_teardownFns (λ _, []) (foldl teardown st (teardownFns st)).

(* The page before the plugin is loaded: authored elements and their
   classes, nothing registered. *)
Definition initialState (classes : gmap nat (list string)) (authored : gmap nat DynElem)
  (fresh : nat) : State :=
  {| layerClass := classes; heap := authored; next := fresh; appended := ∅;
     processed := ∅; counter := 0; listeners := []; teardownFns := [];
     pending := []; console := []; styleInjected := false |}.

(* What can happen to a page with the plugin loaded. *)
Inductive Action :=
| DeckFragmentShown (fragment : option nat)
| DeckFragmentHidden (fragment : option nat)
| DeckSlideChanged (currentSlide : option (list nat))
| DeckSetVisible (fragment : nat) (visible : bool)
| PluginInit (containers : list Container)
| FetchSettled (i : nat) (res : Fetched)
| PluginDestroy.

(* The deck adds or removes the class visible on a fragment. *)
Definition setVisible (fragment : nat) (visible : bool) (st : State) : State :=
  match heap st !! fragment with
  | Some e =>
      set_heap <[fragment := {| e_tag := e_tag e; e_attrs := e_attrs e;
                                e_classList :=
                                  (if visible then classList_add "visible"
                                   else classList_remove "visible") (e_classList e);
                                e_rsvgLayer := e_rsvgLayer e;
                                e_parent := e_parent e |}]> st
  | None => st
  end.

Definition step (options : Options) (st : State) (a : Action) : State :=
  match a with
  | DeckFragmentShown f => dispatch Fragmentshown (FragmentEv f) st
  | DeckFragmentHidden f => dispatch Fragmenthidden (FragmentEv f) st
  | DeckSlideChanged s => dispatch Slidechanged (SlideEv s) st
  | DeckSetVisible f b => setVisible f b st
  | PluginInit cs => init options cs st
  | FetchSettled i res => initContainer_resume options i res st
  | PluginDestroy => destroy st
  end.

Definition run (options : Options) (st : State) (l : list Action) : State :=
  foldl (step options) st l.

End SvgLayers.

(* --------------------------------------------------------------------- *)
(*  floating-dev-helper: drag / resize overlay for .floating.debug       *)
(*  elements.  Numbers are JavaScript numbers, IEEE 754 binary64        *)
(*  values: what layout reports (rectangles, the render scale, computed  *)
(*  offsets) comes with each event, and the helper's own arithmetic is   *)
(*  that of binary64, rounding to nearest; formatting (number to string, *)
(*  toFixed, Math.round) is kept symbolic.                               *)
(* --------------------------------------------------------------------- *)
Module Floating.

(* The object measure(el, slide) returns. *)
Record Measure := {
  left : float; top : float; width : float; height : float;
  leftPct : float; topPct : float;
}.

(* What the layout engine answers at one instant. *)
Record Layout := {
  measure : nat → Measure;   (* measure(el, slide) for the target el *)
  getScale : nat → float;    (* getScale(slide) for the slide of el *)
}.

Inductive CssValue :=
| Px (q : float)        (* q + 'px' *)
| RoundPx (q : float)   (* `${Math.round(q)}px` *)
| Fixed1Pct (q : float). (* `${q.toFixed(1)}%` *)

(* The variables of one activation of enableDrag, and whether its onMove
   and onUp are currently listeners of window (addEventListener ignores a
   listener that is already registered). *)
Record Drag := {
  gripListener : bool;       (* grip found: startDrag listens on the grip *)
  startX : float; startY : float; startLeft : float; startTop : float;
  dragging : bool;
  moveOnWindow : bool;
  upOnWindow : bool;
}.

(* A .floating.debug element. *)
Record Target := {
  slide : option nat;                    (* el.closest('section') *)
  grips : nat;                           (* .floating-grip children *)
  huds : nat;                            (* .floating-hud children *)
  hudInfo : option (option Measure);     (* el.__hudInfo and the measure its text shows *)
  drags : list Drag;                     (* activations of enableDrag *)
  floatingRo : bool;                     (* el.__floatingRo is set *)
  observers : nat;                       (* connected ResizeObservers *)
  frames : nat;                          (* requested animation-frame callbacks *)
  styleLog : list (string * CssValue);   (* writes to el.style, oldest first *)
}.

Record Page := {
  stylesInjected : nat;                  (* style[data-floating-dev-helper] elements *)
  processed : gset nat;                  (* the WeakSet processed *)
  targets : gmap nat Target;
}.

Definition set_target (el : nat) (t : Target) (p : Page) : Page :=
  {| stylesInjected := stylesInjected p; processed := processed p;
     targets := <[el := t]> (targets p) |}.

Definition with_hudInfo (h : option (option Measure)) (t : Target) : Target :=
  {| slide := slide t; grips := grips t; huds := huds t; hudInfo := h;
     drags := drags t; floatingRo := floatingRo t; observers := observers t;
     frames := frames t; styleLog := styleLog t |}.

Definition with_drags (d : list Drag) (t : Target) : Target :=
  {| slide := slide t; grips := grips t; huds := huds t; hudInfo := hudInfo t;
     drags := d; floatingRo := floatingRo t; observers := observers t;
     frames := frames t; styleLog := styleLog t |}.

Definition with_frames (n : nat) (t : Target) : Target :=
  {| slide := slide t; grips := grips t; huds := huds t; hudInfo := hudInfo t;
     drags := drags t; floatingRo := floatingRo t; observers := observers t;
     frames := n; styleLog := styleLog t |}.

(* el.style.setProperty(name, v) and el.style.left = v *)
Definition setStyle (name : string) (v : CssValue) (t : Target) : Target :=
  {| slide := slide t; grips := grips t; huds := huds t; hudInfo := hudInfo t;
     drags := drags t; floatingRo := floatingRo t; observers := observers t;
     frames := frames t; styleLog := styleLog t ++ [(name, v)] |}.

(* function injectStyles() *)
Definition injectStyles (p : Page) : Page :=
  match stylesInjected p with
  | S _ => p
  | O => {| stylesInjected := 1; processed := processed p; targets := targets p |}
  end.

(* function addGrip(el) *)
Definition addGrip (t : Target) : Target :=
  match grips t with
  | S _ => t
  | O => {| slide := slide t; grips := 1; huds := huds t; hudInfo := hudInfo t;
            drags := drags t; floatingRo := floatingRo t; observers := observers t;
            frames := frames t; styleLog := styleLog t |}
  end.

(* function addHud(el, slide): the hud with its info span (empty text) *)
Definition addHud (t : Target) : Target :=
  match huds t with
  | S _ => t
  | O => {| slide := slide t; grips := grips t; huds := 1; hudInfo := Some None;
            drags := drags t; floatingRo := floatingRo t; observers := observers t;
            frames := frames t; styleLog := styleLog t |}
  end.

(* function updateHudAndVars(el, slide, mirror) *)
Definition updateHudAndVars (m : Measure) (mirror : bool) (t : Target) : Target :=
  let t := match hudInfo t with
           | Some _ => with_hudInfo (Some (Some m)) t
           | None => t
           end in
  if mirror then
    setStyle "--floating-h" (RoundPx (height m))
      (setStyle "--floating-w" (RoundPx (width m))
         (setStyle "--floating-top" (Fixed1Pct (topPct m))
            (setStyle "--floating-left" (Fixed1Pct (leftPct m)) t)))
  else t.

(* function enableDrag(el, slide): a new activation, not dragging.  Its
   start variables are unassigned until startDrag assigns all four; onMove
   reads them only while dragging, which startDrag sets with them. *)
Definition enableDrag (t : Target) : Target :=
  with_drags (drags t ++
              [{| gripListener := match grips t with S _ => true | O => false end;
                  startX := 0; startY := 0; startLeft := 0; startTop := 0;
                  dragging := false; moveOnWindow := false; upOnWindow := false |}]) t.

(* function observeResize(el, slide) *)
Definition observeResize (t : Target) : Target :=
  {| slide := slide t; grips := grips t; huds := huds t; hudInfo := hudInfo t;
     drags := drags t; floatingRo := true;
     observers := S (if floatingRo t then pred (observers t) else observers t);
     frames := frames t; styleLog := styleLog t |}.

(* function initOne(el).  ensurePositioningContext only touches the style
   of the slide, and the click listener of the copy button only reads
   the layout and the clipboard; both are left out. *)
Definition initOne (el : nat) (p : Page) : Page :=
  match targets p !! el with
  | None => p
  | Some t =>
      match slide t with
      | None => p
      | Some _ =>
          let t := addGrip t in
          let t := addHud t in
          let t := enableDrag t in
          let t := observeResize t in
          let t := with_frames (S (frames t)) t in
          {| stylesInjected := stylesInjected p;
             processed := {[el]} ∪ processed p;
             targets := <[el := t]> (targets p) |}
      end
  end.

(* function initAll(): [els] are the elements .reveal .floating.debug *)
Definition initAll (ly : Layout) (els : list nat) (p : Page) : Page :=
  foldl (λ p el,
           if bool_decide (el ∈ processed p)
           then match targets p !! el with
                | Some t => set_target el (updateHudAndVars (measure ly el) false t) p
                | None => p
                end
           else initOne el p)
        (injectStyles p) els.

(* const startDrag = (e) => { ... }; [csLeft] and [csTop] are the values
   of parseFloat(cs.left) || 0 and parseFloat(cs.top) || 0 at the event. *)
Definition startDrag (clientX clientY csLeft csTop : float) (d : Drag) : Drag :=
  {| gripListener := gripListener d;
     startX := clientX; startY := clientY; startLeft := csLeft; startTop := csTop;
     dragging := true; moveOnWindow := true; upOnWindow := true |}.

(* pointerdown inside el: the capturing listener of el runs first (it
   starts a drag only with ALT held), then, when the grip is the event
   target, the listener of the grip. *)
Definition pointerDown (onGrip altKey : bool) (clientX clientY csLeft csTop : float)
  (d : Drag) : Drag :=
  let d := if altKey then startDrag clientX clientY csLeft csTop d else d in
  if onGrip && gripListener d then startDrag clientX clientY csLeft csTop d else d.

(* const onMove = (e) => { ... }, for one activation *)
Definition onMove (el : nat) (ly : Layout) (clientX clientY : float) (d : Drag)
  (t : Target) : Target :=
  if negb (dragging d) then t
  else
    let scale := getScale ly el in
    let dx := PrimFloat.div (PrimFloat.sub clientX (startX d)) scale in
    let dy := PrimFloat.div (PrimFloat.sub clientY (startY d)) scale in
    let t := setStyle "left" (Px (PrimFloat.add (startLeft d) dx)) t in
    let t := setStyle "top" (Px (PrimFloat.add (startTop d) dy)) t in
    updateHudAndVars (measure ly el) false t.

(* const onUp = () => { ... }; registered with once: true *)
Definition onUp_drag (d : Drag) : Drag :=
  {| gripListener := gripListener d;
     startX := startX d; startY := startY d;
     startLeft := startLeft d; startTop := startTop d;
     dragging := false; moveOnWindow := false; upOnWindow := false |}.

Inductive Event :=
| PointerDown (el : nat) (onGrip altKey : bool) (clientX clientY csLeft csTop : float)
| PointerMove (clientX clientY : float)
| PointerUp
| ResizeObserved (el : nat)
| AnimationFrame (el : nat)
| Scan (els : list nat).

(* window pointermove: every registered onMove runs *)
Definition windowMove (el : nat) (ly : Layout) (clientX clientY : float) (t : Target)
  : Target :=
  foldl (λ t d, if moveOnWindow d then onMove el ly clientX clientY d t else t)
        t (drags t).

(* window pointerup: every registered onUp runs, once *)
Definition windowUp (el : nat) (ly : Layout) (t : Target) : Target :=
  let fired := filter (λ d, upOnWindow d) (drags t) in
  let t := with_drags (map (λ d, if upOnWindow d then onUp_drag d else d) (drags t)) t in
  foldl (λ t _, updateHudAndVars (measure ly el) true t) t fired.

Definition step (ly : Layout) (p : Page) (e : Event) : Page :=
  match e with
  | PointerDown el onGrip altKey x y l tp =>
      match targets p !! el with
      | Some t =>
          set_target el
            (with_drags (map (pointerDown onGrip altKey x y l tp) (drags t)) t) p
      | None => p
      end
  | PointerMove x y =>
      {| stylesInjected := stylesInjected p; processed := processed p;
         targets := map_imap (λ el t, Some (windowMove el ly x y t)) (targets p) |}
  | PointerUp =>
      {| stylesInjected := stylesInjected p; processed := processed p;
         targets := map_imap (λ el t, Some (windowUp el ly t)) (targets p) |}
  | ResizeObserved el =>
      match targets p !! el with
      | Some t =>
          match observers t with
          | S _ => set_target el (updateHudAndVars (measure ly el) false t) p
          | O => p
          end
      | None => p
      end
  | AnimationFrame el =>
      match targets p !! el with
      | Some t =>
          match frames t with
          | S n => set_target el
                     (updateHudAndVars (measure ly el) false (with_frames n t)) p
          | O => p
          end
      | None => p
      end
  | Scan els => initAll ly els p
  end.

(* Each event comes with the layout of its instant. *)
Definition run (p : Page) (l : list (Layout * Event)) : Page :=
  foldl (λ p le, step le.1 p le.2) p l.

(* A page whose .floating.debug elements are not decorated yet. *)
Definition plainTarget (sl : option nat) : Target :=
  {| slide := sl; grips := 0; huds := 0; hudInfo := None; drags := [];
     floatingRo := false; observers := 0; frames := 0; styleLog := [] |}.

Definition isVar (entry : string * CssValue) : bool :=
  String.eqb entry.1 "--floating-left" || String.eqb entry.1 "--floating-top" ||
  String.eqb entry.1 "--floating-w" || String.eqb entry.1 "--floating-h".

(* The writes to the four committed variables of el, oldest first. *)
Definition varWrites (p : Page) (el : nat) : list (string * CssValue) :=
  match targets p !! el with
  | Some t => filter (λ entry, isVar entry) (styleLog t)
  | None => []
  end.

End Floating.

(* ===================================================================== *)
(*  Properties of the layer step-reveal plugin                           *)
(* ===================================================================== *)
Import SvgLayers.
Local Open Scope nat_scope.

Lemma descendants_forest n : descendants n = forest (childNodes n).
Proof.
  destruct n as [i t a kids]; simpl.
  induction kids as [|k r IH]; simpl; [done|by rewrite IH].
Qed.

Lemma childNodes_sublist_forest (l : list Node) : l `sublist_of` forest l.
Proof.
  induction l as [|k r IH]; simpl; [constructor|].
  apply sublist_skip. by apply sublist_inserts_l.
Qed.

(* querySelectorAll answers in document order: findLayers is a
   subsequence of the pre-order traversal of the svg. *)
Lemma findLayers_document_order svg : findLayers svg `sublist_of` descendants svg.
Proof.
  unfold findLayers.
  destruct (filter _ (descendants svg)) as [|x l] eqn:E1.
  - destruct (filter _ (childNodes svg)) as [|y k] eqn:E2.
    + apply sublist_filter.
    + rewrite <- E2. etrans; [apply sublist_filter|].
      rewrite descendants_forest. apply childNodes_sublist_forest.
  - rewrite <- E1. apply sublist_filter.
Qed.

Lemma partitionLayers_filter (baseSet : gset string) (l : list Node) :
  partitionLayers baseSet l =
    (filter (λ g, byName g ∈ baseSet) l, filter (λ g, byName g ∉ baseSet) l).
Proof.
  unfold partitionLayers.
  induction l as [|x l IH] using rev_ind; [done|].
  rewrite foldl_snoc, IH, !filter_app. simpl.
  destruct (decide (byName x ∈ baseSet)) as [Hin|Hout].
  - rewrite (filter_cons_True (λ g, byName g ∈ baseSet) x) by done.
    rewrite (filter_cons_False (λ g, byName g ∉ baseSet) x) by (intros H; by apply H).
    by rewrite !filter_nil, app_nil_r.
  - rewrite (filter_cons_False (λ g, byName g ∈ baseSet) x) by done.
    rewrite (filter_cons_True (λ g, byName g ∉ baseSet) x) by done.
    by rewrite !filter_nil, app_nil_r.
Qed.

(* Map.get after new Map(entries): the last entry with the key. *)
Lemma mapByNameOf_lookup (l : list Node) (key : string) :
  mapByNameOf l !! key = last (filter (λ el, byName el = key) l).
Proof.
  unfold mapByNameOf.
  induction l as [|x l IH] using rev_ind; [done|].
  rewrite foldl_snoc, filter_app.
  destruct (decide (byName x = key)) as [<-|Hne].
  - rewrite lookup_insert_eq.
    rewrite (filter_cons_True (λ el, byName el = byName x) x) by done.
    by rewrite filter_nil, last_snoc.
  - rewrite lookup_insert_ne by done.
    rewrite (filter_cons_False (λ el, byName el = key) x) by done.
    by rewrite filter_nil, app_nil_r.
Qed.

Lemma mapByNameOf_Some (l : list Node) (key : string) (el : Node) :
  mapByNameOf l !! key = Some el → el ∈ l ∧ byName el = key.
Proof.
  rewrite mapByNameOf_lookup. intros H%last_Some_elem_of.
  apply list_elem_of_filter in H. tauto.
Qed.

Lemma mapByNameOf_is_Some (l : list Node) (key : string) :
  is_Some (mapByNameOf l !! key) ↔ key ∈ map byName l.
Proof.
  rewrite mapByNameOf_lookup, last_is_Some. split.
  - intros H. destruct (filter _ l) as [|x r] eqn:E; [done|].
    assert (x ∈ filter (λ el, byName el = key) l) as Hx by (rewrite E; left).
    apply list_elem_of_filter in Hx as [<- Hx].
    by apply (list_elem_of_fmap_2 byName).
  - intros (x & -> & Hx)%list_elem_of_fmap Hnil.
    eapply (filter_nil_not_elem_of (λ el, byName el = byName x)); eauto.
Qed.

Lemma pickIncluded_omap (m : gmap string Node) (includeList : list string) :
  pickIncluded m includeList = omap (λ n, m !! toLowerCase n) includeList.
Proof.
  unfold pickIncluded. induction includeList as [|n l IH]; [done|].
  cbn [map omap list_omap id]. rewrite <- IH. done.
Qed.

(* The names of the picked layers are the include names that have an
   entry, lower-cased, in include-list order. *)
Lemma pickIncluded_names (cands : list Node) (includeList : list string) :
  map byName (pickIncluded (mapByNameOf cands) includeList) =
    filter (λ n, n ∈ map byName cands) (map toLowerCase includeList).
Proof.
  rewrite pickIncluded_omap.
  induction includeList as [|n l IH]; [done|].
  cbn [omap list_omap map].
  destruct (mapByNameOf cands !! toLowerCase n) as [el|] eqn:E.
  - pose proof (mapByNameOf_Some _ _ _ E) as [_ Hn].
    rewrite filter_cons_True
      by (apply mapByNameOf_is_Some; by rewrite E).
    cbn [map]. by rewrite Hn, IH.
  - rewrite filter_cons_False; [done|].
    intros H%mapByNameOf_is_Some. rewrite E in H. by destruct H.
Qed.

Lemma pickIncluded_elem (cands : list Node) (includeList : list string) (g : Node) :
  g ∈ pickIncluded (mapByNameOf cands) includeList → g ∈ cands.
Proof.
  rewrite pickIncluded_omap. intros (n & _ & H)%list_elem_of_omap.
  by apply mapByNameOf_Some in H as [? _].
Qed.

(* The groups left for stepping once the base layers are taken out. *)
Definition stepCandidates (container : Container) (svg : Node) : list Node :=
  filter (λ g, byName g ∉ baseSetOf container) (findLayers svg).

Lemma classify_base container svg :
  (classify container svg).1 =
    filter (λ g, byName g ∈ baseSetOf container) (findLayers svg).
Proof. unfold classify. by rewrite partitionLayers_filter. Qed.

Lemma classify_step container svg :
  (classify container svg).2 =
    match includeListOf container with
    | _ :: _ =>
        pickIncluded (mapByNameOf (stepCandidates container svg)) (includeListOf container)
    | [] =>
        if String.eqb (orderOf container) "reverse"
        then reverse (stepCandidates container svg)
        else stepCandidates container svg
    end.
Proof. unfold classify. rewrite partitionLayers_filter. simpl. done. Qed.

Lemma classify_step_candidates container svg g :
  g ∈ (classify container svg).2 → g ∈ stepCandidates container svg.
Proof.
  rewrite classify_step. destruct (includeListOf container).
  - destruct (String.eqb _ _); [by rewrite elem_of_reverse|done].
  - apply pickIncluded_elem.
Qed.

(* ---- Which part of the page an operation writes ---------------------- *)

Arguments set_layerClass _ _ /.
Arguments set_heap _ _ /.
Arguments set_next _ _ /.
Arguments set_appended _ _ /.
Arguments set_processed _ _ /.
Arguments set_counter _ _ /.
Arguments set_listeners _ _ /.
Arguments set_teardownFns _ _ /.
Arguments set_pending _ _ /.
Arguments set_console _ _ /.
Arguments set_styleInjected _ _ /.

(* [touches N st st']: st' differs from st in class lists of parsed
   elements only, and only for elements whose nid is in N. *)
Definition touches (N : nat → Prop) (st st' : State) : Prop :=
  st' = set_layerClass (λ _, layerClass st') st ∧
  ∀ n, ¬ N n → layerClass st' !! n = layerClass st !! n.

Lemma touches_refl N st : touches N st st.
Proof. split; [by destruct st|done]. Qed.

Lemma touches_trans N a b c : touches N a b → touches N b c → touches N a c.
Proof.
  intros [E1 F1] [E2 F2]. split.
  - destruct a, b, c; simpl in *. congruence.
  - intros n Hn. by rewrite F2, F1.
Qed.

Lemma touches_heap N a b : touches N a b → heap b = heap a.
Proof. by intros [-> _]. Qed.
Lemma touches_next N a b : touches N a b → next b = next a.
Proof. by intros [-> _]. Qed.
Lemma touches_appended N a b : touches N a b → appended b = appended a.
Proof. by intros [-> _]. Qed.
Lemma touches_listeners N a b : touches N a b → listeners b = listeners a.
Proof. by intros [-> _]. Qed.
Lemma touches_teardownFns N a b : touches N a b → teardownFns b = teardownFns a.
Proof. by intros [-> _]. Qed.
Lemma touches_processed N a b : touches N a b → processed b = processed a.
Proof. by intros [-> _]. Qed.
Lemma touches_pending N a b : touches N a b → pending b = pending a.
Proof. by intros [-> _]. Qed.
Lemma touches_console N a b : touches N a b → console b = console a.
Proof. by intros [-> _]. Qed.
Lemma touches_counter N a b : touches N a b → counter b = counter a.
Proof. by intros [-> _]. Qed.
Lemma touches_styleInjected N a b : touches N a b → styleInjected b = styleInjected a.
Proof. by intros [-> _]. Qed.

Lemma touches_mono (N M : nat → Prop) a b :
  (∀ n, N n → M n) → touches N a b → touches M a b.
Proof. intros H [E F]. split; [done|]. intros n Hn. apply F. naive_solver. Qed.

Lemma showLayer_touches (N : nat → Prop) st el :
  N (nid el) → touches N st (showLayer st el).
Proof.
  intros HN. split; [done|]. intros n Hn. simpl.
  rewrite lookup_insert_ne; [done|]. by intros <-.
Qed.

Lemma hideLayer_touches (N : nat → Prop) st el :
  N (nid el) → touches N st (hideLayer st el).
Proof.
  intros HN. split; [done|]. intros n Hn. simpl.
  rewrite lookup_insert_ne; [done|]. by intros <-.
Qed.

Lemma foldl_touches (N : nat → Prop) (f : State → Node → State) (l : list Node) st :
  (∀ st el, el ∈ l → touches N st (f st el)) → touches N st (foldl f st l).
Proof.
  revert st. induction l as [|x l IH]; intros st H; simpl; [apply touches_refl|].
  eapply touches_trans; [apply H; left|].
  apply IH. intros st' el Hel. apply H. by right.
Qed.

Lemma foldl_showLayer_touches (N : nat → Prop) (l : list Node) st :
  (∀ el, el ∈ l → N (nid el)) → touches N st (foldl showLayer st l).
Proof. intros H. apply foldl_touches. intros. apply showLayer_touches; auto. Qed.

Lemma foldl_hideLayer_touches (N : nat → Prop) (l : list Node) st :
  (∀ el, el ∈ l → N (nid el)) → touches N st (foldl hideLayer st l).
Proof. intros H. apply foldl_touches. intros. apply hideLayer_touches; auto. Qed.

(* Class lists after show / hide. *)
Lemma classOf_showLayer_same st el : classOf (showLayer st el) el =
  classList_remove "rsvg-hidden" (classOf st el).
Proof. unfold classOf. simpl. by rewrite lookup_insert_eq. Qed.

Lemma classOf_hideLayer_same st el : classOf (hideLayer st el) el =
  classList_add "rsvg-hidden" (classOf st el).
Proof. unfold classOf. simpl. by rewrite lookup_insert_eq. Qed.

Lemma classOf_showLayer_other st el g :
  nid g ≠ nid el → classOf (showLayer st el) g = classOf st g.
Proof. intros H. unfold classOf. simpl. by rewrite lookup_insert_ne. Qed.

Lemma classOf_hideLayer_other st el g :
  nid g ≠ nid el → classOf (hideLayer st el) g = classOf st g.
Proof. intros H. unfold classOf. simpl. by rewrite lookup_insert_ne. Qed.

Lemma isHidden_showLayer st el g :
  nid g = nid el → isHidden (showLayer st el) g = false.
Proof.
  intros H. unfold isHidden, classOf, classList_contains. simpl.
  rewrite H, lookup_insert_eq. simpl.
  apply bool_decide_eq_false. unfold classList_remove.
  rewrite list_elem_of_filter. intros [Hne _]. by apply Hne.
Qed.

Lemma isHidden_hideLayer st el g :
  nid g = nid el → isHidden (hideLayer st el) g = true.
Proof.
  intros H. unfold isHidden, classOf, classList_contains. simpl.
  rewrite H, lookup_insert_eq. simpl.
  apply bool_decide_eq_true. unfold classList_add.
  case_decide; [done|]. apply elem_of_app. right. left.
Qed.

Lemma isHidden_showLayer_false st el g :
  isHidden st g = false → isHidden (showLayer st el) g = false.
Proof.
  intros H. destruct (decide (nid g = nid el)) as [E|E].
  - by apply isHidden_showLayer.
  - unfold isHidden. by rewrite classOf_showLayer_other.
Qed.

(* ---- Handlers -------------------------------------------------------- *)

(* The layer a fragment is bound to, as a handler with the given uid
   sees it: the fragment must carry the uid. *)
Definition boundLayer (st : State) (uid : string) (fragment : option nat)
  : option Node :=
  match fragment with
  | Some ph =>
      match heap st !! ph with
      | Some e =>
          if bool_decide (e_getAttribute e "data-rsvg-uid" = Some uid)
          then e_rsvgLayer e else None
      | None => None
      end
  | None => None
  end.

(* The layer stored on a fragment, whatever uid it carries. *)
Definition storedLayer (st : State) (fragment : option nat) : option Node :=
  match fragment with
  | Some ph => match heap st !! ph with Some e => e_rsvgLayer e | None => None end
  | None => None
  end.

Lemma boundLayer_stored st uid f g :
  boundLayer st uid f = Some g → storedLayer st f = Some g.
Proof.
  unfold boundLayer, storedLayer. destruct f as [ph|]; [|done].
  destruct (heap st !! ph); [|done]. by case_bool_decide.
Qed.

Lemma onFragmentShown_cases k f st :
  match boundLayer st (k_uid k) f with
  | Some g => onFragmentShown k f st = Some (showLayer st g)
  | None => default st (onFragmentShown k f st) = st
  end.
Proof.
  unfold boundLayer, onFragmentShown. destruct f as [ph|]; [|done].
  destruct (heap st !! ph) as [e|]; [|done].
  case_bool_decide; [|done]. by destruct (e_rsvgLayer e).
Qed.

Lemma onFragmentHidden_cases k f st :
  match boundLayer st (k_uid k) f with
  | Some g => onFragmentHidden k f st = Some (hideLayer st g)
  | None => default st (onFragmentHidden k f st) = st
  end.
Proof.
  unfold boundLayer, onFragmentHidden. destruct f as [ph|]; [|done].
  destruct (heap st !! ph) as [e|]; [|done].
  case_bool_decide; [|done]. by destruct (e_rsvgLayer e).
Qed.

Lemma forEachM_touches {A} (N : nat → Prop) (f : State → A → option State)
  (l : list A) st st' :
  (∀ s s' x, x ∈ l → heap s = heap st → f s x = Some s' → touches N s s') →
  forEachM f l st = Some st' → touches N st st'.
Proof.
  revert st. induction l as [|x l IH]; intros st H; simpl.
  - intros [= <-]. apply touches_refl.
  - destruct (f st x) as [s1|] eqn:E; [|done]. intros Hr.
    assert (touches N st s1) as T1 by (eapply H; [left|done|done]).
    eapply touches_trans; [exact T1|].
    apply IH; [|done]. intros s s' y Hy Hs. apply H; [by right|].
    by rewrite Hs, (touches_heap _ _ _ T1).
Qed.

(* The parsed elements this state holds references to. *)
Definition layerRefs (st : State) (n : nat) : Prop :=
  (∃ entry g, entry ∈ listeners st ∧ g ∈ k_stepLayers (handlerEnv entry.2) ∧ nid g = n) ∨
  (∃ k g, k ∈ teardownFns st ∧ g ∈ k_stepLayers k ∧ nid g = n) ∨
  (∃ ph e g, heap st !! ph = Some e ∧ e_rsvgLayer e = Some g ∧ nid g = n).

Definition heapLayer (st : State) (n : nat) : Prop :=
  ∃ ph e g, heap st !! ph = Some e ∧ e_rsvgLayer e = Some g ∧ nid g = n.

Lemma syncFromVisibleFragments_touches (N : nat → Prop) k st st' :
  (∀ g, g ∈ k_stepLayers k → N (nid g)) →
  (∀ ph e g, ph ∈ k_placeholders k → heap st !! ph = Some e →
             e_rsvgLayer e = Some g → N (nid g)) →
  syncFromVisibleFragments k st = Some st' → touches N st st'.
Proof.
  intros Hs Hh. unfold syncFromVisibleFragments. intros Hr.
  pose proof (foldl_hideLayer_touches N (k_stepLayers k) st Hs) as T0.
  eapply touches_trans; [exact T0|].
  eapply forEachM_touches; [|exact Hr].
  intros s s' ph Hph Hheap. cbv beta. rewrite Hheap.
  destruct (heap _ !! ph) as [e|] eqn:E; [|done].
  destruct (classList_contains _ _).
  - destruct (e_rsvgLayer e) as [g|] eqn:Eg; [|done]. simpl. intros [= <-].
    apply showLayer_touches. apply (Hh ph e g); [done| |done].
    by rewrite <- (touches_heap _ _ _ T0).
  - intros [= <-]. apply touches_refl.
Qed.

Lemma syncFromVisibleFragments_Some k st :
  (∀ ph, ph ∈ k_placeholders k →
         ∃ e g, heap st !! ph = Some e ∧ e_rsvgLayer e = Some g) →
  is_Some (syncFromVisibleFragments k st).
Proof.
  intros H. unfold syncFromVisibleFragments.
  assert (heap (foldl hideLayer st (k_stepLayers k)) = heap st) as Hh.
  { eapply (touches_heap (λ _, True)), foldl_hideLayer_touches. done. }
  revert Hh. generalize (foldl hideLayer st (k_stepLayers k)).
  induction (k_placeholders k) as [|ph l IH]; intros s Hs; simpl; [done|].
  destruct (H ph) as (e & g & He & Hg); [left|]. rewrite Hs, He.
  destruct (classList_contains _ _).
  - rewrite Hg. simpl. apply IH; [|done]. intros x Hx. apply H. by right.
  - apply IH; [|done]. intros x Hx. apply H. by right.
Qed.

Lemma call_touches (N : nat → Prop) h ev st :
  (∀ g, g ∈ k_stepLayers (handlerEnv h) → N (nid g)) →
  (∀ n, heapLayer st n → N n) →
  touches N st (default st (call h ev st)).
Proof.
  intros Hs Hh.
  assert (∀ g, storedLayer st (ev_fragment ev) = Some g → N (nid g)) as Hst.
  { unfold storedLayer. intros g. destruct (ev_fragment ev) as [ph|]; [|done].
    destruct (heap st !! ph) as [e|] eqn:E; [|done]. intros Hg.
    apply Hh. by exists ph, e, g. }
  destruct h as [k|k|k]; simpl.
  - pose proof (onFragmentShown_cases k (ev_fragment ev) st) as H.
    destruct (boundLayer _ _ _) as [g|] eqn:E.
    + rewrite H. simpl. apply showLayer_touches, Hst. by eapply boundLayer_stored.
    + rewrite H. apply touches_refl.
  - pose proof (onFragmentHidden_cases k (ev_fragment ev) st) as H.
    destruct (boundLayer _ _ _) as [g|] eqn:E.
    + rewrite H. simpl. apply hideLayer_touches, Hst. by eapply boundLayer_stored.
    + rewrite H. apply touches_refl.
  - unfold onSlideChanged. destruct (ev_currentSlide ev) as [cur|]; [|apply touches_refl].
    case_bool_decide; [|apply touches_refl].
    destruct (syncFromVisibleFragments k st) as [st'|] eqn:E; [|apply touches_refl].
    simpl. eapply syncFromVisibleFragments_touches; [done| |done].
    intros ph e g _ He Hg. apply Hh. by exists ph, e, g.
Qed.

Lemma heapLayer_touches N st st' n :
  touches N st st' → heapLayer st' n ↔ heapLayer st n.
Proof. intros T. unfold heapLayer. by rewrite (touches_heap _ _ _ T). Qed.

Lemma dispatch_touches_gen (N : nat → Prop) name ev (l : list (EventName * Handler)) st :
  (∀ entry g, entry ∈ l → g ∈ k_stepLayers (handlerEnv entry.2) → N (nid g)) →
  (∀ n, heapLayer st n → N n) →
  touches N st
    (foldl (λ st entry,
              if eventName_eqb name entry.1
              then default st (call entry.2 ev st) else st) st l).
Proof.
  revert st. induction l as [|x l IH]; intros st Hl Hh; simpl; [apply touches_refl|].
  assert (touches N st (if eventName_eqb name x.1
                        then default st (call x.2 ev st) else st)) as T1.
  { destruct (eventName_eqb name x.1); [|apply touches_refl].
    apply call_touches; [|done]. intros g Hg. eapply Hl; [left|done]. }
  eapply touches_trans; [exact T1|]. apply IH.
  - intros entry g He. apply Hl. by right.
  - intros n Hn. apply Hh. by apply (heapLayer_touches _ _ _ _ T1).
Qed.

(* A deck event rewrites class lists only, and only of elements the
   plugin holds a reference to. *)
Lemma dispatch_touches name ev st :
  touches (layerRefs st) st (dispatch name ev st).
Proof.
  unfold dispatch. apply dispatch_touches_gen.
  - intros entry g He Hg. left. by exists entry, g.
  - intros n Hn. right. by right.
Qed.

(* ---- Placeholders ---------------------------------------------------- *)

(* [dom_only st st']: st' differs from st in the created elements and in
   the children of containers only. *)
Definition dom_only (st st' : State) : Prop :=
  st' = set_next (next st') (set_heap (λ _, heap st') (set_appended (λ _, appended st') st)).

Lemma dom_only_refl st : dom_only st st.
Proof. by destruct st. Qed.

Lemma dom_only_trans a b c : dom_only a b → dom_only b c → dom_only a c.
Proof. unfold dom_only. destruct a, b, c; simpl. congruence. Qed.

Definition children (st : State) (p : nat) : list Child :=
  default [] (appended st !! p).

Lemma makePlaceholders_spec container uid extraFrag layers : ∀ i st,
  let r := makePlaceholders container uid extraFrag i layers st in
  r.1 = seq (next st) (length layers) ∧
  next r.2 = next st + length layers ∧
  (∀ j g, layers !! j = Some g →
     heap r.2 !! (next st + j) = Some (placeholderFor container uid extraFrag g (i + j))) ∧
  (∀ id, id < next st ∨ next st + length layers ≤ id → heap r.2 !! id = heap st !! id) ∧
  children r.2 (c_id container) = children st (c_id container) ++ map SpanChild r.1 ∧
  (∀ p, p ≠ c_id container → appended r.2 !! p = appended st !! p) ∧
  dom_only st r.2.
Proof.
  induction layers as [|g0 rest IH]; intros i st; cbn zeta.
  - simpl. split_and!; try done; try lia.
    + by rewrite app_nil_r.
    + apply dom_only_refl.
  - cbn [makePlaceholders fst snd length].
    set (st2 := appendChild container (SpanChild (next st)) _).
    destruct (IH (S i) st2) as (H1 & H2 & H3 & H4 & H5 & H6 & H7).
    assert (next st2 = S (next st)) as Hn by done.
    split_and!.
    + simpl. f_equal. by rewrite H1, Hn.
    + rewrite H2, Hn. lia.
    + intros [|j] g Hj; simpl in Hj.
      * injection Hj as <-. rewrite H4 by (rewrite Hn; lia).
        subst st2. simpl. rewrite !Nat.add_0_r. by rewrite lookup_insert_eq.
      * rewrite <- Nat.add_succ_comm, <- Hn, (H3 j g Hj).
        by rewrite <- Nat.add_succ_comm.
    + intros id Hid. rewrite H4 by (rewrite Hn; lia).
      subst st2. simpl. rewrite lookup_insert_ne; [done|lia].
    + unfold children in *. rewrite H5, H1, Hn.
      replace (appended st2 !! c_id container)
        with (Some (default [] (appended st !! c_id container) ++ [SpanChild (next st)])).
      2: { subst st2. unfold appendChild. simpl. by rewrite lookup_insert_eq. }
      simpl. by rewrite <- app_assoc.
    + intros p Hp. rewrite H6 by done. subst st2. unfold appendChild. simpl.
      by rewrite lookup_insert_ne.
    + eapply dom_only_trans; [|exact H7]. subst st2. by destruct st.
Qed.

(* ---- What buildSteps leaves behind ----------------------------------- *)

Definition extraFragOf (container : Container) (fragmentClass : string) : string :=
  or_else (or_opt (c_getAttribute container "data-fragment-class")
                  (Some fragmentClass)) "".

Definition handlersOf (k : Closure) : list (EventName * Handler) :=
  [(Fragmentshown, OnFragmentShown k); (Fragmenthidden, OnFragmentHidden k);
   (Slidechanged, OnSlideChanged k)].

Record Built (container : Container) (svg : Node) (fragmentClass : string)
  (st : State) (k : Closure) (st' : State) : Prop := {
  built_stepLayers : k_stepLayers k = (classify container svg).2;
  built_container : k_container k = container;
  built_uid : k_uid k = String.append "rsvgc" (String.append "-" (pretty (S (counter st))));
  built_placeholders : k_placeholders k = seq (next st) (length (k_stepLayers k));
  built_next : next st' = next st + length (k_stepLayers k);
  built_heap_new : ∀ j g, k_stepLayers k !! j = Some g →
    heap st' !! (next st + j) =
      Some (placeholderFor container (k_uid k) (extraFragOf container fragmentClass) g j);
  built_heap_old : ∀ id, id < next st ∨ next st' ≤ id → heap st' !! id = heap st !! id;
  built_children : children st' (c_id container) =
    children st (c_id container) ++ map SpanChild (k_placeholders k);
  built_children_other : ∀ p, p ≠ c_id container → appended st' !! p = appended st !! p;
  built_listeners : listeners st' = listeners st ++ handlersOf k;
  built_teardownFns : teardownFns st' = teardownFns st ++ [k];
  built_counter : counter st' = S (counter st);
  built_processed : processed st' = processed st;
  built_pending : pending st' = pending st;
  built_console : console st' = console st;
  built_styleInjected : styleInjected st' = styleInjected st;
}.

Lemma buildSteps_env_Built container svg fragmentClass st :
  ∃ st', (buildSteps_env container svg fragmentClass st).2 = Some st' ∧
         Built container svg fragmentClass st
               (buildSteps_env container svg fragmentClass st).1 st'.
Proof.
  unfold buildSteps_env. cbn zeta.
  set (stepLayers := (classify container svg).2).
  set (s2 := foldl hideLayer (foldl showLayer st (classify container svg).1) stepLayers).
  assert (touches (λ _, True) st s2) as T2.
  { eapply touches_trans; [apply foldl_showLayer_touches|apply foldl_hideLayer_touches]; done. }
  set (u := uniqId "rsvgc" s2).
  set (uid := u.1).
  set (r := makePlaceholders container uid _ 0 stepLayers u.2).
  pose proof (makePlaceholders_spec container uid
                (extraFragOf container fragmentClass) stepLayers 0 u.2)
    as (H1 & H2 & H3 & H4 & H5 & H6 & H7).
  fold (extraFragOf container fragmentClass) in r. fold r in H1, H2, H3, H4, H5, H6, H7.
  set (k := {| k_uid := uid; k_container := container;
               k_stepLayers := stepLayers; k_placeholders := r.1 |}).
  set (s5 := set_teardownFns _ _).
  assert (next u.2 = next st) as Hnu by (simpl; by rewrite (touches_next _ _ _ T2)).
  assert (heap u.2 = heap st) as Hhu by (simpl; by rewrite (touches_heap _ _ _ T2)).
  assert (heap s5 = heap r.2) as Hh5 by done.
  destruct (syncFromVisibleFragments_Some k s5) as [st' Hst'].
  { intros ph Hph. simpl in Hph. rewrite H1 in Hph.
    apply list_elem_of_lookup in Hph as [j Hj].
    apply lookup_seq in Hj as [-> Hj].
    destruct (lookup_lt_is_Some_2 stepLayers j Hj) as [g Hg].
    eexists _, g. rewrite Hh5, (H3 j g Hg). done. }
  exists st'. split; [exact Hst'|].
  assert (touches (λ _, True) s5 st') as T5.
  { eapply syncFromVisibleFragments_touches; [done| |exact Hst']. done. }
  assert (s5 = set_teardownFns (λ l, l ++ [k])
                 (set_listeners (λ l, l ++ handlersOf k) r.2)) as E5.
  { subst s5. unfold deck_on. simpl. by rewrite <- !app_assoc. }
  unfold dom_only in H7.
  split; simpl.
  - done.
  - done.
  - subst uid u. simpl. by rewrite (touches_counter _ _ _ T2).
  - by rewrite H1, Hnu.
  - rewrite (touches_next _ _ _ T5), E5. simpl. by rewrite H2, Hnu.
  - intros j g Hg. rewrite (touches_heap _ _ _ T5), Hh5, <- Hnu.
    by rewrite (H3 j g Hg).
  - intros id Hid. rewrite (touches_heap _ _ _ T5), Hh5, H4, Hhu; [done|].
    rewrite (touches_next _ _ _ T5), E5 in Hid. simpl in Hid.
    rewrite H2 in Hid. rewrite Hnu in *. lia.
  - unfold children in *. rewrite (touches_appended _ _ _ T5), E5. simpl.
    rewrite H5. simpl. by rewrite (touches_appended _ _ _ T2).
  - intros p Hp. rewrite (touches_appended _ _ _ T5), E5. simpl.
    rewrite H6 by done. simpl. by rewrite (touches_appended _ _ _ T2).
  - rewrite (touches_listeners _ _ _ T5), E5. simpl. rewrite H7. simpl.
    by rewrite (touches_listeners _ _ _ T2).
  - rewrite (touches_teardownFns _ _ _ T5), E5. simpl. rewrite H7. simpl.
    by rewrite (touches_teardownFns _ _ _ T2).
  - rewrite (touches_counter _ _ _ T5), E5. simpl. rewrite H7. simpl.
    by rewrite (touches_counter _ _ _ T2).
  - rewrite (touches_processed _ _ _ T5), E5. simpl. rewrite H7. simpl.
    by rewrite (touches_processed _ _ _ T2).
  - rewrite (touches_pending _ _ _ T5), E5. simpl. rewrite H7. simpl.
    by rewrite (touches_pending _ _ _ T2).
  - rewrite (touches_console _ _ _ T5), E5. simpl. rewrite H7. simpl.
    by rewrite (touches_console _ _ _ T2).
  - rewrite (touches_styleInjected _ _ _ T5), E5. simpl. rewrite H7. simpl.
    by rewrite (touches_styleInjected _ _ _ T2).
Qed.

(* ---- Invariants of the page state ------------------------------------ *)

(* References handed out by createElement are below [next]. *)
Definition heap_wf (st : State) : Prop :=
  ∀ id, is_Some (heap st !! id) → id < next st.

(* A span listed among the children of a container has it as parent. *)
Definition dom_wf (st : State) : Prop :=
  ∀ p ph, SpanChild ph ∈ children st p →
          ∃ e, heap st !! ph = Some e ∧ e_parent e = Some p.

Definition Inv (st : State) : Prop := heap_wf st ∧ dom_wf st.

(* Elements persist, with their attributes and their __rsvgLayer. *)
Definition heap_le (st st' : State) : Prop :=
  next st ≤ next st' ∧
  ∀ id e, heap st !! id = Some e →
          ∃ e', heap st' !! id = Some e' ∧
                e_rsvgLayer e' = e_rsvgLayer e ∧ e_attrs e' = e_attrs e.

Lemma heap_le_refl st : heap_le st st.
Proof. split; [done|]. intros id e He. by exists e. Qed.

Lemma heap_le_trans a b c : heap_le a b → heap_le b c → heap_le a c.
Proof.
  intros [N1 H1] [N2 H2]. split; [lia|]. intros id e He.
  destruct (H1 id e He) as (e1 & He1 & L1 & A1).
  destruct (H2 id e1 He1) as (e2 & He2 & L2 & A2).
  exists e2. split_and!; [done|congruence|congruence].
Qed.

Lemma Inv_ext st st' :
  heap st' = heap st → next st' = next st → appended st' = appended st →
  Inv st → Inv st'.
Proof.
  intros Hh Hn Ha [W D]. split.
  - intros id. rewrite Hh, Hn. apply W.
  - intros p ph. unfold children. rewrite Ha, Hh. apply D.
Qed.

Lemma heap_le_ext st st' :
  heap st' = heap st → next st' = next st → heap_le st st'.
Proof.
  intros Hh Hn. split; [by rewrite Hn|]. intros id e He. exists e. by rewrite Hh.
Qed.

Lemma touches_Inv N st st' : touches N st st' → Inv st → Inv st'.
Proof. intros T. apply Inv_ext; by destruct T as [-> _]. Qed.

Lemma touches_heap_le N st st' : touches N st st' → heap_le st st'.
Proof. intros T. apply heap_le_ext; by destruct T as [-> _]. Qed.

Lemma Built_heap_le container svg fc st k st' :
  Built container svg fc st k st' → heap_wf st → heap_le st st'.
Proof.
  intros B W. split; [rewrite (built_next _ _ _ _ _ _ B); lia|].
  intros id e He. exists e. split; [|done].
  rewrite (built_heap_old _ _ _ _ _ _ B); [done|]. left. apply W. by rewrite He.
Qed.

Lemma Built_Inv container svg fc st k st' :
  Built container svg fc st k st' → Inv st → Inv st'.
Proof.
  intros B [W D]. split.
  - intros id [e He].
    destruct (decide (id < next st ∨ next st' ≤ id)) as [Hid|Hid].
    + rewrite (built_heap_old _ _ _ _ _ _ B) in He by done.
      assert (id < next st) by (apply W; by rewrite He).
      rewrite (built_next _ _ _ _ _ _ B). lia.
    + lia.
  - intros p ph Hph.
    assert (∀ e, heap st !! ph = Some e → heap st' !! ph = Some e) as Hold.
    { intros e He. rewrite (built_heap_old _ _ _ _ _ _ B); [done|].
      left. apply W. by rewrite He. }
    destruct (decide (p = c_id container)) as [->|Hp].
    + rewrite (built_children _ _ _ _ _ _ B) in Hph.
      apply elem_of_app in Hph as [Hph|Hph].
      * destruct (D _ _ Hph) as (e & He & Hpar). exists e. auto.
      * apply list_elem_of_fmap in Hph as (x & [= ->] & Hx).
        rewrite (built_placeholders _ _ _ _ _ _ B) in Hx.
        apply list_elem_of_lookup in Hx as [j Hj].
        apply lookup_seq in Hj as [-> Hj].
        destruct (lookup_lt_is_Some_2 (k_stepLayers k) j Hj) as [g Hg].
        eexists. split; [by apply (built_heap_new _ _ _ _ _ _ B)|done].
    + unfold children in Hph.
      rewrite (built_children_other _ _ _ _ _ _ B) in Hph by done.
      destruct (D _ _ Hph) as (e & He & Hpar). exists e. auto.
Qed.

Lemma buildSteps_Inv container svg fc st :
  Inv st → Inv (default st (buildSteps container svg fc st)).
Proof.
  intros I. unfold buildSteps.
  destruct (buildSteps_env_Built container svg fc st) as (st' & -> & B).
  simpl. by eapply Built_Inv.
Qed.

Lemma buildSteps_heap_le container svg fc st :
  heap_wf st → heap_le st (default st (buildSteps container svg fc st)).
Proof.
  intros W. unfold buildSteps.
  destruct (buildSteps_env_Built container svg fc st) as (st' & -> & B).
  simpl. by eapply Built_heap_le.
Qed.

Lemma setVisible_Inv f b st : Inv st → Inv (setVisible f b st).
Proof.
  intros [W D]. unfold setVisible. destruct (heap st !! f) as [e|] eqn:E; [|done].
  split.
  - intros id. simpl. rewrite lookup_insert. case_decide as Hid.
    + subst. intros _. apply W. by rewrite E.
    + apply W.
  - intros p ph Hph. destruct (D p ph Hph) as (e' & He' & Hpar). simpl.
    rewrite lookup_insert. case_decide as Hid.
    + subst. rewrite E in He'. injection He' as <-. eexists. split; [done|]. done.
    + by exists e'.
Qed.

Lemma setVisible_heap_le f b st : heap_le st (setVisible f b st).
Proof.
  unfold setVisible. destruct (heap st !! f) as [e|] eqn:E; [|apply heap_le_refl].
  split; [done|]. intros id e0 He0. simpl. rewrite lookup_insert. case_decide as Hid.
  - subst. rewrite E in He0. injection He0 as <-. eexists. split; [done|]. done.
  - by exists e0.
Qed.

Lemma children_removeElem st ph p x :
  x ∈ children (removeElem st ph) p → x ∈ children st p.
Proof.
  unfold removeElem. destruct (heap st !! ph) as [e|]; [|done].
  destruct (e_parent e) as [q|]; [|done].
  unfold children. simpl. rewrite lookup_insert. case_decide as Hq; [|done].
  subst. simpl. by intros [_ H]%list_elem_of_filter.
Qed.

Lemma removeElem_Inv st ph : Inv st → Inv (removeElem st ph).
Proof.
  intros [W D]. unfold removeElem.
  destruct (heap st !! ph) as [e|] eqn:E; [|done].
  destruct (e_parent e) as [q|] eqn:Eq; [|done].
  split.
  - intros id. simpl. rewrite lookup_insert. case_decide as Hid.
    + subst. intros _. apply W. by rewrite E.
    + apply W.
  - intros p x. unfold children. simpl.
    rewrite (lookup_insert (appended st)). case_decide as Hp.
    + subst p. simpl. intros [Hx Hin]%list_elem_of_filter.
      destruct (D q x Hin) as (e' & He' & Hpar).
      rewrite lookup_insert_ne; [by exists e'|].
      intros <-. simpl in Hx. by rewrite Nat.eqb_refl in Hx.
    + intros Hin. destruct (D p x Hin) as (e' & He' & Hpar).
      rewrite lookup_insert_ne; [by exists e'|].
      intros <-. rewrite E in He'. injection He' as <-. congruence.
Qed.

Lemma removeElem_heap_le st ph : heap_le st (removeElem st ph).
Proof.
  unfold removeElem. destruct (heap st !! ph) as [e|] eqn:E; [|apply heap_le_refl].
  destruct (e_parent e) as [q|]; [|apply heap_le_refl].
  split; [done|]. intros id e0 He0. simpl. rewrite lookup_insert. case_decide as Hid.
  - subst. rewrite E in He0. injection He0 as <-. eexists. split; [done|]. done.
  - by exists e0.
Qed.

(* After ph.remove() no container lists ph. *)
Lemma removeElem_gone st ph p :
  dom_wf st → SpanChild ph ∉ children (removeElem st ph) p.
Proof.
  intros D Hin. unfold removeElem in Hin.
  destruct (heap st !! ph) as [e|] eqn:E.
  - destruct (e_parent e) as [q|] eqn:Eq.
    + unfold children in Hin. simpl in Hin.
      rewrite lookup_insert in Hin. case_decide as Hp.
      * subst. simpl in Hin. apply list_elem_of_filter in Hin as [Hx _].
        simpl in Hx. by rewrite Nat.eqb_refl in Hx.
      * destruct (D p ph Hin) as (e' & He' & Hpar). congruence.
    + destruct (D p ph Hin) as (e' & He' & Hpar). congruence.
  - destruct (D p ph Hin) as (e' & He' & Hpar). congruence.
Qed.

Lemma foldl_Inv {A} (f : State → A → State) (l : list A) st :
  (∀ s x, Inv s → Inv (f s x)) → Inv st → Inv (foldl f st l).
Proof. revert st. induction l; simpl; auto. Qed.

Lemma foldl_heap_le {A} (f : State → A → State) (l : list A) st :
  (∀ s x, Inv s → Inv (f s x) ∧ heap_le s (f s x)) → Inv st →
  heap_le st (foldl f st l).
Proof.
  revert st. induction l as [|x l IH]; intros st H I; simpl; [apply heap_le_refl|].
  destruct (H st x I) as [I1 L1]. eapply heap_le_trans; [exact L1|]. by apply IH.
Qed.

Lemma deck_off_Inv name h st : Inv st → Inv (deck_off name h st).
Proof. by apply Inv_ext. Qed.

Lemma teardown_Inv st k : Inv st → Inv (teardown st k).
Proof.
  intros I. unfold teardown.
  eapply (touches_Inv (λ _, True)); [by apply foldl_showLayer_touches|].
  apply foldl_Inv; [intros; by apply removeElem_Inv|].
  by do 3 apply deck_off_Inv.
Qed.

Lemma teardown_heap_le st k : Inv st → heap_le st (teardown st k).
Proof.
  intros I. unfold teardown.
  eapply heap_le_trans;
    [|eapply (touches_heap_le (λ _, True)); by apply foldl_showLayer_touches].
  eapply heap_le_trans; [|apply foldl_heap_le].
  - by apply heap_le_ext.
  - intros s x Is. split; [by apply removeElem_Inv|apply removeElem_heap_le].
  - by do 3 apply deck_off_Inv.
Qed.

Lemma destroy_Inv st : Inv st → Inv (destroy st).
Proof.
  intros I. unfold destroy.
  eapply Inv_ext; [done..|]. apply foldl_Inv; [|done]. intros. by apply teardown_Inv.
Qed.

Lemma destroy_heap_le st : Inv st → heap_le st (destroy st).
Proof.
  intros I. unfold destroy.
  eapply heap_le_trans; [|by apply heap_le_ext].
  apply foldl_heap_le; [|done].
  intros s k Is. split; [by apply teardown_Inv|by apply teardown_heap_le].
Qed.

Lemma initContainer_Inv options c st :
  Inv st → Inv (initContainer options c st) ∧ heap_le st (initContainer options c st).
Proof.
  intros I. unfold initContainer. case_bool_decide; [split; [done|apply heap_le_refl]|].
  set (s1 := set_processed _ st).
  assert (Inv s1) as I1 by (by eapply Inv_ext).
  assert (heap_le st s1) as L1 by (by apply heap_le_ext).
  destruct (querySelectorSvg c s1) as [svg|].
  - split; [by apply buildSteps_Inv|].
    eapply heap_le_trans; [exact L1|]. apply buildSteps_heap_le, I1.
  - destruct (truthy _); [|done].
    split; [by eapply Inv_ext|]. eapply heap_le_trans; [exact L1|]. by apply heap_le_ext.
Qed.

Lemma appendChild_svg_Inv c svg st : Inv st → Inv (appendChild c (SvgChild svg) st).
Proof.
  intros [W D]. split; [done|]. intros p ph. unfold children, appendChild. simpl.
  rewrite lookup_insert. case_decide as Hp; [|apply D]. subst. simpl.
  intros [H|H]%elem_of_app; [by apply D|].
  apply list_elem_of_singleton in H. done.
Qed.

Lemma initContainer_resume_Inv options i res st :
  Inv st →
  Inv (initContainer_resume options i res st) ∧
  heap_le st (initContainer_resume options i res st).
Proof.
  intros I. unfold initContainer_resume.
  destruct (pending st !! i) as [[c src]|]; [|split; [done|apply heap_le_refl]].
  set (s1 := set_pending _ st).
  assert (Inv s1) as I1 by (by eapply Inv_ext).
  assert (heap_le st s1) as L1 by (by apply heap_le_ext).
  unfold inlineExternalSvg. destruct res as [msg|[|] doc].
  - split; [by eapply Inv_ext|]. by apply heap_le_ext.
  - match goal with |- context [SvgChild ?s] => set (svg := s) end.
    assert (Inv (appendChild c (SvgChild svg) s1)) as I2
      by (by apply appendChild_svg_Inv).
    split; [by apply buildSteps_Inv|].
    eapply heap_le_trans; [|apply buildSteps_heap_le, I2]. by apply heap_le_ext.
  - split; [by eapply Inv_ext|]. by apply heap_le_ext.
Qed.

Lemma init_Inv options cs st :
  Inv st → Inv (init options cs st) ∧ heap_le st (init options cs st).
Proof.
  intros I. unfold init.
  assert (Inv (ensureStyle st)) as I0.
  { unfold ensureStyle. destruct (styleInjected st); [done|by eapply Inv_ext]. }
  assert (heap_le st (ensureStyle st)) as L0.
  { unfold ensureStyle. destruct (styleInjected st); [apply heap_le_refl|by apply heap_le_ext]. }
  split.
  - apply foldl_Inv; [|done]. intros s c Is. by apply initContainer_Inv.
  - eapply heap_le_trans; [exact L0|]. apply foldl_heap_le; [|done].
    intros s c Is. by apply initContainer_Inv.
Qed.

Lemma step_Inv options st a :
  Inv st → Inv (step options st a) ∧ heap_le st (step options st a).
Proof.
  intros I. destruct a; simpl.
  - pose proof (dispatch_touches Fragmentshown (FragmentEv fragment) st) as T.
    split; [by eapply touches_Inv|by eapply touches_heap_le].
  - pose proof (dispatch_touches Fragmenthidden (FragmentEv fragment) st) as T.
    split; [by eapply touches_Inv|by eapply touches_heap_le].
  - pose proof (dispatch_touches Slidechanged (SlideEv currentSlide) st) as T.
    split; [by eapply touches_Inv|by eapply touches_heap_le].
  - split; [by apply setVisible_Inv|apply setVisible_heap_le].
  - by apply init_Inv.
  - by apply initContainer_resume_Inv.
  - split; [by apply destroy_Inv|by apply destroy_heap_le].
Qed.

Lemma run_Inv options st acts :
  Inv st → Inv (run options st acts) ∧ heap_le st (run options st acts).
Proof.
  intros I. unfold run. split.
  - apply foldl_Inv; [|done]. intros s a Is. by apply step_Inv.
  - apply foldl_heap_le; [|done]. intros s a Is. by apply step_Inv.
Qed.

Lemma initialState_Inv classes authored fresh :
  (∀ id, is_Some (authored !! id) → id < fresh) →
  Inv (initialState classes authored fresh).
Proof.
  intros H. split; [exact H|]. intros p ph. unfold children. simpl.
  rewrite lookup_empty. simpl. by intros ?%elem_of_nil.
Qed.

(* ---- Step order ------------------------------------------------------ *)

Lemma toList_absent : toList None = [].
Proof. reflexivity. Qed.

Lemma stepLayers_not_base container svg g :
  g ∈ (classify container svg).2 → byName g ∉ baseSetOf container.
Proof.
  intros H%classify_step_candidates. unfold stepCandidates in H.
  by apply list_elem_of_filter in H as [? _].
Qed.

Lemma filter_all_true {A} (P : A → Prop) `{!∀ x, Decision (P x)} (l : list A) :
  (∀ x, x ∈ l → P x) → filter P l = l.
Proof.
  induction l as [|x l IH]; intros Hall; [done|].
  rewrite filter_cons_True by (apply Hall; left). f_equal. apply IH.
  intros y Hy. apply Hall. by right.
Qed.

(* Every placeholder of a closure is an element whose __rsvgLayer is the
   step layer of the same index and which carries the uid of the closure. *)
Definition bound (st : State) (k : Closure) : Prop :=
  length (k_placeholders k) = length (k_stepLayers k) ∧
  ∀ i ph, k_placeholders k !! i = Some ph →
          ∃ e g, heap st !! ph = Some e ∧ k_stepLayers k !! i = Some g ∧
                 e_rsvgLayer e = Some g ∧
                 e_getAttribute e "data-rsvg-uid" = Some (k_uid k).

Lemma Built_bound container svg fc st k st' :
  Built container svg fc st k st' → bound st' k.
Proof.
  intros B. split.
  - by rewrite (built_placeholders _ _ _ _ _ _ B), length_seq.
  - intros i ph Hi. rewrite (built_placeholders _ _ _ _ _ _ B) in Hi.
    apply lookup_seq in Hi as [-> Hi].
    destruct (lookup_lt_is_Some_2 (k_stepLayers k) i Hi) as [g Hg].
    eexists _, g. split; [by apply (built_heap_new _ _ _ _ _ _ B)|]. done.
Qed.

Lemma bound_heap_le st st' k : heap_le st st' → bound st k → bound st' k.
Proof.
  intros [_ L] [Hlen H]. split; [done|]. intros i ph Hi.
  destruct (H i ph Hi) as (e & g & He & Hg & Hl & Hu).
  destruct (L ph e He) as (e' & He' & Hl' & Ha').
  exists e', g. split_and!; [done|done|congruence|].
  unfold e_getAttribute in *. congruence.
Qed.

(** C6: for a container without a data-include attribute whose data-order
    is reverse, the stepLayers that buildSteps produces are the non-base
    groups found in the graphic, in reverse document order. *)
Theorem reverse_order_steps container svg fragmentClass st :
  c_getAttribute container "data-include" = None →
  c_getAttribute container "data-order" = Some "reverse" →
  k_stepLayers (buildSteps_env container svg fragmentClass st).1 =
    reverse (filter (λ g, byName g ∉ baseSetOf container) (findLayers svg)) ∧
  findLayers svg `sublist_of` descendants svg.
Proof.
  intros Hinc Hord. split; [|apply findLayers_document_order].
  unfold buildSteps_env. cbn [fst k_stepLayers]. rewrite classify_step.
  unfold includeListOf, orderOf. rewrite Hinc, Hord, toList_absent. done.
Qed.

Lemma stepLayers_names_included container svg fragmentClass st :
  includeListOf container ≠ [] →
  map byName (k_stepLayers (buildSteps_env container svg fragmentClass st).1) =
    filter (λ n, n ∈ map byName (stepCandidates container svg))
           (map toLowerCase (includeListOf container)).
Proof.
  intros Hne. unfold buildSteps_env. cbn [fst k_stepLayers]. rewrite classify_step.
  destruct (includeListOf container) as [|n0 l] eqn:E; [done|].
  apply pickIncluded_names.
Qed.

(** C7: an include-list name that matches the label of no non-base group
    (compared in lower case) is dropped silently: it is left out of
    stepLayers, buildSteps still returns normally and writes nothing to
    the console, no placeholder is created for the name (there is one
    placeholder per step layer), and the names that do match appear in
    include-list order. *)
Theorem include_missing_names_dropped container svg fragmentClass st :
  includeListOf container ≠ [] →
  (∃ st', buildSteps container svg fragmentClass st = Some st' ∧
          console st' = console st ∧
          length (children st' (c_id container)) =
            length (children st (c_id container)) +
            length (k_stepLayers (buildSteps_env container svg fragmentClass st).1)) ∧
  is_Some (buildSteps container svg fragmentClass st) ∧
  map byName (k_stepLayers (buildSteps_env container svg fragmentClass st).1) =
    filter (λ n, n ∈ map byName (stepCandidates container svg))
           (map toLowerCase (includeListOf container)) ∧
  ∀ n, n ∈ includeListOf container →
       toLowerCase n ∉ map byName (stepCandidates container svg) →
       toLowerCase n ∉
         map byName (k_stepLayers (buildSteps_env container svg fragmentClass st).1).
Proof.
  intros Hne.
  pose proof (stepLayers_names_included container svg fragmentClass st Hne) as Hnames.
  destruct (buildSteps_env_Built container svg fragmentClass st) as (st' & H & B).
  split_and!.
  - exists st'. split; [exact H|]. split; [apply (built_console _ _ _ _ _ _ B)|].
    rewrite (built_children _ _ _ _ _ _ B), length_app, length_map.
    by rewrite (built_placeholders _ _ _ _ _ _ B), length_seq.
  - unfold buildSteps. by rewrite H.
  - exact Hnames.
  - intros n Hn Hmiss. rewrite Hnames. rewrite list_elem_of_filter. tauto.
Qed.

(* ---- Example pages --------------------------------------------------- *)

Definition layerGroup (i : nat) (label : string) : Node :=
  Elem i "g" [("inkscape:groupmode", "layer"); ("inkscape:label", label)] [].

(* Groups labelled Axes, Grid, Step1, Step2, Step3. *)
Definition scenarioSvg : Node :=
  Elem 0 "svg" []
    [layerGroup 1 "Axes"; layerGroup 2 "Grid"; layerGroup 3 "Step1";
     layerGroup 4 "Step2"; layerGroup 5 "Step3"].

Definition containerWith (attrs : list (string * string)) : Container :=
  {| c_id := 100; c_attrs := attrs; c_content := [scenarioSvg] |}.

Definition emptyPage : State := initialState ∅ ∅ 0.

Lemma emptyPage_Inv : Inv emptyPage.
Proof.
  apply initialState_Inv. intros id [e He]. rewrite lookup_empty in He. discriminate.
Defined.

Lemma reverse_order_steps_witness :
  let c := containerWith [("data-base", "Axes,Grid"); ("data-order", "reverse")] in
  c_getAttribute c "data-include" = None ∧
  c_getAttribute c "data-order" = Some "reverse" ∧
  map nid (k_stepLayers (buildSteps_env c scenarioSvg "" emptyPage).1) = [5; 4; 3].
Proof.
  intros c. split; [reflexivity|]. split; [reflexivity|].
  destruct (reverse_order_steps c scenarioSvg "" emptyPage eq_refl eq_refl) as [H _].
  rewrite H. vm_compute. reflexivity.
Defined.

Lemma include_missing_names_dropped_witness :
  let c := containerWith [("data-base", "Axes,Grid"); ("data-include", "Step3, Nowhere ,step1")] in
  includeListOf c = ["Step3"; "Nowhere"; "step1"] ∧
  map byName (k_stepLayers (buildSteps_env c scenarioSvg "" emptyPage).1) =
    ["step3"; "step1"] ∧
  ∃ st', buildSteps c scenarioSvg "" emptyPage = Some st' ∧ console st' = [].
Proof.
  intros c. split; [vm_compute; reflexivity|].
  assert (includeListOf c ≠ []) as Hne by (vm_compute; discriminate).
  destruct (include_missing_names_dropped c scenarioSvg "" emptyPage Hne)
    as ((st' & Hst' & Hcon & _) & _ & H & _).
  split; [rewrite H; vm_compute; reflexivity|].
  exists st'. split; [exact Hst'|]. rewrite Hcon. reflexivity.
Defined.

(** C10: base classification wins over the include list.  A group whose
    lower-cased label is in the base set is a base layer and not a step
    layer, also when an include-list entry names it; the include lookup
    sees non-base groups only, so that entry finds nothing, is dropped,
    and no placeholder is bound to such a group. *)
Theorem base_precedes_include container svg fragmentClass st n :
  n ∈ includeListOf container →
  toLowerCase n ∈ baseSetOf container →
  ∃ st', buildSteps container svg fragmentClass st = Some st' ∧
    (let k := (buildSteps_env container svg fragmentClass st).1 in
     (∀ g, g ∈ findLayers svg → byName g = toLowerCase n →
           g ∈ (classify container svg).1 ∧ g ∉ k_stepLayers k) ∧
     mapByNameOf (stepCandidates container svg) !! toLowerCase n = None ∧
     (toLowerCase n ∉ map byName (k_stepLayers k)) ∧
     length (k_placeholders k) = length (k_stepLayers k) ∧
     (∀ ph e g, ph ∈ k_placeholders k → heap st' !! ph = Some e →
                e_rsvgLayer e = Some g → byName g ≠ toLowerCase n)).
Proof.
  intros Hn Hbase.
  destruct (buildSteps_env_Built container svg fragmentClass st) as (st' & Hst' & B).
  exists st'. split; [exact Hst'|]. cbv zeta.
  set (k := (buildSteps_env container svg fragmentClass st).1) in *.
  pose proof (built_stepLayers _ _ _ _ _ _ B) as Hk.
  assert (∀ g, g ∈ k_stepLayers k → byName g ≠ toLowerCase n) as Hstep.
  { intros g Hg E. rewrite Hk in Hg. apply stepLayers_not_base in Hg.
    apply Hg. by rewrite E. }
  destruct (Built_bound _ _ _ _ _ _ B) as [Hlen Hb].
  split_and!.
  - intros g Hg E. split.
    + rewrite classify_base. apply list_elem_of_filter. by rewrite E.
    + intros Hin. by apply (Hstep g).
  - destruct (mapByNameOf _ !! _) as [el|] eqn:E; [|done].
    apply mapByNameOf_Some in E as [Hel E]. unfold stepCandidates in Hel.
    apply list_elem_of_filter in Hel as [Hel _]. rewrite E in Hel. done.
  - intros (g & E & Hg)%list_elem_of_fmap. by apply (Hstep g).
  - exact Hlen.
  - intros ph e g Hph He Hg.
    apply list_elem_of_lookup in Hph as [i Hi].
    destruct (Hb i ph Hi) as (e' & g' & He' & Hg' & Hl & _).
    rewrite He in He'. injection He' as <-. rewrite Hg in Hl. injection Hl as <-.
    apply Hstep. by eapply list_elem_of_lookup_2.
Qed.

Lemma base_precedes_include_witness :
  let c := containerWith [("data-base", "Axes,Grid"); ("data-include", "Step1,AXES,Step3")] in
  "AXES" ∈ includeListOf c ∧ toLowerCase "AXES" ∈ baseSetOf c ∧
  (∃ st', buildSteps c scenarioSvg "" emptyPage = Some st' ∧
          (toLowerCase "AXES" ∉
             map byName (k_stepLayers (buildSteps_env c scenarioSvg "" emptyPage).1)) ∧
          length (k_placeholders (buildSteps_env c scenarioSvg "" emptyPage).1) =
            length (k_stepLayers (buildSteps_env c scenarioSvg "" emptyPage).1)).
Proof.
  intros c.
  assert ("AXES" ∈ includeListOf c) as H1 by (vm_compute; right; left).
  assert (toLowerCase "AXES" ∈ baseSetOf c) as H2 by (by vm_compute).
  split; [exact H1|]. split; [exact H2|].
  destruct (base_precedes_include c scenarioSvg "" emptyPage "AXES" H1 H2)
    as (st' & Hst' & _ & _ & H3 & H4 & _).
  exists st'. split; [exact Hst'|]. split; [exact H3|exact H4].
Defined.

(** C1 (amended): for a container whose data-include list is non-empty,
    of length N, and whose every name matches (in lower case) the label
    of some non-base group, buildSteps produces exactly N step layers in
    include-list order and appends exactly N placeholders to the
    container; placeholder i stores step layer i, and keeps doing so
    through everything that happens to the page afterwards. *)
Theorem include_list_steps options container svg fragmentClass st :
  Inv st →
  includeListOf container ≠ [] →
  (∀ n, n ∈ includeListOf container →
        toLowerCase n ∈ map byName (stepCandidates container svg)) →
  ∃ st', buildSteps container svg fragmentClass st = Some st' ∧
    (let k := (buildSteps_env container svg fragmentClass st).1 in
     length (k_stepLayers k) = length (includeListOf container) ∧
     map byName (k_stepLayers k) = map toLowerCase (includeListOf container) ∧
     length (k_placeholders k) = length (includeListOf container) ∧
     NoDup (k_placeholders k) ∧
     children st' (c_id container) =
       children st (c_id container) ++ map SpanChild (k_placeholders k) ∧
     ∀ acts, bound (run options st' acts) k).
Proof.
  intros I Hne Hall.
  destruct (buildSteps_env_Built container svg fragmentClass st) as (st' & Hst' & B).
  exists st'. split; [exact Hst'|]. cbv zeta.
  set (k := (buildSteps_env container svg fragmentClass st).1) in *.
  pose proof (stepLayers_names_included container svg fragmentClass st Hne) as Hnames.
  fold k in Hnames.
  rewrite filter_all_true in Hnames.
  2: { intros x (n & -> & Hn)%list_elem_of_fmap. by apply Hall. }
  assert (length (k_stepLayers k) = length (includeListOf container)) as Hlen.
  { rewrite <- (length_map byName), Hnames. apply length_map. }
  pose proof (Built_bound _ _ _ _ _ _ B) as Hb.
  split_and!.
  - exact Hlen.
  - exact Hnames.
  - destruct Hb as [-> _]. exact Hlen.
  - rewrite (built_placeholders _ _ _ _ _ _ B). apply NoDup_seq.
  - apply (built_children _ _ _ _ _ _ B).
  - intros acts. eapply bound_heap_le; [|exact Hb].
    apply run_Inv. by eapply Built_Inv.
Qed.

Lemma include_list_steps_witness :
  let c := containerWith [("data-base", "Axes,Grid"); ("data-include", "step3,Step1,STEP3")] in
  Inv emptyPage ∧
  length (includeListOf c) = 3 ∧
  (∀ n, n ∈ includeListOf c → toLowerCase n ∈ map byName (stepCandidates c scenarioSvg)) ∧
  map nid (k_stepLayers (buildSteps_env c scenarioSvg "" emptyPage).1) = [5; 3; 5] ∧
  k_placeholders (buildSteps_env c scenarioSvg "" emptyPage).1 = [0; 1; 2] ∧
  (∃ st', buildSteps c scenarioSvg "" emptyPage = Some st' ∧
          ∀ acts, bound (run defaults st' acts) (buildSteps_env c scenarioSvg "" emptyPage).1).
Proof.
  intros c.
  assert (includeListOf c = ["step3"; "Step1"; "STEP3"]) as Hl by (vm_compute; reflexivity).
  assert (∀ n, n ∈ includeListOf c →
               toLowerCase n ∈ map byName (stepCandidates c scenarioSvg)) as Hall.
  { intros n Hn. rewrite Hl in Hn.
    repeat (apply elem_of_cons in Hn as [->|Hn]); [..|by apply elem_of_nil in Hn];
      vm_compute; repeat constructor. }
  assert (includeListOf c ≠ []) as Hne by (rewrite Hl; discriminate).
  split; [exact emptyPage_Inv|]. split; [by rewrite Hl|]. split; [exact Hall|].
  split; [vm_compute; reflexivity|]. split; [vm_compute; reflexivity|].
  destruct (include_list_steps defaults c scenarioSvg "" emptyPage emptyPage_Inv Hne Hall)
    as (st' & Hst' & _ & _ & _ & _ & _ & Hb).
  exists st'. split; [exact Hst'|exact Hb].
Defined.

(* A data-include attribute with no name in it gives an include list of
   length 0, in which no name fails to match; buildSteps then makes one
   step layer and one placeholder per non-base group. *)
Lemma include_list_steps_counterexample :
  let c := containerWith [("data-base", "Axes,Grid"); ("data-include", " , ")] in
  length (includeListOf c) = 0 ∧
  (∀ n, n ∈ includeListOf c → toLowerCase n ∈ map byName (stepCandidates c scenarioSvg)) ∧
  length (k_stepLayers (buildSteps_env c scenarioSvg "" emptyPage).1) = 3 ∧
  length (k_placeholders (buildSteps_env c scenarioSvg "" emptyPage).1) = 3 ∧
  (∃ st', buildSteps c scenarioSvg "" emptyPage = Some st' ∧
          children st' (c_id c) = [SpanChild 0; SpanChild 1; SpanChild 2]).
Proof.
  intros c. split; [reflexivity|]. split.
  - intros n Hn. vm_compute in Hn. by apply elem_of_nil in Hn.
  - split; [vm_compute; reflexivity|]. split; [vm_compute; reflexivity|].
    eexists. split; [vm_compute; reflexivity|]. vm_compute. reflexivity.
Qed.

(* ---- Fragment events ------------------------------------------------- *)





(* ---- Teardown -------------------------------------------------------- *)

Lemma removeElem_layerClass st ph : layerClass (removeElem st ph) = layerClass st.
Proof. unfold removeElem. by repeat case_match. Qed.

Lemma removeElem_listeners st ph : listeners (removeElem st ph) = listeners st.
Proof. unfold removeElem. by repeat case_match. Qed.

Lemma foldl_removeElem_layerClass l st :
  layerClass (foldl removeElem st l) = layerClass st.
Proof.
  revert st. induction l as [|x l IH]; intros st; simpl; [done|].
  by rewrite IH, removeElem_layerClass.
Qed.

Lemma foldl_removeElem_listeners l st :
  listeners (foldl removeElem st l) = listeners st.
Proof.
  revert st. induction l as [|x l IH]; intros st; simpl; [done|].
  by rewrite IH, removeElem_listeners.
Qed.

Lemma foldl_removeElem_children l st p x :
  x ∈ children (foldl removeElem st l) p → x ∈ children st p.
Proof.
  revert st. induction l as [|y l IH]; intros st; simpl; [done|].
  intros H%IH. by eapply children_removeElem.
Qed.

Lemma foldl_removeElem_gone l st p ph :
  Inv st → ph ∈ l → SpanChild ph ∉ children (foldl removeElem st l) p.
Proof.
  revert st. induction l as [|y l IH]; intros st I Hph; simpl.
  - by apply elem_of_nil in Hph.
  - apply elem_of_cons in Hph as [->|Hph].
    + intros H%foldl_removeElem_children. revert H. apply removeElem_gone, I.
    + apply IH; [by apply removeElem_Inv|done].
Qed.

Lemma isHidden_foldl_showLayer_false l st g :
  isHidden st g = false → isHidden (foldl showLayer st l) g = false.
Proof.
  revert st. induction l as [|x l IH]; intros st H; simpl; [done|].
  apply IH. by apply isHidden_showLayer_false.
Qed.

Lemma isHidden_foldl_showLayer l st g :
  g ∈ l → isHidden (foldl showLayer st l) g = false.
Proof.
  revert st. induction l as [|x l IH]; intros st Hg; simpl.
  - by apply elem_of_nil in Hg.
  - apply elem_of_cons in Hg as [->|Hg]; [|by apply IH].
    apply isHidden_foldl_showLayer_false. by apply isHidden_showLayer.
Qed.

Definition registeredBy (k : Closure) (entry : EventName * Handler) : bool :=
  registered Fragmentshown (OnFragmentShown k) entry ||
  registered Fragmenthidden (OnFragmentHidden k) entry ||
  registered Slidechanged (OnSlideChanged k) entry.

Lemma teardown_listeners st k entry :
  entry ∈ listeners (teardown st k) →
  entry ∈ listeners st ∧ registeredBy k entry = false.
Proof.
  unfold teardown.
  rewrite (touches_listeners (λ _, True) _ _
             (foldl_showLayer_touches _ _ _ (λ _ _, I))).
  rewrite foldl_removeElem_listeners. unfold deck_off. simpl.
  rewrite !list_elem_of_filter. intros (H3 & H2 & H1 & Hin).
  split; [done|]. unfold registeredBy.
  destruct (registered Fragmentshown _ _); [by destruct H1|].
  destruct (registered Fragmenthidden _ _); [by destruct H2|].
  destruct (registered Slidechanged _ _); [by destruct H3|]. done.
Qed.

Lemma teardown_children st k p x :
  x ∈ children (teardown st k) p → x ∈ children st p.
Proof.
  unfold teardown, children.
  rewrite (touches_appended (λ _, True) _ _
             (foldl_showLayer_touches _ _ _ (λ _ _, I))).
  intros H. by apply foldl_removeElem_children in H.
Qed.

Lemma teardown_gone st k p ph :
  Inv st → ph ∈ k_placeholders k → SpanChild ph ∉ children (teardown st k) p.
Proof.
  intros Is Hph. unfold teardown, children.
  rewrite (touches_appended (λ _, True) _ _
             (foldl_showLayer_touches _ _ _ (λ _ _, I))).
  apply foldl_removeElem_gone; [|done]. by do 3 apply deck_off_Inv.
Qed.

Lemma teardown_visible st k g :
  g ∈ k_stepLayers k → isHidden (teardown st k) g = false.
Proof. intros Hg. unfold teardown. by apply isHidden_foldl_showLayer. Qed.

Lemma teardown_keeps_visible st k g :
  isHidden st g = false → isHidden (teardown st k) g = false.
Proof.
  intros H. unfold teardown. apply isHidden_foldl_showLayer_false.
  unfold isHidden, classOf in *. by rewrite foldl_removeElem_layerClass.
Qed.

Lemma foldl_teardown_spec tds : ∀ st k,
  Inv st → k ∈ tds →
  (∀ entry, entry ∈ listeners (foldl teardown st tds) → registeredBy k entry = false) ∧
  (∀ ph p, ph ∈ k_placeholders k → SpanChild ph ∉ children (foldl teardown st tds) p) ∧
  (∀ g, g ∈ k_stepLayers k → isHidden (foldl teardown st tds) g = false).
Proof.
  assert (∀ tds st entry, entry ∈ listeners (foldl teardown st tds) →
                          entry ∈ listeners st) as Hl.
  { intros l. induction l as [|x l IH]; intros st entry; simpl; [done|].
    intros H%IH. by apply teardown_listeners in H as [? _]. }
  assert (∀ tds st p x, x ∈ children (foldl teardown st tds) p →
                        x ∈ children st p) as Hc.
  { intros l. induction l as [|x l IH]; intros st p y; simpl; [done|].
    intros H%IH. by eapply teardown_children. }
  assert (∀ tds st g, isHidden st g = false →
                      isHidden (foldl teardown st tds) g = false) as Hv.
  { intros l. induction l as [|x l IH]; intros st g H; simpl; [done|].
    apply IH. by apply teardown_keeps_visible. }
  induction tds as [|k0 tds IH]; intros st k Is Hk.
  - by apply elem_of_nil in Hk.
  - simpl. apply elem_of_cons in Hk as [->|Hk].
    + split_and!.
      * intros entry H%Hl. by apply teardown_listeners in H as [_ ?].
      * intros ph p Hph H%Hc. revert H. by apply teardown_gone.
      * intros g Hg. apply Hv. by apply teardown_visible.
    + apply IH; [by apply teardown_Inv|done].
Qed.

(** C4: after destroy, for every container on which buildSteps ran (its
    environment is on teardownFns): none of its three handlers is still
    registered with the deck, none of its placeholders is a child of a
    container any more, and every one of its step layers is visible. *)
Theorem destroy_cleans_up st k :
  Inv st →
  k ∈ teardownFns st →
  (∀ entry, entry ∈ listeners (destroy st) →
     registered Fragmentshown (OnFragmentShown k) entry = false ∧
     registered Fragmenthidden (OnFragmentHidden k) entry = false ∧
     registered Slidechanged (OnSlideChanged k) entry = false) ∧
  (∀ ph p, ph ∈ k_placeholders k → SpanChild ph ∉ children (destroy st) p) ∧
  (∀ g, g ∈ k_stepLayers k → isHidden (destroy st) g = false) ∧
  teardownFns (destroy st) = [].
Proof.
  intros Is Hk.
  destruct (foldl_teardown_spec (teardownFns st) st k Is Hk) as (H1 & H2 & H3).
  split_and!; [|exact H2|exact H3|done].
  intros entry He. specialize (H1 entry He). unfold registeredBy in H1.
  apply orb_false_elim in H1 as [H1 Hc]. apply orb_false_elim in H1 as [Ha Hb].
  done.
Qed.

(* ---- Which class lists buildSteps writes ----------------------------- *)

Lemma dom_only_layerClass st st' : dom_only st st' → layerClass st' = layerClass st.
Proof. by intros ->. Qed.

Lemma buildSteps_env_layers container svg fragmentClass st st' :
  (buildSteps_env container svg fragmentClass st).2 = Some st' →
  let baseLayers := (classify container svg).1 in
  let stepLayers := (classify container svg).2 in
  (∀ n, n ∉ map nid (baseLayers ++ stepLayers) →
        layerClass st' !! n = layerClass st !! n) ∧
  (∀ g, g ∈ baseLayers → nid g ∉ map nid stepLayers → isHidden st' g = false).
Proof.
  intros Hres baseLayers stepLayers.
  destruct (buildSteps_env_Built container svg fragmentClass st) as (st0 & Hst0 & B).
  rewrite Hres in Hst0. injection Hst0 as <-.
  pose proof (Built_bound _ _ _ _ _ _ B) as [Hlen Hb].
  revert Hres B Hlen Hb. unfold buildSteps_env. cbn zeta.
  fold baseLayers stepLayers.
  set (N := λ n, n ∈ map nid stepLayers).
  set (s1 := foldl showLayer st baseLayers).
  set (s2 := foldl hideLayer s1 stepLayers).
  set (u := uniqId "rsvgc" s2).
  set (r := makePlaceholders container u.1 _ 0 stepLayers u.2).
  set (k := {| k_uid := u.1; k_container := container;
               k_stepLayers := stepLayers; k_placeholders := r.1 |}).
  set (s5 := set_teardownFns _ _).
  cbn [fst snd]. intros Hsync B Hlen Hb.
  assert (touches (λ n, n ∈ map nid baseLayers) st s1) as T1.
  { apply foldl_showLayer_touches. intros el Hel. by apply (list_elem_of_fmap_2 nid). }
  assert (touches N s1 s2) as T2.
  { apply foldl_hideLayer_touches. intros el Hel. by apply (list_elem_of_fmap_2 nid). }
  assert (layerClass s5 = layerClass s2) as E5.
  { pose proof (makePlaceholders_spec container u.1
                  (extraFragOf container fragmentClass) stepLayers 0 u.2)
      as (_ & _ & _ & _ & _ & _ & H7).
    fold (extraFragOf container fragmentClass) in r. fold r in H7.
    change (layerClass s5) with (layerClass r.2).
    by rewrite (dom_only_layerClass _ _ H7). }
  assert (heap s5 = heap st') as Hh5.
  { symmetry. eapply (touches_heap (λ _, True)).
    eapply syncFromVisibleFragments_touches; [done| |exact Hsync]. done. }
  assert (touches N s5 st') as T5.
  { eapply syncFromVisibleFragments_touches; [| |exact Hsync].
    - intros g Hg. by apply (list_elem_of_fmap_2 nid).
    - intros ph e g Hph He Hg. apply list_elem_of_lookup in Hph as [i Hi].
      destruct (Hb i ph Hi) as (e0 & g0 & He0 & Hg0 & Hl0 & _).
      rewrite Hh5, He0 in He. injection He as <-. rewrite Hl0 in Hg.
      injection Hg as <-. apply (list_elem_of_fmap_2 nid).
      by eapply list_elem_of_lookup_2. }
  assert (∀ n, ¬ N n → layerClass st' !! n = layerClass s1 !! n) as Fstep.
  { intros n Hn. destruct T5 as [_ F5], T2 as [_ F2].
    by rewrite F5, E5, F2. }
  split.
  - intros n Hn. rewrite Fstep.
    + destruct T1 as [_ F1]. apply F1. intros H. apply Hn.
      rewrite map_app. apply elem_of_app. by left.
    + intros H. apply Hn. rewrite map_app. apply elem_of_app. by right.
  - intros g Hg Hn. unfold isHidden, classOf. rewrite Fstep by done.
    by apply isHidden_foldl_showLayer.
Qed.

(* ---- What the deck and destroy can reach ----------------------------- *)

(* Everything but the plugin's own initialisation of containers. *)
Definition hostAction (a : Action) : bool :=
  match a with
  | PluginInit _ | FetchSettled _ _ => false
  | _ => true
  end.

(* [refs_sub st st']: st' holds no reference that st does not hold. *)
Definition refs_sub (st st' : State) : Prop :=
  (∀ entry, entry ∈ listeners st' → entry ∈ listeners st) ∧
  (∀ k, k ∈ teardownFns st' → k ∈ teardownFns st) ∧
  (∀ ph e', heap st' !! ph = Some e' →
            ∃ e, heap st !! ph = Some e ∧ e_rsvgLayer e = e_rsvgLayer e').

Lemma refs_sub_refl st : refs_sub st st.
Proof. split_and!; [done|done|]. intros ph e He. by exists e. Qed.

Lemma refs_sub_trans a b c : refs_sub a b → refs_sub b c → refs_sub a c.
Proof.
  intros (L1 & T1 & H1) (L2 & T2 & H2). split_and!; [auto|auto|].
  intros ph e2 He2. destruct (H2 ph e2 He2) as (e1 & He1 & E1).
  destruct (H1 ph e1 He1) as (e0 & He0 & E0). exists e0. split; [done|congruence].
Qed.

Lemma refs_sub_layerRefs st st' n : refs_sub st st' → layerRefs st' n → layerRefs st n.
Proof.
  intros (L & T & H) [(entry & g & He & Hg & Hn)|[(k & g & Hk & Hg & Hn)|(ph & e & g & He & Hg & Hn)]].
  - left. exists entry, g. auto.
  - right. left. exists k, g. auto.
  - right. right. destruct (H ph e He) as (e0 & He0 & E0).
    exists ph, e0, g. split_and!; [done|congruence|done].
Qed.

Lemma touches_refs_sub N st st' : touches N st st' → refs_sub st st'.
Proof.
  intros T. split_and!.
  - by rewrite (touches_listeners _ _ _ T).
  - by rewrite (touches_teardownFns _ _ _ T).
  - rewrite (touches_heap _ _ _ T). intros ph e He. by exists e.
Qed.

Lemma removeElem_refs_sub st ph : refs_sub st (removeElem st ph).
Proof.
  unfold removeElem. destruct (heap st !! ph) as [e|] eqn:E; [|apply refs_sub_refl].
  destruct (e_parent e); [|apply refs_sub_refl].
  split_and!; [done|done|]. intros id e'. simpl. rewrite lookup_insert.
  case_decide as Hid.
  - subst. intros [= <-]. by exists e.
  - intros He'. by exists e'.
Qed.

Lemma foldl_removeElem_refs_sub l st : refs_sub st (foldl removeElem st l).
Proof.
  revert st. induction l as [|x l IH]; intros st; simpl; [apply refs_sub_refl|].
  eapply refs_sub_trans; [apply removeElem_refs_sub|apply IH].
Qed.

Lemma deck_off_refs_sub name h st : refs_sub st (deck_off name h st).
Proof.
  split_and!; [|done|].
  - intros entry. unfold deck_off. simpl. by intros [_ ?]%list_elem_of_filter.
  - intros ph e He. by exists e.
Qed.

Lemma teardown_refs_sub st k : refs_sub st (teardown st k).
Proof.
  unfold teardown.
  eapply refs_sub_trans;
    [|eapply (touches_refs_sub (λ _, True)); by apply foldl_showLayer_touches].
  eapply refs_sub_trans; [|apply foldl_removeElem_refs_sub].
  eapply refs_sub_trans; [|apply deck_off_refs_sub].
  eapply refs_sub_trans; [|apply deck_off_refs_sub].
  apply deck_off_refs_sub.
Qed.

Lemma teardown_frame st k n :
  n ∉ map nid (k_stepLayers k) → layerClass (teardown st k) !! n = layerClass st !! n.
Proof.
  intros Hn. unfold teardown.
  destruct (foldl_showLayer_touches (λ n, n ∈ map nid (k_stepLayers k))
              (k_stepLayers k)
              (foldl removeElem
                 (deck_off Slidechanged (OnSlideChanged k)
                    (deck_off Fragmenthidden (OnFragmentHidden k)
                       (deck_off Fragmentshown (OnFragmentShown k) st)))
                 (k_placeholders k))) as [_ F].
  { intros el Hel. by apply (list_elem_of_fmap_2 nid). }
  rewrite F by done. by rewrite foldl_removeElem_layerClass.
Qed.

Lemma foldl_teardown_frame tds : ∀ st,
  (∀ n, (∀ k, k ∈ tds → n ∉ map nid (k_stepLayers k)) →
        layerClass (foldl teardown st tds) !! n = layerClass st !! n) ∧
  refs_sub st (foldl teardown st tds).
Proof.
  induction tds as [|k tds IH]; intros st; simpl.
  - split; [done|apply refs_sub_refl].
  - destruct (IH (teardown st k)) as [F R]. split.
    + intros n Hn. rewrite F by (intros k' Hk'; apply Hn; by right).
      apply teardown_frame, Hn. left.
    + eapply refs_sub_trans; [apply teardown_refs_sub|exact R].
Qed.

Lemma setVisible_refs_sub f b st : refs_sub st (setVisible f b st).
Proof.
  unfold setVisible. destruct (heap st !! f) as [e|] eqn:E; [|apply refs_sub_refl].
  split_and!; [done|done|]. intros id e'. simpl. rewrite lookup_insert.
  case_decide as Hid.
  - subst. intros [= <-]. by exists e.
  - intros He'. by exists e'.
Qed.

Lemma setVisible_layerClass f b st : layerClass (setVisible f b st) = layerClass st.
Proof. unfold setVisible. by destruct (heap st !! f). Qed.

Lemma host_step_frame options st a :
  hostAction a = true →
  (∀ n, ¬ layerRefs st n → layerClass (step options st a) !! n = layerClass st !! n) ∧
  refs_sub st (step options st a).
Proof.
  intros Ha. destruct a; try discriminate; simpl.
  - pose proof (dispatch_touches Fragmentshown (FragmentEv fragment) st) as T.
    split; [apply T|by eapply touches_refs_sub].
  - pose proof (dispatch_touches Fragmenthidden (FragmentEv fragment) st) as T.
    split; [apply T|by eapply touches_refs_sub].
  - pose proof (dispatch_touches Slidechanged (SlideEv currentSlide) st) as T.
    split; [apply T|by eapply touches_refs_sub].
  - split; [by rewrite setVisible_layerClass|apply setVisible_refs_sub].
  - destruct (foldl_teardown_frame (teardownFns st) st) as [F R]. split.
    + intros n Hn. unfold destroy. simpl. apply F.
      intros k Hk (g & -> & Hg)%list_elem_of_fmap. apply Hn.
      right. left. by exists k, g.
    + unfold destroy. destruct R as (L & T & H).
      split_and!; [done| |done]. simpl. by intros k ?%elem_of_nil.
Qed.

Lemma host_run_frame options acts : ∀ st,
  forallb hostAction acts = true →
  (∀ n, ¬ layerRefs st n → layerClass (run options st acts) !! n = layerClass st !! n) ∧
  refs_sub st (run options st acts).
Proof.
  induction acts as [|a acts IH]; intros st Hacts; simpl.
  - split; [done|apply refs_sub_refl].
  - apply andb_prop in Hacts as [Ha Hacts].
    destruct (host_step_frame options st a Ha) as [F1 R1].
    destruct (IH (step options st a) Hacts) as [F2 R2]. split.
    + intros n Hn. unfold run in F2. rewrite F2, F1; [done|done|].
      intros H. apply Hn. by eapply refs_sub_layerRefs.
    + eapply refs_sub_trans; [exact R1|exact R2].
Qed.

(* ---- The Axes / Grid / Step1..3 scenario ----------------------------- *)

Definition scenarioContainer : Container :=
  containerWith [("data-base", "Axes,Grid"); ("data-include", "Step1,Step3")].

(* The page once init has run on the scenario container; [classes] are
   the class lists the groups have in the page source. *)
Definition scenarioPage (classes : gmap nat (list string)) : State :=
  init defaults [scenarioContainer] (initialState classes ∅ 0).

Lemma initContainer_unprocessed options c st svg :
  c_id c ∉ processed st →
  querySelectorSvg c (set_processed (λ s, {[c_id c]} ∪ s) st) = Some svg →
  initContainer options c st =
    default (set_processed (λ s, {[c_id c]} ∪ s) st)
            (buildSteps c svg (fragmentClass options)
               (set_processed (λ s, {[c_id c]} ∪ s) st)).
Proof.
  intros Hp Hq. unfold initContainer. rewrite bool_decide_eq_false_2 by done.
  cbv zeta. by rewrite Hq.
Qed.

(* The scenario page when initContainer reaches buildSteps. *)
Definition scenarioStart (classes : gmap nat (list string)) : State :=
  set_processed (λ s, {[c_id scenarioContainer]} ∪ s)
    (ensureStyle (initialState classes ∅ 0)).

Lemma scenarioPage_unfold classes :
  scenarioPage classes =
    default (scenarioStart classes)
            (buildSteps scenarioContainer scenarioSvg "" (scenarioStart classes)).
Proof.
  unfold scenarioPage, init. cbn [foldl].
  apply (initContainer_unprocessed defaults).
  - apply not_elem_of_empty.
  - vm_compute. reflexivity.
Qed.

Lemma scenarioStart_Inv classes : Inv (scenarioStart classes).
Proof.
  split.
  - intros id [e He]. cbn in He. rewrite lookup_empty in He. discriminate.
  - intros p ph. unfold children. cbn. rewrite lookup_empty. cbn.
    intros H. apply elem_of_nil in H. destruct H.
Qed.

Lemma scenario_step_nids g :
  g ∈ [layerGroup 3 "Step1"; layerGroup 5 "Step3"] → nid g = 3 ∨ nid g = 5.
Proof.
  intros Hin. apply elem_of_cons in Hin as [->|Hin]; [by left|].
  apply list_elem_of_singleton in Hin as ->. by right.
Qed.

Lemma scenario_classify :
  classify scenarioContainer scenarioSvg =
    ([layerGroup 1 "Axes"; layerGroup 2 "Grid"],
     [layerGroup 3 "Step1"; layerGroup 5 "Step3"]).
Proof. vm_compute. reflexivity. Qed.

(** C2 (amended): with groups Axes, Grid, Step1, Step2, Step3,
    data-base=Axes,Grid and data-include=Step1,Step3, buildSteps leaves
    the base layers Axes and Grid visible, creates exactly two
    placeholders, bound to Step1 and then Step3, and leaves Step2 out of
    both sets: Step2 keeps the class list it had in the page source
    (its default visibility), and so do the deck's events and destroy. *)
Theorem scenario_base_and_steps classes acts :
  forallb hostAction acts = true →
  ∃ k, teardownFns (scenarioPage classes) = [k] ∧
       (classify scenarioContainer scenarioSvg).1 =
         [layerGroup 1 "Axes"; layerGroup 2 "Grid"] ∧
       k_stepLayers k = [layerGroup 3 "Step1"; layerGroup 5 "Step3"] ∧
       k_placeholders k = [0; 1] ∧
       children (scenarioPage classes) 100 = [SpanChild 0; SpanChild 1] ∧
       bound (run defaults (scenarioPage classes) acts) k ∧
       isHidden (run defaults (scenarioPage classes) acts) (layerGroup 1 "Axes") = false ∧
       isHidden (run defaults (scenarioPage classes) acts) (layerGroup 2 "Grid") = false ∧
       classOf (run defaults (scenarioPage classes) acts) (layerGroup 4 "Step2") =
         default [] (classes !! 4).
Proof.
  intros Hacts. rewrite scenarioPage_unfold.
  pose proof (scenarioStart_Inv classes) as I1.
  assert (heap (scenarioStart classes) = ∅) as Hheap1 by reflexivity.
  assert (next (scenarioStart classes) = 0) as Hnext1 by reflexivity.
  assert (listeners (scenarioStart classes) = []) as Hlist1 by reflexivity.
  assert (teardownFns (scenarioStart classes) = []) as Htd1 by reflexivity.
  assert (children (scenarioStart classes) (c_id scenarioContainer) = []) as Hch1
    by reflexivity.
  assert (layerClass (scenarioStart classes) = classes) as Hlc1 by reflexivity.
  generalize dependent (scenarioStart classes). intros s1 I1 Hheap1 Hnext1 Hlist1 Htd1 Hch1 Hlc1.
  destruct (buildSteps_env_Built scenarioContainer scenarioSvg "" s1) as (st' & Hst' & B).
  destruct (buildSteps_env_layers _ _ _ _ _ Hst') as [Fb Vb].
  unfold buildSteps. rewrite Hst'. cbn [default from_option id].
  revert B. generalize (buildSteps_env scenarioContainer scenarioSvg "" s1).1.
  intros k B. clear Hst'.
  rewrite scenario_classify in Fb, Vb. cbn [fst snd] in Fb, Vb.
  assert (k_stepLayers k = [layerGroup 3 "Step1"; layerGroup 5 "Step3"]) as Hsteps.
  { rewrite (built_stepLayers _ _ _ _ _ _ B). by rewrite scenario_classify. }
  assert (k_placeholders k = [0; 1]) as Hphs.
  { rewrite (built_placeholders _ _ _ _ _ _ B), Hsteps, Hnext1. reflexivity. }
  assert (Inv st') as I' by (eapply Built_Inv; eassumption).
  assert (∀ n, layerRefs st' n → n = 3 ∨ n = 5) as Hrefs.
  { assert (∀ g, g ∈ k_stepLayers k → nid g = 3 ∨ nid g = 5) as Hg.
    { rewrite Hsteps. apply scenario_step_nids. }
    intros n [(entry & g & He & Hin & <-)|[(k' & g & Hk' & Hin & <-)|(ph & e & g & He & Hl & <-)]].
    - rewrite (built_listeners _ _ _ _ _ _ B), Hlist1 in He. cbn in He.
      apply elem_of_cons in He as [->|He]; [exact (Hg g Hin)|].
      apply elem_of_cons in He as [->|He]; [exact (Hg g Hin)|].
      apply list_elem_of_singleton in He as ->. exact (Hg g Hin).
    - rewrite (built_teardownFns _ _ _ _ _ _ B), Htd1 in Hk'. cbn in Hk'.
      apply list_elem_of_singleton in Hk' as ->. exact (Hg g Hin).
    - destruct (decide (ph < next s1 ∨ next st' ≤ ph)) as [Hph|Hph].
      + rewrite (built_heap_old _ _ _ _ _ _ B), Hheap1, lookup_empty in He by exact Hph.
        discriminate He.
      + rewrite (built_next _ _ _ _ _ _ B), Hnext1 in Hph.
        assert (ph < length (k_stepLayers k)) as Hlt by lia.
        destruct (lookup_lt_is_Some_2 _ _ Hlt) as [g0 Hg0].
        pose proof (built_heap_new _ _ _ _ _ _ B ph g0 Hg0) as He0.
        rewrite Hnext1 in He0. cbn [Nat.add] in He0. rewrite He in He0.
        injection He0 as ->. cbn [e_rsvgLayer placeholderFor] in Hl.
        injection Hl as <-. apply Hg. eapply list_elem_of_lookup_2, Hg0. }
  destruct (host_run_frame defaults acts st' Hacts) as [F _].
  assert (∀ n, n ≠ 3 → n ≠ 5 →
            layerClass (run defaults st' acts) !! n = layerClass st' !! n) as Frun.
  { intros n H3 H5. apply F. intros H. apply Hrefs in H as [H|H]; contradiction. }
  assert (∀ n, n ∈ [3; 5] → n = 3 ∨ n = 5) as H35.
  { intros n Hin. apply elem_of_cons in Hin as [->|Hin]; [by left|].
    apply list_elem_of_singleton in Hin as ->. by right. }
  exists k. split_and!.
  - rewrite (built_teardownFns _ _ _ _ _ _ B), Htd1. reflexivity.
  - by rewrite scenario_classify.
  - exact Hsteps.
  - exact Hphs.
  - change 100 with (c_id scenarioContainer).
    rewrite (built_children _ _ _ _ _ _ B), Hphs, Hch1. reflexivity.
  - eapply bound_heap_le; [apply run_Inv, I'|]. eapply Built_bound, B.
  - unfold isHidden, classOf. cbn [nid layerGroup]. rewrite (Frun 1) by lia.
    apply (Vb (layerGroup 1 "Axes")); [left|].
    cbn. intros Hin. apply H35 in Hin as [?|?]; lia.
  - unfold isHidden, classOf. cbn [nid layerGroup]. rewrite (Frun 2) by lia.
    apply (Vb (layerGroup 2 "Grid")); [right; left|].
    cbn. intros Hin. apply H35 in Hin as [?|?]; lia.
  - unfold classOf. cbn [nid layerGroup]. rewrite (Frun 4) by lia.
    rewrite Fb, Hlc1; [reflexivity|].
    cbn. intros Hin. apply elem_of_cons in Hin as [?|Hin]; [lia|].
    apply elem_of_cons in Hin as [?|Hin]; [lia|].
    apply H35 in Hin as [?|?]; lia.
Qed.

Lemma scenario_base_and_steps_witness :
  let acts := [DeckSetVisible 0 true; DeckFragmentShown (Some 0);
               DeckSlideChanged (Some [100]); DeckFragmentHidden (Some 0);
               PluginDestroy] in
  forallb hostAction acts = true ∧
  ∃ k, teardownFns (scenarioPage ∅) = [k] ∧
       k_placeholders k = [0; 1] ∧
       classOf (run defaults (scenarioPage ∅) acts) (layerGroup 4 "Step2") = [].
Proof.
  intros acts. split; [reflexivity|].
  destruct (scenario_base_and_steps ∅ acts eq_refl)
    as (k & H1 & _ & _ & H4 & _ & _ & _ & _ & H9).
  exists k. split; [exact H1|]. split; [exact H4|]. exact H9.
Defined.

(* The scenario as the claim has it: once buildSteps has run, Step2 does
   not carry rsvg-hidden, although it is in neither set. *)
Lemma scenario_step2_not_hidden :
  map nid (findLayers scenarioSvg) = [1; 2; 3; 4; 5] ∧
  map nid (classify scenarioContainer scenarioSvg).1 = [1; 2] ∧
  map nid (classify scenarioContainer scenarioSvg).2 = [3; 5] ∧
  isHidden (scenarioPage ∅) (layerGroup 4 "Step2") = false ∧
  isHidden (scenarioPage ∅) (layerGroup 3 "Step1") = true.
Proof. vm_compute. auto. Qed.

(* ---- Loading an external graphic ------------------------------------- *)

(* The fetch failed: it was rejected, or the response is not ok. *)
Definition failedFetch (res : Fetched) : bool :=
  match res with
  | FetchRejected _ => true
  | FetchResponse ok _ => negb ok
  end.

(* e.message of the error inlineExternalSvg throws for a failed fetch. *)
Definition failureMessage (src : string) (res : Fetched) : string :=
  match res with
  | FetchRejected message => message
  | FetchResponse _ _ => String.append "Failed to load SVG: " src
  end.

(** C5 (amended): for a container with an external graphic reference and
    no inline svg, initContainer only marks the container processed and
    waits for the fetch; when the fetch fails (it is rejected or the
    response is not ok) one line is logged and the container is dropped
    from the waiting list, and nothing else on the page changes: no
    placeholder is created, nothing is appended, no class list changes,
    no listener is registered, for this container and for all others. *)
Theorem failed_load_stops options st container src :
  c_id container ∉ processed st →
  querySelectorSvg container (set_processed (λ s, {[c_id container]} ∪ s) st) = None →
  c_getAttribute container "data-src" = Some src →
  truthy src = true →
  initContainer options container st =
    set_pending (λ l, l ++ [(container, src)])
      (set_processed (λ s, {[c_id container]} ∪ s) st) ∧
  ∀ st1 i res,
    pending st1 !! i = Some (container, src) →
    failedFetch res = true →
    initContainer_resume options i res st1 =
      set_console (λ l, l ++ [String.append "[svg-layers] " (failureMessage src res)])
        (set_pending (delete i) st1) ∧
    heap (initContainer_resume options i res st1) = heap st1 ∧
    appended (initContainer_resume options i res st1) = appended st1 ∧
    layerClass (initContainer_resume options i res st1) = layerClass st1 ∧
    listeners (initContainer_resume options i res st1) = listeners st1 ∧
    teardownFns (initContainer_resume options i res st1) = teardownFns st1.
Proof.
  intros Hp Hq Hsrc Ht. split.
  - unfold initContainer. rewrite bool_decide_eq_false_2 by done.
    cbv zeta. rewrite Hq, Hsrc. unfold or_else. by rewrite Ht, Ht.
  - intros st1 i res Hi Hf.
    assert (initContainer_resume options i res st1 =
            set_console (λ l, l ++ [String.append "[svg-layers] " (failureMessage src res)])
              (set_pending (delete i) st1)) as E.
    { unfold initContainer_resume. rewrite Hi.
      destruct res as [msg|[|] doc]; [done|discriminate|done]. }
    rewrite E. done.
Qed.

Definition remoteContainer : Container :=
  {| c_id := 200; c_attrs := [("data-src", "figures/diagram.svg")]; c_content := [] |}.

Lemma failed_load_stops_witness :
  (c_id remoteContainer ∉ processed emptyPage) ∧
  truthy "figures/diagram.svg" = true ∧
  console (initContainer_resume defaults 0 (FetchResponse false scenarioSvg)
             (initContainer defaults remoteContainer emptyPage)) =
    ["[svg-layers] Failed to load SVG: figures/diagram.svg"] ∧
  heap (initContainer_resume defaults 0 (FetchResponse false scenarioSvg)
          (initContainer defaults remoteContainer emptyPage)) = ∅.
Proof.
  assert (c_id remoteContainer ∉ processed emptyPage) as Hp by apply not_elem_of_empty.
  destruct (failed_load_stops defaults emptyPage remoteContainer "figures/diagram.svg"
              Hp eq_refl eq_refl eq_refl) as [E1 H2].
  split; [exact Hp|]. split; [reflexivity|].
  destruct (H2 (initContainer defaults remoteContainer emptyPage) 0
               (FetchResponse false scenarioSvg)) as (E2 & Hh & _).
  { rewrite E1. reflexivity. }
  { reflexivity. }
  split.
  - rewrite E2, E1. reflexivity.
  - rewrite Hh, E1. reflexivity.
Defined.

(* DOMParser answers malformed markup with a parsererror document; the
   loader does not look at it: nothing is logged, the error document is
   appended to the container and buildSteps runs on it. *)
Definition parserErrorDocument : Node :=
  Elem 7 "parsererror" [] [Elem 8 "sourcetext" [] []].

Lemma parse_error_not_reported :
  let st1 := initContainer defaults remoteContainer emptyPage in
  let st2 := initContainer_resume defaults 0 (FetchResponse true parserErrorDocument) st1 in
  pending st1 = [(remoteContainer, "figures/diagram.svg")] ∧
  isParseError parserErrorDocument = true ∧
  console st2 = [] ∧
  map tagName (flat_map childElements (children st2 200)) = ["parsererror"; "sourcetext"] ∧
  length (listeners st2) = 3 ∧
  length (teardownFns st2) = 1.
Proof. vm_compute. auto 10. Qed.

(* ---- Repeated initialisation ---------------------------------------- *)

Lemma buildSteps_processed container svg fc st :
  processed (default st (buildSteps container svg fc st)) = processed st.
Proof.
  unfold buildSteps.
  destruct (buildSteps_env_Built container svg fc st) as (st' & -> & B).
  apply (built_processed _ _ _ _ _ _ B).
Qed.

Lemma initContainer_processed options c st :
  processed st ⊆ processed (initContainer options c st) ∧
  c_id c ∈ processed (initContainer options c st).
Proof.
  unfold initContainer. case_bool_decide as Hp; [done|]. cbv zeta.
  set (s1 := set_processed _ st).
  assert (processed s1 = {[c_id c]} ∪ processed st) as E1 by done.
  destruct (querySelectorSvg c s1).
  - rewrite buildSteps_processed, E1. set_solver.
  - destruct (truthy _); cbn; set_solver.
Qed.

Lemma initContainer_again options c st :
  c_id c ∈ processed st → initContainer options c st = st.
Proof. intros H. unfold initContainer. by rewrite bool_decide_eq_true_2. Qed.

Lemma foldl_initContainer_processed options cs : ∀ st,
  processed st ⊆ processed (foldl (λ st c, initContainer options c st) st cs) ∧
  ∀ c, c ∈ cs → c_id c ∈ processed (foldl (λ st c, initContainer options c st) st cs).
Proof.
  induction cs as [|c0 cs IH]; intros st; simpl.
  - split; [done|]. intros c Hc. by apply elem_of_nil in Hc.
  - destruct (IH (initContainer options c0 st)) as [Hsub Hall].
    destruct (initContainer_processed options c0 st) as [Hsub0 Hin0].
    split; [by etrans|]. intros c Hc.
    apply elem_of_cons in Hc as [->|Hc]; [by apply Hsub|by apply Hall].
Qed.

Lemma foldl_initContainer_again options cs : ∀ st,
  (∀ c, c ∈ cs → c_id c ∈ processed st) →
  foldl (λ st c, initContainer options c st) st cs = st.
Proof.
  induction cs as [|c0 cs IH]; intros st H; simpl; [done|].
  rewrite initContainer_again by (apply H; left).
  apply IH. intros c Hc. apply H. by right.
Qed.

Lemma ensureStyle_idem st : ensureStyle (ensureStyle st) = ensureStyle st.
Proof. unfold ensureStyle. destruct (styleInjected st) eqn:E; [by rewrite E|done]. Qed.

Lemma foldl_initContainer_styleInjected options cs : ∀ st,
  styleInjected st = true →
  styleInjected (foldl (λ st c, initContainer options c st) st cs) = true.
Proof.
  assert (∀ c st, styleInjected st = true →
                  styleInjected (initContainer options c st) = true) as H1.
  { intros c st H. unfold initContainer. case_bool_decide; [done|]. cbv zeta.
    set (s1 := set_processed _ st).
    destruct (querySelectorSvg c s1) as [svg|].
    - unfold buildSteps.
      destruct (buildSteps_env_Built c svg (fragmentClass options) s1) as (st' & -> & B).
      cbn [default from_option id]. by rewrite (built_styleInjected _ _ _ _ _ _ B).
    - by destruct (truthy _). }
  induction cs as [|c0 cs IH]; intros st H; simpl; auto.
Qed.

Lemma initContainer_idempotent options c st :
  initContainer options c (initContainer options c st) = initContainer options c st.
Proof. apply initContainer_again, initContainer_processed. Qed.

Lemma init_idempotent options cs st :
  init options cs (init options cs st) = init options cs st.
Proof.
  unfold init.
  assert (styleInjected (ensureStyle st) = true) as Hs.
  { unfold ensureStyle. by destruct (styleInjected st) eqn:E. }
  pose proof (foldl_initContainer_styleInjected options cs (ensureStyle st) Hs) as Hs1.
  set (s1 := foldl _ (ensureStyle st) cs) in *.
  assert (ensureStyle s1 = s1) as ->.
  { unfold ensureStyle. by rewrite Hs1. }
  apply foldl_initContainer_again.
  apply (foldl_initContainer_processed options cs (ensureStyle st)).
Qed.

(* ---- The scenario page, torn down ------------------------------------ *)

Definition scenarioClosure : Closure :=
  {| k_uid := "rsvgc-1"; k_container := scenarioContainer;
     k_stepLayers := [layerGroup 3 "Step1"; layerGroup 5 "Step3"];
     k_placeholders := [0; 1] |}.

Lemma scenarioPage_teardownFns : teardownFns (scenarioPage ∅) = [scenarioClosure].
Proof. vm_compute. reflexivity. Defined.

Lemma scenarioPage_Inv : Inv (scenarioPage ∅).
Proof. apply init_Inv, emptyPage_Inv. Defined.

Lemma destroy_cleans_up_witness :
  Inv (scenarioPage ∅) ∧
  scenarioClosure ∈ teardownFns (scenarioPage ∅) ∧
  (∀ entry, entry ∈ listeners (destroy (scenarioPage ∅)) →
     registered Fragmentshown (OnFragmentShown scenarioClosure) entry = false) ∧
  (∀ ph, ph ∈ [0; 1] → SpanChild ph ∉ children (destroy (scenarioPage ∅)) 100) ∧
  (∀ g, g ∈ [layerGroup 3 "Step1"; layerGroup 5 "Step3"] →
        isHidden (destroy (scenarioPage ∅)) g = false).
Proof.
  assert (scenarioClosure ∈ teardownFns (scenarioPage ∅)) as Hin.
  { rewrite scenarioPage_teardownFns. left. }
  destruct (destroy_cleans_up (scenarioPage ∅) scenarioClosure scenarioPage_Inv Hin)
    as (H1 & H2 & H3 & _).
  split; [exact scenarioPage_Inv|]. split; [exact Hin|]. split.
  - intros entry He. exact (proj1 (H1 entry He)).
  - split.
    + intros ph Hph. exact (H2 ph 100 Hph).
    + exact H3.
Defined.

(* A placeholder of a closure is, for its handlers, bound to the step
   layer of the same index. *)
Lemma bound_boundLayer st k i ph :
  bound st k → k_placeholders k !! i = Some ph →
  boundLayer st (k_uid k) (Some ph) = k_stepLayers k !! i.
Proof.
  intros [_ H] Hi. destruct (H i ph Hi) as (e & g & He & Hg & Hl & Hu).
  unfold boundLayer. rewrite He, bool_decide_eq_true_2 by done. congruence.
Qed.

(* ===================================================================== *)
(*  Further properties of the layer step-reveal plugin                   *)
(* ===================================================================== *)

(* ---- Attribute lists: toList ----------------------------------------- *)

Fixpoint has_char (c : ascii) (s : string) : bool :=
  match s with
  | EmptyString => false
  | String c' r => Ascii.eqb c' c || has_char c r
  end.

(* names.join(',') *)
Fixpoint joinComma (names : list string) : string :=
  match names with
  | [] => ""
  | [n] => n
  | n :: rest => String.append n (String "," (joinComma rest))
  end.

Lemma trimEnd_cons c r :
  trimEnd (String c r) =
    match trimEnd r with
    | EmptyString => if is_space c then EmptyString else String c EmptyString
    | String c' r' => String c (String c' r')
    end.
Proof. done. Qed.

Lemma trimEnd_idem s : trimEnd (trimEnd s) = trimEnd s.
Proof.
  induction s as [|c r IH]; [done|]. rewrite trimEnd_cons.
  destruct (trimEnd r) as [|c' r'] eqn:E.
  - destruct (is_space c) eqn:Ec; [done|]. rewrite trimEnd_cons. cbn [trimEnd].
    by rewrite Ec.
  - rewrite trimEnd_cons. by rewrite IH.
Qed.

Definition head_ok (s : string) : Prop :=
  match s with
  | EmptyString => True
  | String c _ => is_space c = false
  end.

Lemma trimStart_head_ok s : head_ok (trimStart s).
Proof.
  induction s as [|c r IH]; [done|]. cbn [trimStart].
  destruct (is_space c) eqn:E; [done|]. exact E.
Qed.

Lemma trimStart_id s : head_ok s → trimStart s = s.
Proof. destruct s as [|c r]; [done|]. cbn. by intros ->. Qed.

Lemma trimEnd_head_ok s : head_ok s → head_ok (trimEnd s).
Proof.
  destruct s as [|c r]; [done|]. cbn [head_ok trimEnd]. intros Hc.
  destruct (trimEnd r); [by rewrite Hc|done].
Qed.

Lemma trim_idem s : trim (trim s) = trim s.
Proof.
  unfold trim.
  rewrite (trimStart_id (trimEnd (trimStart s)))
    by apply trimEnd_head_ok, trimStart_head_ok.
  apply trimEnd_idem.
Qed.

Lemma has_char_trimStart c s : has_char c (trimStart s) = true → has_char c s = true.
Proof.
  induction s as [|c' r IH]; [done|]. cbn [trimStart].
  destruct (is_space c'); [|done]. intros H%IH. cbn. rewrite H. apply orb_true_r.
Qed.

Lemma has_char_trimEnd c s : has_char c (trimEnd s) = true → has_char c s = true.
Proof.
  induction s as [|c' r IH]; [done|]. cbn [trimEnd].
  destruct (trimEnd r) as [|c2 r2] eqn:E.
  - destruct (is_space c'); [done|]. cbn. rewrite orb_false_r. by intros ->.
  - cbn [has_char]. intros [H|H]%orb_prop; [by rewrite H|].
    rewrite IH; [apply orb_true_r|]. exact H.
Qed.

Lemma has_char_trim c s : has_char c s = false → has_char c (trim s) = false.
Proof.
  intros H. destruct (has_char c (trim s)) eqn:E; [|done].
  apply has_char_trimEnd, has_char_trimStart in E. congruence.
Qed.

Lemma split_pieces sep s : Forall (λ p, has_char sep p = false) (split sep s).
Proof.
  induction s as [|c r IH]; [by repeat constructor|]. cbn [split].
  destruct (Ascii.eqb c sep) eqn:E; [by constructor|].
  destruct (split sep r) as [|h t]; [by repeat constructor; cbn; rewrite E|].
  inversion IH as [|? ? Hh Ht]; subst. constructor; [|done]. cbn. by rewrite E.
Qed.

(** X1: every name toList returns is non-empty, carries no white space
    at either end (trim leaves it as it is) and contains no comma. *)
Theorem toList_names_clean attrVal :
  Forall (λ n, n ≠ "" ∧ trim n = n ∧ has_char "," n = false) (toList attrVal).
Proof.
  unfold toList. apply Forall_forall. intros n Hn.
  apply list_elem_of_filter in Hn as [Ht Hn].
  apply list_elem_of_fmap in Hn as (p & -> & Hp).
  pose proof (split_pieces "," (or_else attrVal "")) as Hpieces.
  rewrite Forall_forall in Hpieces. split_and!.
  - intros E. by rewrite E in Ht.
  - apply trim_idem.
  - apply has_char_trim, Hpieces, Hp.
Qed.

Lemma split_no_sep sep n : has_char sep n = false → split sep n = [n].
Proof.
  induction n as [|c r IH]; [done|]. simpl.
  intros [Hc Hr]%orb_false_elim. by rewrite Hc, (IH Hr).
Qed.

Lemma split_app_sep sep n x :
  has_char sep n = false →
  split sep (String.append n (String sep x)) = n :: split sep x.
Proof.
  induction n as [|c r IH]; simpl.
  - intros _. by rewrite Ascii.eqb_refl.
  - intros [Hc Hr]%orb_false_elim. by rewrite Hc, (IH Hr).
Qed.

Lemma split_joinComma names :
  names ≠ [] → Forall (λ n, has_char "," n = false) names →
  split "," (joinComma names) = names.
Proof.
  induction names as [|n rest IH]; [done|]. intros _ Hall.
  inversion Hall as [|? ? Hn Hrest]; subst.
  destruct rest as [|n2 rest]; [by apply split_no_sep|].
  cbn [joinComma]. rewrite split_app_sep by done. f_equal. by apply IH.
Qed.

(** X2: round trip of an attribute value: the comma-joined list of names
    that are non-empty, free of commas and without white space at either
    end is read back by toList as the same list of names. *)
Theorem toList_joinComma names :
  Forall (λ n, n ≠ "" ∧ trim n = n ∧ has_char "," n = false) names →
  toList (Some (joinComma names)) = names.
Proof.
  intros Hall. destruct names as [|n0 rest]; [done|].
  unfold toList.
  assert (or_else (Some (joinComma (n0 :: rest))) "" = joinComma (n0 :: rest)) as ->.
  { unfold or_else. by destruct (truthy _) eqn:E; [|destruct (joinComma (n0 :: rest))]. }
  rewrite split_joinComma; [|done|].
  2: { eapply Forall_impl; [exact Hall|]. by intros n (_ & _ & ?). }
  generalize dependent (n0 :: rest). intros names Hall.
  induction Hall as [|n names (Hne & Htrim & _) Hall IH]; [done|].
  cbn [map]. rewrite filter_cons_True; [by rewrite Htrim, IH|].
  rewrite Htrim. by destruct n.
Qed.

Lemma toList_joinComma_witness :
  Forall (λ n, n ≠ "" ∧ trim n = n ∧ has_char "," n = false) ["Intro"; "Step 1"; "Step 2"] ∧
  joinComma ["Intro"; "Step 1"; "Step 2"] = "Intro,Step 1,Step 2" ∧
  toList (Some "Intro,Step 1,Step 2") = ["Intro"; "Step 1"; "Step 2"].
Proof.
  assert (Forall (λ n, n ≠ "" ∧ trim n = n ∧ has_char "," n = false)
                 ["Intro"; "Step 1"; "Step 2"]) as H.
  { repeat constructor; discriminate. }
  split; [exact H|]. split; [reflexivity|].
  exact (toList_joinComma ["Intro"; "Step 1"; "Step 2"] H).
Defined.

(* ---- findLayers and the classification ------------------------------- *)

Lemma filter_nil_Forall {A} (P : A → Prop) `{!∀ x, Decision (P x)} (l : list A) :
  filter P l = [] ↔ Forall (λ x, ¬ P x) l.
Proof.
  induction l as [|x l IH]; [done|]. destruct (decide (P x)) as [Hx|Hx].
  - rewrite filter_cons_True by done. split; [done|].
    intros Hall. inversion Hall; subst. done.
  - rewrite filter_cons_False by done. rewrite IH. split.
    + by constructor.
    + intros Hall. by inversion Hall.
Qed.

Lemma Forall_filter_same {A} (P : A → Prop) `{!∀ x, Decision (P x)} (l : list A) :
  Forall P (filter P l).
Proof. apply Forall_forall. intros x Hx. by apply list_elem_of_filter in Hx as [? _]. Qed.

(** X3: findLayers returns group elements only; it returns none exactly
    when the graphic has no group among its descendants; and when some
    descendant is an Inkscape layer group, every element returned is one
    (the fallbacks are not mixed in). *)
Theorem findLayers_groups svg :
  Forall (λ el, is_g el) (findLayers svg) ∧
  (findLayers svg = [] ↔ Forall (λ el, ¬ is_g el) (descendants svg)) ∧
  (Exists (λ el, sel_layer el) (descendants svg) →
   Forall (λ el, sel_layer el) (findLayers svg)).
Proof.
  assert (∀ el, sel_layer el → is_g el) as Hlg.
  { intros el. unfold sel_layer. by intros [? _]%andb_prop_elim. }
  assert (∀ el, sel_g_id el → is_g el) as Hig.
  { intros el. unfold sel_g_id. by intros [? _]%andb_prop_elim. }
  unfold findLayers.
  destruct (filter (λ el, sel_layer el) (descendants svg)) as [|x l] eqn:E1.
  - destruct (filter (λ el, sel_g_id el) (childNodes svg)) as [|y k] eqn:E2.
    + split_and!.
      * apply Forall_filter_same.
      * apply filter_nil_Forall.
      * intros Hex. apply filter_nil_Forall in E1.
        apply Exists_exists in Hex as (el & Hel & Hs).
        rewrite Forall_forall in E1. by destruct (E1 el Hel).
    + split_and!.
      * rewrite <- E2. eapply Forall_impl; [apply Forall_filter_same|]. apply Hig.
      * split; [done|]. intros Hall. exfalso.
        assert (y ∈ filter (λ el, sel_g_id el) (childNodes svg)) as Hy
          by (rewrite E2; left).
        apply list_elem_of_filter in Hy as [Hy Hin].
        rewrite Forall_forall in Hall. apply (Hall y); [|by apply Hig].
        rewrite descendants_forest.
        eapply elem_of_sublist; [exact Hin|apply childNodes_sublist_forest].
      * intros Hex. apply filter_nil_Forall in E1.
        apply Exists_exists in Hex as (el & Hel & Hs).
        rewrite Forall_forall in E1. by destruct (E1 el Hel).
  - rewrite <- E1. split_and!.
    + eapply Forall_impl; [apply Forall_filter_same|]. apply Hlg.
    + rewrite E1. split; [done|]. intros Hall. exfalso.
      assert (x ∈ filter (λ el, sel_layer el) (descendants svg)) as Hx
        by (rewrite E1; left).
      apply list_elem_of_filter in Hx as [Hx Hin].
      rewrite Forall_forall in Hall. apply (Hall x Hin). by apply Hlg.
    + intros _. apply Forall_filter_same.
Qed.

(** X4: base and step layers are disjoint parts of what findLayers found:
    a base layer has its name in the base set and a step layer has not;
    every step layer is one of the groups found; and without an include
    list, base and step layers together are all the groups found, each
    once. *)
Theorem classify_partitions container svg :
  Forall (λ g, byName g ∈ baseSetOf container) (classify container svg).1 ∧
  Forall (λ g, (byName g ∉ baseSetOf container) ∧ g ∈ findLayers svg)
         (classify container svg).2 ∧
  (includeListOf container = [] →
   (classify container svg).1 ++ (classify container svg).2 ≡ₚ findLayers svg).
Proof.
  split_and!.
  - rewrite classify_base. apply Forall_filter_same.
  - apply Forall_forall. intros g Hg. split; [by eapply stepLayers_not_base|].
    apply classify_step_candidates in Hg. unfold stepCandidates in Hg.
    by apply list_elem_of_filter in Hg as [_ ?].
  - intros Hinc. rewrite classify_base, classify_step, Hinc.
    pose proof (filter_app_complement (λ g, byName g ∈ baseSetOf container)
                  (findLayers svg)) as Hperm.
    destruct (String.eqb _ _); [|exact Hperm].
    unfold stepCandidates. by rewrite reverse_Permutation.
Qed.

(** X5: classification goes by lower-cased names only: two containers
    whose base lists agree up to letter case, whose include lists agree
    up to letter case and whose order directive is the same classify the
    groups of a graphic in the same way. *)
Theorem classify_case_insensitive c1 c2 svg :
  map toLowerCase (baseListOf c1) = map toLowerCase (baseListOf c2) →
  map toLowerCase (includeListOf c1) = map toLowerCase (includeListOf c2) →
  orderOf c1 = orderOf c2 →
  classify c1 svg = classify c2 svg.
Proof.
  intros Hb Hi Ho.
  assert (baseSetOf c1 = baseSetOf c2) as Hset by (unfold baseSetOf; by rewrite Hb).
  assert (stepCandidates c1 svg = stepCandidates c2 svg) as Hc
    by (unfold stepCandidates; by rewrite Hset).
  apply injective_projections.
  - rewrite !classify_base. by rewrite Hset.
  - rewrite !classify_step, Hc, Ho.
    destruct (includeListOf c1) as [|a l1] eqn:E1,
             (includeListOf c2) as [|b l2] eqn:E2; try done.
    assert (∀ m l, pickIncluded m l =
                   omap id (map (λ n, m !! n) (map toLowerCase l))) as Hpick.
    { intros m l. unfold pickIncluded. by rewrite List.map_map. }
    by rewrite !Hpick, Hi.
Qed.

Lemma classify_case_insensitive_witness :
  let c1 := containerWith [("data-base", "Axes,Grid"); ("data-include", "Step1,Step3");
                           ("data-order", "reverse")] in
  let c2 := containerWith [("data-base", "AXES, grid"); ("data-include", "STEP1 ,step3");
                           ("data-order", "Reverse")] in
  map toLowerCase (baseListOf c1) = map toLowerCase (baseListOf c2) ∧
  map toLowerCase (includeListOf c1) = map toLowerCase (includeListOf c2) ∧
  orderOf c1 = orderOf c2 ∧
  classify c1 scenarioSvg = classify c2 scenarioSvg.
Proof.
  intros c1 c2. split; [reflexivity|]. split; [reflexivity|]. split; [reflexivity|].
  exact (classify_case_insensitive c1 c2 scenarioSvg eq_refl eq_refl eq_refl).
Defined.

(** X6: when several non-base groups carry the label an include name
    asks for, the name picks the last of them in document order; each
    include name picks at most one group. *)
Theorem include_picks_last container svg :
  includeListOf container ≠ [] →
  (classify container svg).2 =
    omap (λ n, last (filter (λ g, byName g = toLowerCase n)
                            (stepCandidates container svg)))
         (includeListOf container).
Proof.
  intros Hne. rewrite classify_step.
  destruct (includeListOf container) as [|n0 l]; [done|].
  rewrite pickIncluded_omap. generalize (n0 :: l). intros names.
  induction names as [|n names IH]; [done|]. cbn [omap list_omap].
  by rewrite mapByNameOf_lookup, IH.
Qed.

Definition twinSvg : Node :=
  Elem 0 "svg" [] [layerGroup 1 "Axes"; layerGroup 2 "Step"; layerGroup 3 "step";
                   layerGroup 4 "Other"].

Lemma include_picks_last_witness :
  let c := containerWith [("data-base", "Axes"); ("data-include", "STEP")] in
  includeListOf c ≠ [] ∧
  map nid (stepCandidates c twinSvg) = [2; 3; 4] ∧
  map nid (classify c twinSvg).2 = [3].
Proof.
  intros c.
  assert (includeListOf c ≠ []) as Hne by (vm_compute; discriminate).
  split; [exact Hne|]. split; [vm_compute; reflexivity|].
  rewrite (include_picks_last c twinSvg Hne). vm_compute. reflexivity.
Defined.

(* ---- The registry of handlers and environments ----------------------- *)

Definition uidOf (n : nat) : string :=
  String.append "rsvgc" (String.append "-" (pretty n)).

Lemma string_append_inv_head a x y : String.append a x = String.append a y → x = y.
Proof. induction a as [|c a IH]; simpl; [done|]. intros [= H]. by apply IH. Qed.

Lemma uidOf_inj n m : uidOf n = uidOf m → n = m.
Proof.
  unfold uidOf. intros H. do 2 apply string_append_inv_head in H.
  by apply (inj pretty) in H.
Qed.

(* The deck's listeners are the handlers of the environments kept for
   teardown, and the environments carry distinct uids handed out by
   uniqId. *)
Definition registry_wf (st : State) : Prop :=
  listeners st = flat_map handlersOf (teardownFns st) ∧
  NoDup (map k_uid (teardownFns st)) ∧
  Forall (λ k, ∃ n, 1 ≤ n ≤ counter st ∧ k_uid k = uidOf n) (teardownFns st).

Lemma registry_wf_ext st st' :
  listeners st' = listeners st → teardownFns st' = teardownFns st →
  counter st' = counter st → registry_wf st → registry_wf st'.
Proof. unfold registry_wf. by intros -> -> ->. Qed.

Lemma touches_registry_wf N st st' : touches N st st' → registry_wf st → registry_wf st'.
Proof.
  intros T. apply registry_wf_ext;
    [apply (touches_listeners _ _ _ T)|apply (touches_teardownFns _ _ _ T)
    |apply (touches_counter _ _ _ T)].
Qed.

Lemma Built_registry_wf container svg fc st k st' :
  Built container svg fc st k st' → registry_wf st → registry_wf st'.
Proof.
  intros B (Hl & Hnd & Hall). unfold registry_wf.
  rewrite (built_listeners _ _ _ _ _ _ B), (built_teardownFns _ _ _ _ _ _ B),
    (built_counter _ _ _ _ _ _ B).
  pose proof (built_uid _ _ _ _ _ _ B) as Hu. fold (uidOf (S (counter st))) in Hu.
  split_and!.
  - rewrite flat_map_app, Hl. reflexivity.
  - rewrite map_app. apply NoDup_app. split_and!; [done| |].
    + intros u Hin Hin'. simpl in Hin'. apply list_elem_of_singleton in Hin'. subst u.
      apply list_elem_of_fmap in Hin as (k' & Hk' & Hin).
      rewrite Forall_forall in Hall. destruct (Hall k' Hin) as (n & Hn & Hun).
      rewrite Hu, Hun in Hk'. apply uidOf_inj in Hk'. lia.
    + simpl. apply NoDup_singleton.
  - apply Forall_app. split.
    + eapply Forall_impl; [exact Hall|]. intros k' (n & Hn & Hun). exists n. split; [lia|done].
    + constructor; [|done]. exists (S (counter st)). split; [lia|done].
Qed.

Lemma removeElem_teardownFns st ph : teardownFns (removeElem st ph) = teardownFns st.
Proof. unfold removeElem. by repeat case_match. Qed.

Lemma removeElem_counter st ph : counter (removeElem st ph) = counter st.
Proof. unfold removeElem. by repeat case_match. Qed.

Lemma removeElem_processed st ph : SvgLayers.processed (removeElem st ph) = SvgLayers.processed st.
Proof. unfold removeElem. by repeat case_match. Qed.

Lemma removeElem_styleInjected st ph : styleInjected (removeElem st ph) = styleInjected st.
Proof. unfold removeElem. by repeat case_match. Qed.

Lemma foldl_removeElem_fields l st :
  teardownFns (foldl removeElem st l) = teardownFns st ∧
  counter (foldl removeElem st l) = counter st ∧
  SvgLayers.processed (foldl removeElem st l) = SvgLayers.processed st ∧
  styleInjected (foldl removeElem st l) = styleInjected st.
Proof.
  revert st. induction l as [|x l IH]; intros st; simpl; [done|].
  destruct (IH (removeElem st x)) as (-> & -> & -> & ->).
  by rewrite removeElem_teardownFns, removeElem_counter, removeElem_processed,
    removeElem_styleInjected.
Qed.

Lemma teardown_fields st k :
  teardownFns (teardown st k) = teardownFns st ∧
  counter (teardown st k) = counter st ∧
  SvgLayers.processed (teardown st k) = SvgLayers.processed st ∧
  styleInjected (teardown st k) = styleInjected st.
Proof.
  unfold teardown.
  pose proof (foldl_showLayer_touches (λ _, True) (k_stepLayers k)
                (foldl removeElem
                   (deck_off Slidechanged (OnSlideChanged k)
                      (deck_off Fragmenthidden (OnFragmentHidden k)
                         (deck_off Fragmentshown (OnFragmentShown k) st)))
                   (k_placeholders k)) (λ _ _, I)) as T.
  rewrite (touches_teardownFns _ _ _ T), (touches_counter _ _ _ T),
    (touches_processed _ _ _ T), (touches_styleInjected _ _ _ T).
  match goal with
  | |- context [foldl removeElem ?s ?l] =>
      destruct (foldl_removeElem_fields l s) as (-> & -> & -> & ->)
  end.
  done.
Qed.

Lemma foldl_teardown_fields tds : ∀ st,
  counter (foldl teardown st tds) = counter st ∧
  SvgLayers.processed (foldl teardown st tds) = SvgLayers.processed st ∧
  styleInjected (foldl teardown st tds) = styleInjected st.
Proof.
  induction tds as [|k tds IH]; intros st; simpl; [done|].
  destruct (IH (teardown st k)) as (-> & -> & ->).
  by destruct (teardown_fields st k) as (_ & -> & -> & ->).
Qed.

Lemma registeredBy_handlersOf k entry :
  entry ∈ handlersOf k → registeredBy k entry = true.
Proof.
  unfold handlersOf, registeredBy, registered. intros H.
  repeat (apply elem_of_cons in H as [->|H]);
    [..|by apply elem_of_nil in H]; simpl; rewrite String.eqb_refl;
    simpl; rewrite ?orb_true_r; done.
Qed.

(* Tearing down every environment some listener belongs to leaves no
   listener. *)
Lemma foldl_teardown_clears tds : ∀ st,
  (∀ entry, entry ∈ listeners st → ∃ k, k ∈ tds ∧ registeredBy k entry = true) →
  listeners (foldl teardown st tds) = [].
Proof.
  induction tds as [|k0 tds IH]; intros st H; simpl.
  - destruct (listeners st) as [|e l]; [done|].
    destruct (H e) as (k & Hk & _); [left|]. by apply elem_of_nil in Hk.
  - apply IH. intros entry He. apply teardown_listeners in He as [He Hr].
    destruct (H entry He) as (k & Hk & Hrk).
    apply elem_of_cons in Hk as [->|Hk]; [congruence|]. by exists k.
Qed.

Lemma destroy_registry_wf st : registry_wf st → registry_wf (destroy st) ∧
  listeners (destroy st) = [] ∧ teardownFns (destroy st) = [].
Proof.
  intros (Hl & _ & _).
  assert (listeners (destroy st) = []) as Hnil.
  { unfold destroy. simpl. apply foldl_teardown_clears. intros entry He.
    rewrite Hl in He. apply list_elem_of_In, in_flat_map in He as (k & Hk & He).
    exists k. split; [by apply list_elem_of_In|].
    by apply registeredBy_handlersOf, list_elem_of_In. }
  split_and!; [|done|done]. unfold registry_wf. rewrite Hnil. simpl.
  split_and!; [done|constructor|constructor].
Qed.

Lemma initContainer_registry_wf options c st :
  registry_wf st → registry_wf (initContainer options c st).
Proof.
  intros W. unfold initContainer. case_bool_decide; [done|]. cbv zeta.
  set (s1 := set_processed _ st).
  assert (registry_wf s1) as W1 by (by eapply registry_wf_ext).
  destruct (querySelectorSvg c s1) as [svg|].
  - unfold buildSteps.
    destruct (buildSteps_env_Built c svg (fragmentClass options) s1) as (st' & -> & B).
    by eapply Built_registry_wf.
  - destruct (truthy _); [|done]. by eapply registry_wf_ext.
Qed.

Lemma initContainer_resume_registry_wf options i res st :
  registry_wf st → registry_wf (initContainer_resume options i res st).
Proof.
  intros W. unfold initContainer_resume.
  destruct (pending st !! i) as [[c src]|]; [|done].
  set (s1 := set_pending _ st).
  assert (registry_wf s1) as W1 by (by eapply registry_wf_ext).
  unfold inlineExternalSvg. destruct res as [msg|[|] doc].
  - by eapply registry_wf_ext.
  - match goal with |- context [SvgChild ?s] => set (svg := s) end.
    unfold buildSteps.
    destruct (buildSteps_env_Built c svg (fragmentClass options)
                (appendChild c (SvgChild svg) s1)) as (st' & -> & B).
    eapply Built_registry_wf; [exact B|]. by eapply registry_wf_ext.
  - by eapply registry_wf_ext.
Qed.

Lemma step_registry_wf options st a :
  registry_wf st → registry_wf (SvgLayers.step options st a).
Proof.
  intros W. destruct a; simpl.
  - eapply touches_registry_wf; [apply dispatch_touches|done].
  - eapply touches_registry_wf; [apply dispatch_touches|done].
  - eapply touches_registry_wf; [apply dispatch_touches|done].
  - unfold setVisible. destruct (heap st !! fragment); [|done].
    by eapply registry_wf_ext.
  - unfold init.
    assert (registry_wf (ensureStyle st)) as W0.
    { unfold ensureStyle. destruct (styleInjected st); [done|by eapply registry_wf_ext]. }
    revert W0. generalize (ensureStyle st).
    induction containers as [|c cs IH]; intros s Ws; simpl; [done|].
    by apply IH, initContainer_registry_wf.
  - by apply initContainer_resume_registry_wf.
  - by apply destroy_registry_wf.
Qed.

(** X7: at every moment of a page's life the deck's listeners are exactly
    the three handlers of each environment kept for teardown, in
    registration order, and these environments carry pairwise distinct
    uids. *)
Theorem registry_invariant options classes authored fresh acts :
  listeners (SvgLayers.run options (initialState classes authored fresh) acts) =
    flat_map handlersOf
      (teardownFns (SvgLayers.run options (initialState classes authored fresh) acts)) ∧
  NoDup (map k_uid
           (teardownFns (SvgLayers.run options (initialState classes authored fresh) acts))).
Proof.
  assert (registry_wf (initialState classes authored fresh)) as W0.
  { split_and!; [done|constructor|constructor]. }
  assert (∀ st, registry_wf st → registry_wf (SvgLayers.run options st acts)) as Hrun.
  { unfold SvgLayers.run. induction acts as [|a l IH]; intros st W; simpl; [done|].
    by apply IH, step_registry_wf. }
  destruct (Hrun _ W0) as (H1 & H2 & _). by split.
Qed.

(** X8: after destroy no listener is left on the deck and teardownFns is
    empty, whatever the page went through before; a second destroy
    changes nothing. *)
Theorem destroy_leaves_no_listener options classes authored fresh acts :
  listeners (destroy (SvgLayers.run options (initialState classes authored fresh) acts)) = [] ∧
  teardownFns (destroy (SvgLayers.run options (initialState classes authored fresh) acts)) = [] ∧
  destroy (destroy (SvgLayers.run options (initialState classes authored fresh) acts)) =
    destroy (SvgLayers.run options (initialState classes authored fresh) acts).
Proof.
  assert (registry_wf (initialState classes authored fresh)) as W0.
  { split_and!; [done|constructor|constructor]. }
  assert (∀ st, registry_wf st → registry_wf (SvgLayers.run options st acts)) as Hrun.
  { unfold SvgLayers.run. induction acts as [|a l IH]; intros st W; simpl; [done|].
    by apply IH, step_registry_wf. }
  destruct (destroy_registry_wf _ (Hrun _ W0)) as (_ & Hl & Ht).
  split_and!; [done|done|].
  generalize dependent (destroy (SvgLayers.run options (initialState classes authored fresh) acts)).
  intros s Hl Ht. unfold destroy at 1. rewrite Ht. simpl. destruct s; simpl in *. by subst.
Qed.

(** X9: destroy does not make a container initialisable again: the
    processed mark survives it, so an init over the same containers after
    a destroy leaves the page as destroy left it (no placeholder, no
    listener, no environment is created). *)
Theorem init_after_destroy_is_noop options cs st :
  init options cs (destroy (init options cs st)) = destroy (init options cs st).
Proof.
  set (s1 := init options cs st).
  assert (styleInjected s1 = true) as Hs.
  { unfold s1, init. apply foldl_initContainer_styleInjected.
    unfold ensureStyle. by destruct (styleInjected st) eqn:E. }
  assert (∀ c, c ∈ cs → c_id c ∈ SvgLayers.processed s1) as Hp.
  { apply (foldl_initContainer_processed options cs (ensureStyle st)). }
  destruct (foldl_teardown_fields (teardownFns s1) s1) as (_ & Hp' & Hs').
  unfold init.
  assert (ensureStyle (destroy s1) = destroy s1) as ->.
  { unfold ensureStyle. unfold destroy at 1. simpl. by rewrite Hs', Hs. }
  apply foldl_initContainer_again. intros c Hc. unfold destroy. simpl.
  rewrite Hp'. by apply Hp.
Qed.

(* ---- The only class the plugin writes -------------------------------- *)

(* The class list of a parsed element without the token rsvg-hidden. *)
Definition otherClasses (st : State) (n : nat) : list string :=
  classList_remove "rsvg-hidden" (default [] (layerClass st !! n)).

Definition keeps_classes (st st' : State) : Prop :=
  ∀ n, otherClasses st' n = otherClasses st n.

Lemma keeps_classes_refl st : keeps_classes st st.
Proof. done. Qed.

















(* ---- Resynchronisation ----------------------------------------------- *)

(* Some placeholder among phs is visible and stores the layer g. *)
Definition shownBy (st : State) (phs : list nat) (g : Node) : Prop :=
  ∃ ph e g', ph ∈ phs ∧ heap st !! ph = Some e ∧
             classList_contains "visible" (e_classList e) = true ∧
             e_rsvgLayer e = Some g' ∧ nid g' = nid g.

Lemma isHidden_showLayer_iff st el g :
  isHidden (showLayer st el) g = false ↔ nid g = nid el ∨ isHidden st g = false.
Proof.
  split.
  - intros H. destruct (decide (nid g = nid el)) as [E|E]; [by left|right].
    unfold isHidden in *. by rewrite classOf_showLayer_other in H.
  - intros [E|H]; [by apply isHidden_showLayer|by apply isHidden_showLayer_false].
Qed.

Lemma isHidden_foldl_hideLayer l st g :
  g ∈ l → isHidden (foldl hideLayer st l) g = true.
Proof.
  assert (∀ l s, isHidden s g = true → isHidden (foldl hideLayer s l) g = true) as Hk.
  { clear. induction l as [|y l IH]; intros s H; simpl; [done|]. apply IH.
    destruct (decide (nid g = nid y)) as [E|E].
    - by apply isHidden_hideLayer.
    - unfold isHidden. by rewrite classOf_hideLayer_other. }
  revert st. induction l as [|x l IH]; intros st Hg; simpl.
  - by apply elem_of_nil in Hg.
  - apply elem_of_cons in Hg as [->|Hg]; [|by apply IH].
    apply Hk. by apply isHidden_hideLayer.
Qed.

Lemma sync_loop st phs : ∀ s,
  heap s = heap st →
  (∀ ph, ph ∈ phs → ∃ e g, heap st !! ph = Some e ∧ e_rsvgLayer e = Some g) →
  ∃ s', forEachM (λ st ph,
                    match heap st !! ph with
                    | Some e =>
                        if classList_contains "visible" (e_classList e)
                        then showLayerRef st (e_rsvgLayer e) else Some st
                    | None => None
                    end) phs s = Some s' ∧
        heap s' = heap st ∧
        ∀ g, isHidden s' g = false ↔ (isHidden s g = false ∨ shownBy st phs g).
Proof.
  induction phs as [|ph phs IH]; intros s Hs Hall; simpl.
  - exists s. split_and!; [done|done|]. intros g. split; [by left|].
    intros [H|(ph & e & g' & Hin & _)]; [done|]. by apply elem_of_nil in Hin.
  - destruct (Hall ph) as (e & g0 & He & Hg0); [left|]. rewrite Hs, He.
    assert (∀ x, x ∈ phs → ∃ e g, heap st !! x = Some e ∧ e_rsvgLayer e = Some g) as Hall'
      by (intros x Hx; apply Hall; by right).
    destruct (classList_contains "visible" (e_classList e)) eqn:Ev.
    + rewrite Hg0. simpl.
      destruct (IH (showLayer s g0)) as (s' & Hr & Hh & Hiff); [done|done|].
      exists s'. split_and!; [done|done|]. intros g. rewrite Hiff, isHidden_showLayer_iff.
      split.
      * intros [[E|H]|(x & e' & g' & Hin & Hrest)].
        -- right. exists ph, e, g0. split_and!; [left|done|done|done|done].
        -- by left.
        -- right. exists x, e', g'. split; [by right|done].
      * intros [H|(x & e' & g' & Hin & He' & Hv & Hg' & En)]; [left; by right|].
        apply elem_of_cons in Hin as [->|Hin].
        -- left. left. rewrite He in He'. injection He' as <-.
           rewrite Hg0 in Hg'. injection Hg' as <-. done.
        -- right. by exists x, e', g'.
    + destruct (IH s) as (s' & Hr & Hh & Hiff); [done|done|].
      exists s'. split_and!; [done|done|]. intros g. rewrite Hiff. split.
      * intros [H|(x & e' & g' & Hin & Hrest)]; [by left|].
        right. exists x, e', g'. split; [by right|done].
      * intros [H|(x & e' & g' & Hin & He' & Hv & Hrest)]; [by left|].
        apply elem_of_cons in Hin as [->|Hin]; [congruence|].
        right. by exists x, e', g'.
Qed.

Lemma sync_spec k st :
  (∀ ph, ph ∈ k_placeholders k →
         ∃ e g, heap st !! ph = Some e ∧ e_rsvgLayer e = Some g) →
  ∃ st', syncFromVisibleFragments k st = Some st' ∧
         heap st' = heap st ∧
         ∀ g, g ∈ k_stepLayers k →
              (isHidden st' g = false ↔ shownBy st (k_placeholders k) g).
Proof.
  intros Hall. unfold syncFromVisibleFragments.
  set (s0 := foldl hideLayer st (k_stepLayers k)).
  assert (heap s0 = heap st) as H0.
  { eapply (touches_heap (λ _, True)), foldl_hideLayer_touches. done. }
  destruct (sync_loop st (k_placeholders k) s0 H0 Hall) as (s' & Hr & Hh & Hiff).
  exists s'. split_and!; [done|done|]. intros g Hg. rewrite Hiff.
  pose proof (isHidden_foldl_hideLayer (k_stepLayers k) st g Hg) as Hhid.
  fold s0 in Hhid. split; [|by right]. intros [H|H]; [congruence|done].
Qed.

Lemma bound_has_layer st k :
  bound st k →
  ∀ ph, ph ∈ k_placeholders k → ∃ e g, heap st !! ph = Some e ∧ e_rsvgLayer e = Some g.
Proof.
  intros [_ H] ph Hph. apply list_elem_of_lookup in Hph as [i Hi].
  destruct (H i ph Hi) as (e & g & He & _ & Hl & _). by exists e, g.
Qed.

(** X11: a slide-changed event for a slide that contains the container
    resynchronises its layers: afterwards a step layer is visible exactly
    when some placeholder storing it is visible (carries the class
    visible), whatever the layers showed before; placeholders are not
    touched. *)
Theorem slide_change_resyncs k current st :
  bound st k →
  c_id (k_container k) ∈ current →
  ∃ st', onSlideChanged k (Some current) st = Some st' ∧
         heap st' = heap st ∧
         ∀ g, g ∈ k_stepLayers k →
              (isHidden st' g = false ↔ shownBy st (k_placeholders k) g).
Proof.
  intros Hb Hc. unfold onSlideChanged. rewrite bool_decide_eq_true_2 by done.
  by apply sync_spec, bound_has_layer.
Qed.

Lemma scenarioPage_bound acts :
  bound (SvgLayers.run defaults (scenarioPage ∅) acts) scenarioClosure.
Proof.
  eapply bound_heap_le; [apply run_Inv, scenarioPage_Inv|].
  split; [reflexivity|]. intros i ph Hi.
  destruct i as [|[|i]]; simpl in Hi; [| |discriminate]; injection Hi as <-.
  - eexists _, _. split; [vm_compute; reflexivity|]. by split_and!.
  - eexists _, _. split; [vm_compute; reflexivity|]. by split_and!.
Defined.

(* Jumping to the second step: only the placeholder of Step3 is visible
   when the slide comes into view. *)
Lemma slide_change_resyncs_witness :
  let st := SvgLayers.run defaults (scenarioPage ∅)
              [DeckSetVisible 0 true; DeckFragmentShown (Some 0);
               DeckSetVisible 0 false; DeckSetVisible 1 true] in
  bound st scenarioClosure ∧
  c_id (k_container scenarioClosure) ∈ [100] ∧
  isHidden st (layerGroup 3 "Step1") = false ∧
  ∃ st', onSlideChanged scenarioClosure (Some [100]) st = Some st' ∧
         isHidden st' (layerGroup 3 "Step1") = true ∧
         isHidden st' (layerGroup 5 "Step3") = false.
Proof.
  intros st.
  assert (bound st scenarioClosure) as Hb by apply scenarioPage_bound.
  assert (c_id (k_container scenarioClosure) ∈ [100]) as Hc by left.
  split; [exact Hb|]. split; [exact Hc|]. split; [vm_compute; reflexivity|].
  destruct (slide_change_resyncs scenarioClosure [100] st Hb Hc) as (st' & Hr & _ & _).
  exists st'. split; [exact Hr|].
  assert (Some st' = onSlideChanged scenarioClosure (Some [100]) st) as E by done.
  vm_compute in E. injection E as ->. vm_compute. auto.
Defined.

(* ---- The placeholders buildSteps creates ----------------------------- *)

Lemma words_placeholderClassName extraFrag :
  words (placeholderClassName extraFrag) =
    "fragment" :: "rsvg-fragment" :: words extraFrag.
Proof. destruct extraFrag as [|c r]; reflexivity. Qed.

Lemma elem_of_foldl_classList_add tok tokens : ∀ acc,
  tok ∈ foldl (λ l t, classList_add t l) acc tokens ↔ tok ∈ acc ∨ tok ∈ tokens.
Proof.
  induction tokens as [|x tokens IH]; intros acc; cbn [foldl].
  - split; [by left|]. intros [H|H]; [done|]. by apply elem_of_nil in H.
  - rewrite IH, elem_of_cons. unfold classList_add.
    destruct (decide (x ∈ acc)) as [Hx|Hx].
    + split; [tauto|]. intros [H|[->|H]]; tauto.
    + rewrite elem_of_app, list_elem_of_singleton. tauto.
Qed.

Lemma elem_of_tokenSet tok tokens : tok ∈ tokenSet tokens ↔ tok ∈ tokens.
Proof.
  unfold tokenSet. rewrite elem_of_foldl_classList_add. split; [|by right].
  intros [H|H]; [|done]. by apply elem_of_nil in H.
Qed.

Lemma NoDup_foldl_classList_add tokens : ∀ acc,
  NoDup acc → NoDup (foldl (λ l t, classList_add t l) acc tokens).
Proof.
  induction tokens as [|x tokens IH]; intros acc Hacc; cbn [foldl]; [done|].
  apply IH. unfold classList_add. destruct (decide (x ∈ acc)) as [Hx|Hx]; [done|].
  apply NoDup_app. split_and!; [done| |apply NoDup_singleton].
  intros y Hy ->%list_elem_of_singleton. done.
Qed.

(** X12: the placeholders buildSteps creates are the last children of the
    container, in step order; placeholder i is a span with the classes
    fragment and rsvg-fragment followed by the extra fragment classes
    (those of data-fragment-class when the container has a non-empty one,
    else those of the plugin option), each class once, at the place of
    its first occurrence; it carries the uid of its environment and i as
    its data-rsvg-index. *)
Theorem placeholders_are_fragments container svg fragmentClass st :
  ∃ st', buildSteps container svg fragmentClass st = Some st' ∧
    (let k := (buildSteps_env container svg fragmentClass st).1 in
     children st' (c_id container) =
       children st (c_id container) ++ map SpanChild (k_placeholders k) ∧
     ∀ i ph, k_placeholders k !! i = Some ph →
       ∃ e, heap st' !! ph = Some e ∧
            e_tag e = "span" ∧
            e_parent e = Some (c_id container) ∧
            e_classList e =
              tokenSet ("fragment" :: "rsvg-fragment" ::
                        words (or_else (or_opt (c_getAttribute container "data-fragment-class")
                                               (Some fragmentClass)) "")) ∧
            NoDup (e_classList e) ∧
            e_getAttribute e "data-rsvg-uid" = Some (k_uid k) ∧
            e_getAttribute e "data-rsvg-index" = Some (pretty i)).
Proof.
  destruct (buildSteps_env_Built container svg fragmentClass st) as (st' & Hst' & B).
  exists st'. split; [exact Hst'|]. cbv zeta.
  split; [apply (built_children _ _ _ _ _ _ B)|].
  intros i ph Hi. rewrite (built_placeholders _ _ _ _ _ _ B) in Hi.
  apply lookup_seq in Hi as [-> Hi].
  destruct (lookup_lt_is_Some_2 _ i Hi) as [g Hg].
  eexists. split; [by apply (built_heap_new _ _ _ _ _ _ B)|].
  cbn [e_tag e_parent e_classList placeholderFor]. unfold classList_of.
  rewrite words_placeholderClassName. split_and!; try done.
  by apply NoDup_foldl_classList_add, NoDup_nil.
Qed.

(** X13: buildSteps starts with every step layer hidden, unless the extra
    fragment classes contain the class visible: when they do not, each
    step layer carries rsvg-hidden once buildSteps returns, and each base
    layer that is not also a step layer is visible. *)
Theorem steps_start_hidden container svg fragmentClass st :
  "visible" ∉ words (extraFragOf container fragmentClass) →
  ∃ st', buildSteps container svg fragmentClass st = Some st' ∧
         (∀ g, g ∈ (classify container svg).2 → isHidden st' g = true) ∧
         (∀ g, g ∈ (classify container svg).1 →
               nid g ∉ map nid (classify container svg).2 → isHidden st' g = false).
Proof.
  intros Hvis.
  destruct (buildSteps_env_Built container svg fragmentClass st) as (st' & Hst' & B).
  exists st'. split; [exact Hst'|].
  destruct (buildSteps_env_layers _ _ _ _ _ Hst') as [_ Vb]. split; [|exact Vb].
  pose proof (Built_bound _ _ _ _ _ _ B) as Hb.
  pose proof (built_placeholders _ _ _ _ _ _ B) as Hphs.
  pose proof (built_heap_new _ _ _ _ _ _ B) as Hnew.
  pose proof (built_stepLayers _ _ _ _ _ _ B) as Hsteps.
  revert Hst' Hb Hphs Hnew Hsteps. unfold buildSteps_env. cbn zeta. cbn [fst snd].
  match goal with
  | |- syncFromVisibleFragments ?k0 ?s0 = _ → _ => set (k := k0); set (s5 := s0)
  end.
  intros Hsync Hb Hphs Hnew Hsteps.
  assert (heap s5 = heap st') as Hh5.
  { symmetry. eapply (touches_heap (λ _, True)).
    eapply syncFromVisibleFragments_touches; [done| |exact Hsync]. done. }
  destruct (sync_spec k s5) as (st'' & Hr & _ & Hiff).
  { intros ph Hph. rewrite Hh5. by apply (bound_has_layer st' k). }
  pose proof (eq_trans (eq_sym Hr) Hsync) as Heq. injection Heq as ->.
  intros g Hg. destruct (isHidden st' g) eqn:E; [done|]. exfalso.
  apply Hiff in E; [|exact Hg].
  destruct E as (ph & e & g' & Hph & He & Hv & _).
  rewrite Hphs in Hph. apply list_elem_of_lookup in Hph as [j Hj].
  apply lookup_seq in Hj as [-> Hj].
  destruct (lookup_lt_is_Some_2 _ j Hj) as [gj Hgj].
  rewrite Hh5, (Hnew j gj Hgj) in He. injection He as <-.
  cbn [e_classList placeholderFor] in Hv. unfold classList_of in Hv.
  rewrite words_placeholderClassName in Hv.
  apply bool_decide_eq_true in Hv. rewrite elem_of_tokenSet in Hv.
  apply elem_of_cons in Hv as [Hv|Hv]; [discriminate|].
  apply elem_of_cons in Hv as [Hv|Hv]; [discriminate|]. by apply Hvis.
Qed.

Lemma steps_start_hidden_witness :
  ("visible" ∉ words (extraFragOf scenarioContainer "fade-in")) ∧
  ∃ st', buildSteps scenarioContainer scenarioSvg "fade-in" emptyPage = Some st' ∧
         isHidden st' (layerGroup 3 "Step1") = true ∧
         isHidden st' (layerGroup 5 "Step3") = true ∧
         isHidden st' (layerGroup 1 "Axes") = false.
Proof.
  assert ("visible" ∉ words (extraFragOf scenarioContainer "fade-in")) as Hv.
  { vm_compute. intros H. apply elem_of_cons in H as [H|H]; [discriminate|].
    by apply elem_of_nil in H. }
  split; [exact Hv|].
  destruct (steps_start_hidden scenarioContainer scenarioSvg "fade-in" emptyPage Hv)
    as (st' & Hst' & Hs & Hbv).
  exists st'. split; [exact Hst'|]. rewrite scenario_classify in Hs, Hbv.
  split; [apply Hs; left|]. split; [apply Hs; right; left|].
  apply Hbv; [left|]. cbn. intros H.
  apply elem_of_cons in H as [H|H]; [discriminate|].
  apply elem_of_cons in H as [H|H]; [discriminate|]. by apply elem_of_nil in H.
Defined.

(* ---- A graphic that loads -------------------------------------------- *)

Lemma assoc_set_same k v l : assoc k (assoc_set k v l) = Some v.
Proof.
  induction l as [|[k' v'] l IH]; simpl; [by rewrite String.eqb_refl|].
  destruct (String.eqb k k') eqn:E; simpl; [by rewrite String.eqb_refl|].
  by rewrite E.
Qed.

Lemma assoc_set_other k k0 v l : k0 ≠ k → assoc k0 (assoc_set k v l) = assoc k0 l.
Proof.
  intros Hne. induction l as [|[k' v'] l IH]; simpl.
  - destruct (String.eqb k0 k) eqn:E; [|done]. by apply String.eqb_eq in E.
  - destruct (String.eqb k k') eqn:E; simpl.
    + apply String.eqb_eq in E. subst k'.
      destruct (String.eqb k0 k) eqn:E0; [|done]. by apply String.eqb_eq in E0.
    + by rewrite IH.
Qed.

Lemma findLayers_setAttribute root name value :
  findLayers (setAttribute root name value) = findLayers root.
Proof. by destruct root. Qed.

Lemma inlineExternalSvg_response container srcUrl root st :
  ∃ svg, inlineExternalSvg container srcUrl (FetchResponse true root) st =
           inr (svg, appendChild container (SvgChild svg) st) ∧
         children (appendChild container (SvgChild svg) st) (c_id container) =
           children st (c_id container) ++ [SvgChild svg] ∧
         nid svg = nid root ∧ findLayers svg = findLayers root.
Proof.
  unfold inlineExternalSvg.
  destruct (negb (attr_truthy root "width") && negb (attr_truthy root "height")).
  - eexists. split; [reflexivity|]. split_and!.
    + unfold children, appendChild. simpl. by rewrite lookup_insert_eq.
    + by destruct root.
    + apply findLayers_setAttribute.
  - eexists. split; [reflexivity|]. split_and!; try done.
    unfold children, appendChild. simpl. by rewrite lookup_insert_eq.
Qed.

(** X14: a graphic that is retrieved successfully is appended to the
    container as its last child with its identity, tag, children and
    attributes unchanged, except that a graphic with neither a width nor
    a height gets the responsive style rule as its style; a graphic with
    a width or a height keeps its style.  The layers found in it are
    those of the retrieved root. *)
Theorem loaded_graphic_is_sized container srcUrl root st :
  ∃ svg, inlineExternalSvg container srcUrl (FetchResponse true root) st =
           inr (svg, appendChild container (SvgChild svg) st) ∧
         children (appendChild container (SvgChild svg) st) (c_id container) =
           children st (c_id container) ++ [SvgChild svg] ∧
         nid svg = nid root ∧ tagName svg = tagName root ∧
         childNodes svg = childNodes root ∧
         (∀ name, name ≠ "style" → getAttribute svg name = getAttribute root name) ∧
         getAttribute svg "style" =
           (if negb (attr_truthy root "width") && negb (attr_truthy root "height")
            then Some "max-width:100%; height:auto; display:block;"
            else getAttribute root "style") ∧
         findLayers svg = findLayers root.
Proof.
  unfold inlineExternalSvg.
  destruct (negb (attr_truthy root "width") && negb (attr_truthy root "height")) eqn:E.
  - eexists. split; [reflexivity|]. split_and!.
    + unfold children, appendChild. simpl. by rewrite lookup_insert_eq.
    + by destruct root.
    + by destruct root.
    + by destruct root.
    + intros name Hn. destruct root. unfold getAttribute. simpl.
      by apply assoc_set_other.
    + destruct root. unfold getAttribute. simpl. apply assoc_set_same.
    + apply findLayers_setAttribute.
  - eexists. split; [reflexivity|]. split_and!; try done.
    unfold children, appendChild. simpl. by rewrite lookup_insert_eq.
Qed.

(** X15: when the fetch of a waiting container succeeds nothing is
    logged, the container leaves the waiting list, and it ends up as a
    container with that graphic inline would: its children are extended
    by the graphic followed by one placeholder per step layer, and the
    step layers are those the directives select among the layers of the
    retrieved root. *)
Theorem successful_load_builds_steps options i container src root st :
  pending st !! i = Some (container, src) →
  ∃ svg k,
    teardownFns (initContainer_resume options i (FetchResponse true root) st) =
      teardownFns st ++ [k] ∧
    k_container k = container ∧
    k_stepLayers k = (classify container root).2 ∧
    length (k_placeholders k) = length (k_stepLayers k) ∧
    children (initContainer_resume options i (FetchResponse true root) st) (c_id container) =
      children st (c_id container) ++ SvgChild svg :: map SpanChild (k_placeholders k) ∧
    nid svg = nid root ∧
    console (initContainer_resume options i (FetchResponse true root) st) = console st ∧
    pending (initContainer_resume options i (FetchResponse true root) st) =
      delete i (pending st).
Proof.
  intros Hi. unfold initContainer_resume. rewrite Hi.
  set (s1 := set_pending (delete i) st).
  destruct (inlineExternalSvg_response container src root s1)
    as (svg & -> & Hch & Hnid & Hfl).
  unfold buildSteps.
  destruct (buildSteps_env_Built container svg (fragmentClass options)
              (appendChild container (SvgChild svg) s1)) as (st' & Hst' & B).
  rewrite Hst'. cbn [default from_option id].
  exists svg, (buildSteps_env container svg (fragmentClass options)
                 (appendChild container (SvgChild svg) s1)).1.
  destruct (Built_bound _ _ _ _ _ _ B) as [Hlen _].
  split_and!.
  - by rewrite (built_teardownFns _ _ _ _ _ _ B).
  - apply (built_container _ _ _ _ _ _ B).
  - rewrite (built_stepLayers _ _ _ _ _ _ B). unfold classify. by rewrite Hfl.
  - exact Hlen.
  - rewrite (built_children _ _ _ _ _ _ B), Hch. by rewrite <- app_assoc.
  - exact Hnid.
  - by rewrite (built_console _ _ _ _ _ _ B).
  - by rewrite (built_pending _ _ _ _ _ _ B).
Qed.

Lemma successful_load_builds_steps_witness :
  let st := initContainer defaults remoteContainer emptyPage in
  pending st !! 0 = Some (remoteContainer, "figures/diagram.svg") ∧
  map nid (flat_map childElements
             (children (initContainer_resume defaults 0 (FetchResponse true scenarioSvg) st) 200))
    = [0; 1; 2; 3; 4; 5] ∧
  length (children (initContainer_resume defaults 0 (FetchResponse true scenarioSvg) st) 200) = 6 ∧
  console (initContainer_resume defaults 0 (FetchResponse true scenarioSvg) st) = [].
Proof.
  intros st.
  assert (pending st !! 0 = Some (remoteContainer, "figures/diagram.svg")) as Hp
    by reflexivity.
  split; [exact Hp|].
  destruct (successful_load_builds_steps defaults 0 remoteContainer
              "figures/diagram.svg" scenarioSvg st Hp)
    as (svg & k & _ & _ & _ & _ & _ & _ & Hc & _).
  split; [vm_compute; reflexivity|]. split; [vm_compute; reflexivity|]. exact Hc.
Defined.

(* ---- reveal-svg-layers.umd.js: initialisation through promises ------- *)

Module Umd.

(* The function initContainer passes to p.then, with the variables it
   closes over. *)
Record Job := {
  j_container : Container;
  j_svg : option Node;
}.

(* initContainer(container) up to its return, on the page and the queue
   of promise jobs:
     if (container.__rsvgProcessed) return Promise.resolve();
     container.__rsvgProcessed = true;
     var svg = container.querySelector('svg');
     var src = container.getAttribute('data-src');
     var p = Promise.resolve();
     if (!svg && src) p = inlineExternalSvg(container, src).then(...);
     return p.then(function(){ ... }).catch(...);
   Without a fetch p is resolved already, and the function given to
   p.then is queued at once; with a fetch it waits for the response. *)
Definition initContainer (container : Container) (sq : State * list Job)
  : State * list Job :=
  if bool_decide (c_id container ∈ processed sq.1) then sq
  else
    let st := set_processed (λ s, {[c_id container]} ∪ s) sq.1 in
    let svg := querySelectorSvg container st in
    let src := c_getAttribute container "data-src" in
    match svg with
    | None =>
        if truthy (or_else src "")
        then (set_pending (λ l, l ++ [(container, or_else src "")]) st, sq.2)
        else (st, sq.2 ++ [{| j_container := container; j_svg := svg |}])
    | Some _ => (st, sq.2 ++ [{| j_container := container; j_svg := svg |}])
    end.

(* function(){ if (!svg) return;
               buildSteps({ container: container, svg: svg, ... }); }
   with .catch(function(e){ console.error('[svg-layers] ' + e.message); });
   [message] is the text of an error thrown inside buildSteps. *)
Definition thenBuild (options : Options) (message : string) (j : Job) (st : State)
  : State :=
  match j_svg j with
  | None => st
  | Some svg =>
      match buildSteps (j_container j) svg (fragmentClass options) st with
      | Some st' => st'
      | None => set_console (λ l, l ++ [String.append "[svg-layers] " message]) st
      end
  end.

(* init: ensureStyle, containers.map(initContainer), and then, before
   anything else can run, the queued jobs in the order they were queued. *)
Definition init (options : Options) (message : string) (containers : list Container)
  (st : State) : State :=
  let sq := foldl (λ sq c, initContainer c sq) (ensureStyle st, []) containers in
  foldl (λ st j, thenBuild options message j st) sq.1 sq.2.

(* The response of the i-th waiting container arrives. *)
Definition initContainer_resume (options : Options) (message : string) (i : nat)
  (res : Fetched) (st : State) : State :=
  match pending st !! i with
  | None => st
  | Some (container, src) =>
      let st := set_pending (delete i) st in
      match inlineExternalSvg container src res st with
      | inl m => set_console (λ l, l ++ [String.append "[svg-layers] " m]) st
      | inr (svg, st) =>
          thenBuild options message {| j_container := container; j_svg := Some svg |} st
      end
  end.

End Umd.

(* What initContainer writes before its promise callback runs. *)
Definition aside (f : gset nat → gset nat)
  (g : list (Container * string) → list (Container * string)) (st : State) : State :=
  set_pending g (set_processed f st).

Lemma foldl_hideLayer_aside f g l : ∀ st,
  foldl hideLayer (aside f g st) l = aside f g (foldl hideLayer st l).
Proof. induction l as [|x l IH]; intros st; [done|]. cbn [foldl]. by rewrite <- IH. Qed.

Lemma foldl_showLayer_aside f g l : ∀ st,
  foldl showLayer (aside f g st) l = aside f g (foldl showLayer st l).
Proof. induction l as [|x l IH]; intros st; [done|]. cbn [foldl]. by rewrite <- IH. Qed.

Lemma makePlaceholders_aside f g container uid extraFrag layers : ∀ i st,
  makePlaceholders container uid extraFrag i layers (aside f g st) =
    ((makePlaceholders container uid extraFrag i layers st).1,
     aside f g (makePlaceholders container uid extraFrag i layers st).2).
Proof.
  induction layers as [|x l IH]; intros i st; [done|].
  cbn [makePlaceholders]. cbv zeta.
  change (appendChild container (SpanChild (next (aside f g st)))
            (set_next (S (next (aside f g st)))
               (set_heap <[next (aside f g st) :=
                             placeholderFor container uid extraFrag x i]> (aside f g st))))
    with (aside f g (appendChild container (SpanChild (next st))
            (set_next (S (next st))
               (set_heap <[next st := placeholderFor container uid extraFrag x i]> st)))).
  by rewrite IH.
Qed.

Lemma forEachM_sync_aside f g phs : ∀ st,
  forEachM (λ st ph,
              match heap st !! ph with
              | Some e =>
                  if classList_contains "visible" (e_classList e)
                  then showLayerRef st (e_rsvgLayer e)
                  else Some st
              | None => None
              end) phs (aside f g st) =
  aside f g <$>
  forEachM (λ st ph,
              match heap st !! ph with
              | Some e =>
                  if classList_contains "visible" (e_classList e)
                  then showLayerRef st (e_rsvgLayer e)
                  else Some st
              | None => None
              end) phs st.
Proof.
  induction phs as [|ph phs IH]; intros st; [done|]. cbn [forEachM].
  change (heap (aside f g st)) with (heap st).
  destruct (heap st !! ph) as [e|]; [|done].
  destruct (classList_contains "visible" (e_classList e)); [|apply IH].
  destruct (e_rsvgLayer e) as [el|]; [|done]. apply (IH (showLayer st el)).
Qed.

Lemma syncFromVisibleFragments_aside f g k st :
  syncFromVisibleFragments k (aside f g st) = aside f g <$> syncFromVisibleFragments k st.
Proof.
  unfold syncFromVisibleFragments. cbv zeta.
  rewrite foldl_hideLayer_aside. apply forEachM_sync_aside.
Qed.

Lemma buildSteps_aside f g container svg fragmentClass st :
  buildSteps container svg fragmentClass (aside f g st) =
    aside f g <$> buildSteps container svg fragmentClass st.
Proof.
  unfold buildSteps, buildSteps_env. cbv zeta. cbn [snd fst].
  rewrite foldl_showLayer_aside, foldl_hideLayer_aside.
  set (s2 := foldl hideLayer (foldl showLayer st (classify container svg).1)
               (classify container svg).2).
  change (uniqId "rsvgc" (aside f g s2)).1 with (uniqId "rsvgc" s2).1.
  change (uniqId "rsvgc" (aside f g s2)).2 with (aside f g (uniqId "rsvgc" s2).2).
  rewrite makePlaceholders_aside. cbn [fst snd].
  match goal with
  | |- _ = aside f g <$> syncFromVisibleFragments ?k ?s =>
      exact (syncFromVisibleFragments_aside f g k s)
  end.
Qed.

Lemma flat_map_childElements_spans phs : flat_map childElements (map SpanChild phs) = [].
Proof. by induction phs. Qed.

Lemma querySelectorSvg_Built c0 svg fragmentClass st k st' c :
  Built c0 svg fragmentClass st k st' → querySelectorSvg c st' = querySelectorSvg c st.
Proof.
  intros B. unfold querySelectorSvg.
  destruct (decide (c_id c = c_id c0)) as [Heq|Hne].
  - pose proof (built_children _ _ _ _ _ _ B) as Hch. unfold children in Hch.
    rewrite Heq, Hch, flat_map_app, flat_map_childElements_spans.
    by rewrite app_nil_r.
  - by rewrite (built_children_other _ _ _ _ _ _ B).
Qed.

Lemma thenBuild_aside options message j f g st :
  Umd.thenBuild options message j (aside f g st) =
    aside f g (Umd.thenBuild options message j st).
Proof.
  unfold Umd.thenBuild. destruct (Umd.j_svg j) as [svg|]; [|done].
  rewrite buildSteps_aside. unfold buildSteps.
  by destruct (buildSteps_env_Built (Umd.j_container j) svg (fragmentClass options) st)
    as (st' & -> & _).
Qed.

Lemma thenBuild_frame options message j st c :
  processed (Umd.thenBuild options message j st) = processed st ∧
  querySelectorSvg c (Umd.thenBuild options message j st) = querySelectorSvg c st.
Proof.
  unfold Umd.thenBuild. destruct (Umd.j_svg j) as [svg|]; [|done]. unfold buildSteps.
  destruct (buildSteps_env_Built (Umd.j_container j) svg (fragmentClass options) st)
    as (st' & -> & B).
  split; [apply (built_processed _ _ _ _ _ _ B)|apply (querySelectorSvg_Built _ _ _ _ _ _ _ B)].
Qed.

Definition runJobs (options : Options) (message : string) (q : list Umd.Job)
  (st : State) : State :=
  foldl (λ st j, Umd.thenBuild options message j st) st q.

Lemma runJobs_aside options message f g q : ∀ st,
  runJobs options message q (aside f g st) = aside f g (runJobs options message q st).
Proof.
  unfold runJobs. induction q as [|j q IH]; intros st; [done|].
  cbn [foldl]. by rewrite thenBuild_aside, IH.
Qed.

Lemma runJobs_frame options message c q : ∀ st,
  processed (runJobs options message q st) = processed st ∧
  querySelectorSvg c (runJobs options message q st) = querySelectorSvg c st.
Proof.
  unfold runJobs. induction q as [|j q IH]; intros st; [done|]. cbn [foldl].
  destruct (IH (Umd.thenBuild options message j st)) as [-> ->].
  apply thenBuild_frame.
Qed.

Lemma runJobs_snoc options message q j st :
  runJobs options message (q ++ [j]) st =
    Umd.thenBuild options message j (runJobs options message q st).
Proof. unfold runJobs. by rewrite foldl_app. Qed.

(* One container: queueing its job behind those already queued and then
   running them all is initContainer of the module build after the
   queued jobs have run. *)
Lemma umd_initContainer_runJobs options message c st q :
  runJobs options message (Umd.initContainer c (st, q)).2 (Umd.initContainer c (st, q)).1 =
    initContainer options c (runJobs options message q st).
Proof.
  destruct (runJobs_frame options message c q st) as [Hp Hq].
  unfold Umd.initContainer, initContainer. cbn [fst snd]. rewrite Hp.
  case_bool_decide as Hin; [done|]. cbv zeta.
  change (querySelectorSvg c (set_processed (λ s, {[c_id c]} ∪ s) st))
    with (querySelectorSvg c st).
  change (querySelectorSvg c (set_processed (λ s, {[c_id c]} ∪ s)
                                (runJobs options message q st)))
    with (querySelectorSvg c (runJobs options message q st)).
  rewrite Hq.
  pose proof (runJobs_aside options message (λ s, {[c_id c]} ∪ s) id q st) as Ha.
  change (aside (λ s, {[c_id c]} ∪ s) id st)
    with (set_processed (λ s, {[c_id c]} ∪ s) st) in Ha.
  change (aside (λ s, {[c_id c]} ∪ s) id (runJobs options message q st))
    with (set_processed (λ s, {[c_id c]} ∪ s) (runJobs options message q st)) in Ha.
  destruct (querySelectorSvg c st) as [svg|] eqn:Es.
  - cbn [fst snd]. rewrite runJobs_snoc, Ha. unfold Umd.thenBuild. cbn [Umd.j_svg Umd.j_container].
    unfold buildSteps.
    by destruct (buildSteps_env_Built c svg (fragmentClass options)
                   (set_processed (λ s, {[c_id c]} ∪ s) (runJobs options message q st)))
      as (st' & -> & _).
  - destruct (truthy (or_else (c_getAttribute c "data-src") "")); cbn [fst snd].
    + apply (runJobs_aside options message (λ s, {[c_id c]} ∪ s)
               (λ l, l ++ [(c, or_else (c_getAttribute c "data-src") "")]) q st).
    + by rewrite runJobs_snoc, Ha.
Qed.

Lemma umd_init_runJobs options message containers : ∀ st q,
  let sq := foldl (λ sq c, Umd.initContainer c sq) (st, q) containers in
  runJobs options message sq.2 sq.1 =
    foldl (λ st c, initContainer options c st) (runJobs options message q st) containers.
Proof.
  induction containers as [|c cs IH]; intros st q; [done|]. cbn [foldl]. cbv zeta.
  destruct (Umd.initContainer c (st, q)) as [st1 q1] eqn:E.
  rewrite (IH st1 q1).
  pose proof (umd_initContainer_runJobs options message c st q) as H1.
  rewrite E in H1. cbn [fst snd] in H1. by rewrite H1.
Qed.

(** X16: the UMD build initialises a page to the same state as the module
    build, although it runs buildSteps for every container only after all
    containers have been marked and searched, from promise callbacks: the
    pages after init are equal, and so are the pages after the response
    of a waiting container has arrived. *)
Theorem umd_build_agrees options message containers st :
  Umd.init options message containers st = init options containers st ∧
  ∀ i res, Umd.initContainer_resume options message i res st =
           initContainer_resume options i res st.
Proof.
  split.
  - unfold Umd.init, init. cbv zeta.
    apply (umd_init_runJobs options message containers (ensureStyle st) []).
  - intros i res. unfold Umd.initContainer_resume, initContainer_resume.
    destruct (pending st !! i) as [[container src]|]; [|done]. cbv zeta.
    destruct (inlineExternalSvg container src res (set_pending (delete i) st))
      as [m|[svg st1]]; [done|].
    unfold Umd.thenBuild. cbn [Umd.j_svg Umd.j_container]. unfold buildSteps.
    by destruct (buildSteps_env_Built container svg (fragmentClass options) st1)
      as (st' & -> & _).
Qed.

(* ===================================================================== *)
(*  Properties of the floating debug helper                              *)
(* ===================================================================== *)
Import Floating.

(* The four writes of updateHudAndVars(el, slide, true). *)
Definition commit (m : Measure) : list (string * CssValue) :=
  [("--floating-left", Fixed1Pct (leftPct m)); ("--floating-top", Fixed1Pct (topPct m));
   ("--floating-w", RoundPx (width m)); ("--floating-h", RoundPx (height m))].

Definition vars (t : Target) : list (string * CssValue) :=
  filter (λ entry, isVar entry) (styleLog t).

Lemma varWrites_lookup p el :
  varWrites p el = match targets p !! el with Some t => vars t | None => [] end.
Proof. done. Qed.

Lemma updateHudAndVars_preview m t :
  styleLog (updateHudAndVars m false t) = styleLog t ∧
  drags (updateHudAndVars m false t) = drags t.
Proof. unfold updateHudAndVars. by destruct (hudInfo t). Qed.

Lemma updateHudAndVars_commit m t :
  vars (updateHudAndVars m true t) = vars t ++ commit m ∧
  drags (updateHudAndVars m true t) = drags t.
Proof.
  unfold updateHudAndVars, vars.
  destruct (hudInfo t); simpl; rewrite <- !app_assoc, filter_app; done.
Qed.

Lemma vars_setStyle name v t :
  isVar (name, v) = false → vars (setStyle name v t) = vars t.
Proof.
  intros H. unfold vars. cbn [styleLog setStyle].
  rewrite filter_app, filter_cons_False, filter_nil, app_nil_r; [done|].
  rewrite H. by intros [].
Qed.

Lemma onMove_vars el ly x y d t :
  vars (onMove el ly x y d t) = vars t ∧ drags (onMove el ly x y d t) = drags t.
Proof.
  unfold onMove. destruct (dragging d); cbn [negb]; [|done]. cbv zeta.
  match goal with
  | |- context [updateHudAndVars ?m false ?t0] =>
      destruct (updateHudAndVars_preview m t0) as [E1 E2]
  end.
  split; [|by rewrite E2].
  unfold vars at 1. rewrite E1. fold (vars (setStyle "top"
    (Px (startTop d + (y - startY d) / getScale ly el))
    (setStyle "left" (Px (startLeft d + (x - startX d) / getScale ly el)) t))).
  by rewrite !vars_setStyle.
Qed.

Lemma windowMove_vars el ly x y t :
  vars (windowMove el ly x y t) = vars t ∧ drags (windowMove el ly x y t) = drags t.
Proof.
  unfold windowMove. generalize (drags t) at 1 2. intros l. revert t.
  induction l as [|d l IH]; intros t; simpl; [done|].
  destruct (IH (if moveOnWindow d then onMove el ly x y d t else t)) as [E1 E2].
  rewrite E1, E2. destruct (moveOnWindow d); [apply onMove_vars|done].
Qed.

Lemma vars_plain_updates t (f : Target → Target) :
  styleLog (f t) = styleLog t → vars (f t) = vars t.
Proof. unfold vars. by intros ->. Qed.

Lemma initOne_vars el p x :
  varWrites (initOne el p) x = varWrites p x.
Proof.
  unfold initOne. destruct (targets p !! el) as [t|] eqn:E; [|done].
  destruct (slide t); [|done]. rewrite !varWrites_lookup. simpl.
  rewrite lookup_insert. case_decide as Hx; [|done]. subst. rewrite E.
  unfold vars. simpl. unfold addHud, addGrip.
  by destruct (grips t), (huds t).
Qed.

Lemma set_target_preview_vars el m t p x :
  targets p !! el = Some t →
  varWrites (set_target el (updateHudAndVars m false t) p) x = varWrites p x.
Proof.
  intros E. rewrite !varWrites_lookup. cbn [targets set_target]. rewrite lookup_insert.
  case_decide as Hx; [|done]. subst. rewrite E. unfold vars.
  by destruct (updateHudAndVars_preview m t) as [-> _].
Qed.

Lemma initAll_vars ly els p x : varWrites (initAll ly els p) x = varWrites p x.
Proof.
  unfold initAll.
  assert (varWrites (injectStyles p) x = varWrites p x) as <-.
  { unfold injectStyles. by destruct (stylesInjected p). }
  generalize (injectStyles p). induction els as [|el els IH]; intros q; simpl; [done|].
  rewrite IH. case_bool_decide.
  - destruct (targets q !! el) as [t|] eqn:E; [|done].
    by apply set_target_preview_vars.
  - apply initOne_vars.
Qed.

(* No event but pointerup writes a committed variable. *)
Lemma step_vars ly p e x :
  match e with
  | PointerUp => True
  | _ => varWrites (step ly p e) x = varWrites p x
  end.
Proof.
  destruct e; cbn [step]; [..|done| | |].
  - destruct (targets p !! el) as [t|] eqn:E; [|done].
    rewrite !varWrites_lookup. cbn [targets set_target]. rewrite lookup_insert.
    case_decide as Hx; [|done]. subst. by rewrite E.
  - rewrite !varWrites_lookup. cbn [targets]. rewrite map_lookup_imap.
    destruct (targets p !! x) as [t|]; cbn [mbind option_bind]; [|done].
    apply windowMove_vars.
  - destruct (targets p !! el) as [t|] eqn:E; [|done].
    destruct (observers t); [done|]. by apply set_target_preview_vars.
  - destruct (targets p !! el) as [t|] eqn:E; [|done].
    destruct (frames t) as [|n]; [done|].
    rewrite !varWrites_lookup. cbn [targets set_target]. rewrite lookup_insert.
    case_decide as Hx; [|done]. subst. rewrite E. unfold vars.
    by destruct (updateHudAndVars_preview (measure ly x) (with_frames n t)) as [-> _].
  - apply initAll_vars.
Qed.

(* Frames between pointer-down and pointer-up of a gesture. *)
Definition isIntermediate (e : Event) : bool :=
  match e with
  | PointerMove _ _ | ResizeObserved _ | AnimationFrame _ => true
  | _ => false
  end.

Definition dragsOf (p : Page) (el : nat) : option (list Drag) :=
  drags <$> (targets p !! el).

Lemma intermediate_drags ly p e el :
  isIntermediate e = true → dragsOf (step ly p e) el = dragsOf p el.
Proof.
  unfold dragsOf. destruct e; try discriminate; intros _; cbn [step].
  - cbn [targets]. rewrite map_lookup_imap.
    destruct (targets p !! el) as [t|]; cbn [mbind option_bind fmap option_fmap option_map]; [|done].
    f_equal. apply windowMove_vars.
  - destruct (targets p !! el0) as [t|] eqn:E; [|done].
    destruct (observers t); [done|]. cbn [targets set_target].
    rewrite lookup_insert. case_decide as Hx; [|done]. subst. rewrite E.
    cbn [fmap option_fmap option_map].
    f_equal. apply updateHudAndVars_preview.
  - destruct (targets p !! el0) as [t|] eqn:E; [|done].
    destruct (frames t) as [|n]; [done|]. cbn [targets set_target].
    rewrite lookup_insert. case_decide as Hx; [|done]. subst. rewrite E.
    cbn [fmap option_fmap option_map].
    f_equal. by destruct (updateHudAndVars_preview (measure ly el) (with_frames n t)) as [_ ->].
Qed.

Lemma intermediate_vars ly p e el :
  isIntermediate e = true → varWrites (step ly p e) el = varWrites p el.
Proof.
  intros H. pose proof (step_vars ly p e el) as Hs. by destruct e.
Qed.

Lemma run_intermediate mids : ∀ p el,
  forallb (λ le : Layout * Event, isIntermediate le.2) mids = true →
  varWrites (run p mids) el = varWrites p el ∧ dragsOf (run p mids) el = dragsOf p el.
Proof.
  induction mids as [|[ly e] mids IH]; intros p el H; [done|].
  cbn [forallb snd] in H. apply andb_prop in H as [He H].
  cbn [run foldl fst snd]. destruct (IH (step ly p e) el H) as [E1 E2].
  unfold run in E1, E2. rewrite E1, E2.
  split; [by apply intermediate_vars|by apply intermediate_drags].
Qed.

Lemma run_app p l1 l2 : run (run p l1) l2 = run p (l1 ++ l2).
Proof. unfold run. by rewrite foldl_app. Qed.

Lemma pointerDown_starts onGrip altKey x y l tp d :
  altKey || (onGrip && gripListener d) = true →
  pointerDown onGrip altKey x y l tp d = startDrag x y l tp d.
Proof.
  unfold pointerDown. destruct altKey; cbn [orb].
  - intros _. by destruct (onGrip && _).
  - by intros ->.
Qed.

Lemma windowUp_single el ly t d :
  drags t = [d] → upOnWindow d = true →
  vars (windowUp el ly t) = vars t ++ commit (measure ly el) ∧
  drags (windowUp el ly t) = [onUp_drag d].
Proof.
  intros Hd Hu. unfold windowUp. rewrite Hd. cbn [map].
  rewrite filter_cons_True by (by rewrite Hu). rewrite filter_nil. rewrite Hu.
  cbn [foldl].
  destruct (updateHudAndVars_commit (measure ly el) (with_drags [onUp_drag d] t))
    as [E1 E2].
  by rewrite E1, E2.
Qed.

Lemma windowUp_idle el ly t :
  (∀ d, d ∈ drags t → upOnWindow d = false) → windowUp el ly t = t.
Proof.
  intros H. unfold windowUp.
  assert (filter (λ d, upOnWindow d) (drags t) = []) as ->.
  { induction (drags t) as [|d l IH]; [done|].
    rewrite filter_cons_False by (rewrite (H d) by left; by intros []).
    apply IH. intros d' Hd'. apply H. by right. }
  cbn [foldl].
  assert (map (λ d, if upOnWindow d then onUp_drag d else d) (drags t) = drags t) as ->.
  { induction (drags t) as [|d l IH]; [done|]. cbn [map].
    rewrite (H d) by left. f_equal. apply IH. intros d' Hd'. apply H. by right. }
  by destruct t.
Qed.

Lemma forallb_take {A} (f : A → bool) (l : list A) n :
  forallb f l = true → forallb f (take n l) = true.
Proof.
  revert n. induction l as [|a l IH]; intros [|n] H; try done.
  cbn in *. apply andb_prop in H as [-> H]. by apply IH.
Qed.

(* The four committed style variables are written by no event other than
   pointer-up, so never on a pointer-move frame or a resize-observer
   tick; in a drag gesture (pointer-down on the grip, or anywhere in the
   target with ALT held, then any number of such frames, then pointer-up)
   they are written exactly once, at the pointer-up that ends the drag. *)
Theorem drag_commits_once p el t d onGrip altKey x y l tp ly0 mids lyU :
  targets p !! el = Some t →
  drags t = [d] →
  altKey || (onGrip && gripListener d) = true →
  forallb (λ le : Layout * Event, isIntermediate le.2) mids = true →
  (∀ ly q e z, match e with
               | PointerUp => True
               | _ => varWrites (step ly q e) z = varWrites q z
               end) ∧
  (∀ n, varWrites (run p (take n ((ly0, PointerDown el onGrip altKey x y l tp) :: mids))) el
        = varWrites p el) ∧
  varWrites (run p ((ly0, PointerDown el onGrip altKey x y l tp) :: mids ++ [(lyU, PointerUp)])) el
    = varWrites p el ++ commit (measure lyU el) ∧
  dragsOf (run p ((ly0, PointerDown el onGrip altKey x y l tp) :: mids ++ [(lyU, PointerUp)])) el
    = Some [onUp_drag (startDrag x y l tp d)].
Proof.
  intros Ht Hd Hstart Hmids.
  set (start := (ly0, PointerDown el onGrip altKey x y l tp)).
  set (p1 := step ly0 p (PointerDown el onGrip altKey x y l tp)).
  assert (varWrites p1 el = varWrites p el) as V1
    by apply (step_vars ly0 p (PointerDown el onGrip altKey x y l tp) el).
  assert (dragsOf p1 el = Some [startDrag x y l tp d]) as D1.
  { unfold dragsOf, p1. cbn [step]. rewrite Ht. cbn [targets set_target].
    rewrite lookup_insert_eq. cbn. rewrite Hd. cbn [map].
    by rewrite pointerDown_starts. }
  split_and!.
  - intros ly q e z. apply step_vars.
  - intros [|n]; [done|].
    change (run p (take (S n) (start :: mids))) with (run p1 (take n mids)).
    assert (forallb (λ le : Layout * Event, isIntermediate le.2) (take n mids) = true) as Hn
      by (by apply forallb_take).
    destruct (run_intermediate (take n mids) p1 el Hn) as [E _].
    by rewrite E.
  - change (run p (start :: mids ++ [(lyU, PointerUp)]))
      with (run p1 (mids ++ [(lyU, PointerUp)])).
    rewrite <- run_app. destruct (run_intermediate mids p1 el Hmids) as [E1 E2].
    rewrite D1 in E2. unfold dragsOf in E2. cbn [run foldl fst snd step].
    rewrite varWrites_lookup. cbn [targets]. rewrite map_lookup_imap.
    destruct (targets (run p1 mids) !! el) as [t2|] eqn:E; [|done].
    cbn in E2. injection E2 as E2. cbn [mbind option_bind].
    destruct (windowUp_single el lyU t2 (startDrag x y l tp d) E2 eq_refl) as [-> _].
    rewrite <- V1, <- E1, varWrites_lookup. by rewrite E.
  - change (run p (start :: mids ++ [(lyU, PointerUp)]))
      with (run p1 (mids ++ [(lyU, PointerUp)])).
    rewrite <- run_app. destruct (run_intermediate mids p1 el Hmids) as [E1 E2].
    rewrite D1 in E2. unfold dragsOf in *. cbn [run foldl fst snd step].
    cbn [targets]. rewrite map_lookup_imap.
    destruct (targets (run p1 mids) !! el) as [t2|] eqn:E; [|done].
    cbn in E2. injection E2 as E2. cbn [mbind option_bind fmap option_fmap option_map].
    by destruct (windowUp_single el lyU t2 (startDrag x y l tp d) E2 eq_refl) as [_ ->].
Qed.

(* ---- A page with one overlay target ---------------------------------- *)

Definition floatingPage : Page :=
  {| stylesInjected := 0; processed := ∅; targets := {[1 := plainTarget (Some 0)]} |}.

(* Layout with the slide rendered at scale 1/2 and the target at the
   given percentages and size. *)
Definition layoutAt (lp tp w h : float) : Layout :=
  {| measure := λ _, {| left := (lp * 8)%float; top := (tp * 6)%float;
                        width := w; height := h;
                        leftPct := lp; topPct := tp |};
     getScale := λ _, 0.5%float |}.

Definition decoratedPage : Page := initAll (layoutAt 10 10 200 100) [1] floatingPage.

Definition idleDrag : Drag :=
  {| gripListener := true; startX := 0; startY := 0; startLeft := 0; startTop := 0;
     dragging := false; moveOnWindow := false; upOnWindow := false |}.

Definition decoratedTarget : Target :=
  {| slide := Some 0; grips := 1; huds := 1; hudInfo := Some None;
     drags := [idleDrag]; floatingRo := true; observers := 1; frames := 1;
     styleLog := [] |}.

Lemma decoratedPage_target : targets decoratedPage !! 1 = Some decoratedTarget.
Proof. vm_compute. reflexivity. Defined.

(* Dragging by the grip from (10%, 10%) to (20%, 15%) at scale 1/2. *)
Lemma drag_commits_once_example :
  let down := (layoutAt 10 10 200 100, PointerDown 1 true false 80 60 80 60) in
  let mids := [(layoutAt 15 12 200 100, PointerMove 100 66);
               (layoutAt 15 12 200 100, ResizeObserved 1);
               (layoutAt 20 15 200 100, PointerMove 120 75)] in
  let up := (layoutAt 20 15 200 100, PointerUp) in
  forallb (λ le : Layout * Event, isIntermediate le.2) mids = true ∧
  varWrites (run decoratedPage (down :: mids)) 1 = [] ∧
  varWrites (run decoratedPage (down :: mids ++ [up])) 1 =
    [("--floating-left", Fixed1Pct 20); ("--floating-top", Fixed1Pct 15);
     ("--floating-w", RoundPx 200); ("--floating-h", RoundPx 100)].
Proof.
  intros down mids up. split; [reflexivity|].
  destruct (drag_commits_once decoratedPage 1 decoratedTarget idleDrag
              true false 80 60 80 60 (layoutAt 10 10 200 100) mids
              (layoutAt 20 15 200 100) decoratedPage_target eq_refl eq_refl eq_refl)
    as (_ & Hmid & Hup & _).
  split.
  - exact (Hmid 4).
  - exact Hup.
Defined.

(** C3: a resize gesture with the CSS handle (pointer-down without ALT
    and not on the grip, pointer moves and resize-observer ticks,
    pointer-up) on a decorated target: the HUD follows the new size, and
    the four committed style variables are written neither during the
    gesture nor at its completion, where the header of the helper says
    that mirroring happens after an intentional drag or resize. *)
Theorem resize_commits_nothing :
  let gesture := [(layoutAt 10 10 200 100, PointerDown 1 false false 280 160 80 60);
                  (layoutAt 10 10 250 120, PointerMove 330 180);
                  (layoutAt 10 10 250 120, ResizeObserved 1);
                  (layoutAt 10 10 300 150, PointerMove 380 210);
                  (layoutAt 10 10 300 150, ResizeObserved 1);
                  (layoutAt 10 10 300 150, PointerUp)] in
  varWrites (run decoratedPage gesture) 1 = [] ∧
  (hudInfo <$> targets (run decoratedPage gesture) !! 1) =
    Some (Some (Some (measure (layoutAt 10 10 300 150) 1))).
Proof. vm_compute. auto. Qed.

(* ---- Repeated scans of the overlay helper ---------------------------- *)

(* A target without the text its HUD shows. *)
Definition eraseText (t : Target) : Target :=
  with_hudInfo (match hudInfo t with Some _ => Some None | None => None end) t.

(* Two pages with the same decoration: the same style elements, the same
   processed set, and targets that differ at most in the HUD text (same
   grips, HUDs, drag listeners, observers, frame requests, style writes). *)
Definition sameDecoration (p p' : Page) : Prop :=
  stylesInjected p' = stylesInjected p ∧
  processed p' = processed p ∧
  ∀ el, eraseText <$> (targets p' !! el) = eraseText <$> (targets p !! el).

Lemma sameDecoration_refl p : sameDecoration p p.
Proof. done. Qed.

Lemma sameDecoration_trans a b c :
  sameDecoration a b → sameDecoration b c → sameDecoration a c.
Proof.
  intros (S1 & P1 & T1) (S2 & P2 & T2). split_and!; [congruence|congruence|].
  intros el. by rewrite T2, T1.
Qed.

Lemma eraseText_preview m t : eraseText (updateHudAndVars m false t) = eraseText t.
Proof. destruct t as [? ? ? [h|] ? ? ? ? ?]; reflexivity. Qed.

(* The body of the forEach of initAll. *)
Definition scanOne (ly : Layout) (p : Page) (el : nat) : Page :=
  if bool_decide (el ∈ processed p)
  then match targets p !! el with
       | Some t => set_target el (updateHudAndVars (measure ly el) false t) p
       | None => p
       end
  else initOne el p.

Lemma initAll_scanOne ly els p : initAll ly els p = foldl (scanOne ly) (injectStyles p) els.
Proof. done. Qed.

Definition slideOf (p : Page) (el : nat) : option nat := targets p !! el ≫= slide.

(* Nothing is left to decorate on el. *)
Definition settled (p : Page) (el : nat) : Prop :=
  el ∈ processed p ∨ slideOf p el = None.

Lemma slide_preview m t : slide (updateHudAndVars m false t) = slide t.
Proof. unfold updateHudAndVars. by destruct (hudInfo t). Qed.

Lemma scanOne_mono ly p el :
  stylesInjected (scanOne ly p el) = stylesInjected p ∧
  processed p ⊆ processed (scanOne ly p el) ∧
  (∀ x, slideOf (scanOne ly p el) x = slideOf p x) ∧
  settled (scanOne ly p el) el.
Proof.
  unfold scanOne. case_bool_decide as Hp.
  - destruct (targets p !! el) as [t|] eqn:E.
    + split_and!.
      * reflexivity.
      * reflexivity.
      * intros x. unfold slideOf. cbn [targets set_target]. rewrite lookup_insert.
        case_decide as Hx; [|done]. subst. rewrite E. cbn [mbind option_bind].
        apply slide_preview.
      * left. exact Hp.
    + split_and!; [done|done|done|by left].
  - unfold initOne. destruct (targets p !! el) as [t|] eqn:E.
    + destruct (slide t) as [sl|] eqn:Es.
      * split_and!; [done|cbn; set_solver| |left; cbn; set_solver].
        intros x. unfold slideOf. cbn [targets]. rewrite lookup_insert.
        case_decide as Hx; [|done]. subst. rewrite E. cbn.
        unfold addHud, addGrip. rewrite Es. by destruct (grips t), (huds t).
      * split_and!; [done|done|done|]. right. unfold slideOf. by rewrite E.
    + split_and!; [done|done|done|]. right. unfold slideOf. by rewrite E.
Qed.

Lemma scanOne_settled ly p el :
  settled p el → sameDecoration p (scanOne ly p el).
Proof.
  intros Hs. unfold scanOne. case_bool_decide as Hp.
  - destruct (targets p !! el) as [t|] eqn:E; [|done].
    split_and!; [done|done|]. intros x. cbn [targets set_target].
    rewrite lookup_insert. case_decide as Hx; [|done]. subst. rewrite E. cbn.
    f_equal. apply eraseText_preview.
  - destruct Hs as [Hs|Hs]; [done|]. unfold initOne, slideOf in *.
    destruct (targets p !! el) as [t|]; [|done]. cbn in Hs. by rewrite Hs.
Qed.

Lemma settled_mono ly p el x : settled p x → settled (scanOne ly p el) x.
Proof.
  destruct (scanOne_mono ly p el) as (_ & Hsub & Hsl & _).
  intros [H|H]; [left; by apply Hsub|right; by rewrite Hsl].
Qed.

Lemma foldl_scanOne_settles ly els : ∀ p,
  (∀ x, settled p x → settled (foldl (scanOne ly) p els) x) ∧
  (∀ el, el ∈ els → settled (foldl (scanOne ly) p els) el) ∧
  stylesInjected (foldl (scanOne ly) p els) = stylesInjected p.
Proof.
  induction els as [|e els IH]; intros p; cbn [foldl].
  - split_and!; [done| |done]. intros el Hel. by apply elem_of_nil in Hel.
  - destruct (IH (scanOne ly p e)) as (H1 & H2 & H3).
    destruct (scanOne_mono ly p e) as (Hst & _ & _ & Hse).
    split_and!.
    + intros x Hx. by apply H1, settled_mono.
    + intros el Hel. apply elem_of_cons in Hel as [->|Hel]; [by apply H1|by apply H2].
    + by rewrite H3.
Qed.

Lemma foldl_scanOne_again ly els : ∀ p,
  (∀ el, el ∈ els → settled p el) → sameDecoration p (foldl (scanOne ly) p els).
Proof.
  induction els as [|e els IH]; intros p H; cbn [foldl]; [done|].
  eapply sameDecoration_trans; [apply scanOne_settled, H; left|].
  apply IH. intros el Hel. apply settled_mono, H. by right.
Qed.

Lemma initAll_idempotent ly ly' els p :
  sameDecoration (initAll ly els p) (initAll ly' els (initAll ly els p)).
Proof.
  rewrite (initAll_scanOne ly' els).
  destruct (foldl_scanOne_settles ly els (injectStyles p)) as (_ & Hall & Hst).
  rewrite <- initAll_scanOne in Hall, Hst.
  assert (∃ n, stylesInjected (injectStyles p) = S n) as [n Hn].
  { unfold injectStyles. destruct (stylesInjected p) as [|n] eqn:E; cbn; eauto. }
  assert (injectStyles (initAll ly els p) = initAll ly els p) as ->.
  { unfold injectStyles at 1. by rewrite Hst, Hn. }
  by apply foldl_scanOne_again.
Qed.

(** C9: initialisation is idempotent.  For the layer plugin a second
    initContainer on a container, and a second init over the same
    containers, leave the page exactly as the first did: no further
    placeholder, listener or teardown entry.  For the overlay helper a
    second initAll over the same elements creates no further style
    element, grip, HUD, drag listener, observer or frame request; only
    the text of the HUD is refreshed. *)
Theorem initialisation_is_idempotent :
  (∀ options c st,
     initContainer options c (initContainer options c st) = initContainer options c st) ∧
  (∀ options cs st, init options cs (init options cs st) = init options cs st) ∧
  (∀ ly ly' els p,
     sameDecoration (initAll ly els p) (initAll ly' els (initAll ly els p))).
Proof.
  split_and!.
  - apply initContainer_idempotent.
  - apply init_idempotent.
  - apply initAll_idempotent.
Qed.

(* ===================================================================== *)
(*  Further properties of the floating debug helper                      *)
(* ===================================================================== *)

Lemma with_drags_same t : with_drags (drags t) t = t.
Proof. by destruct t. Qed.

Lemma set_target_same el t p : targets p !! el = Some t → set_target el t p = p.
Proof. intros H. unfold set_target. rewrite insert_id by done. by destruct p. Qed.

Lemma pointerDown_plain x y l tp d : pointerDown false false x y l tp d = d.
Proof. done. Qed.

(** X17: a pointer-down inside a target that is neither on the grip nor
    made with ALT held starts nothing: the page is left exactly as it
    was, so ordinary clicks and the resize handle are not taken over. *)
Theorem plain_pointer_down_is_ignored ly p el x y l tp :
  step ly p (PointerDown el false false x y l tp) = p.
Proof.
  cbn [step]. destruct (targets p !! el) as [t|] eqn:E; [|done].
  assert (map (pointerDown false false x y l tp) (drags t) = drags t) as ->.
  { induction (drags t) as [|d ds IH]; [done|]. cbn [map]. by rewrite IH. }
  rewrite with_drags_same. by apply set_target_same.
Qed.

Lemma windowMove_idle el ly x y t :
  (∀ d, d ∈ drags t → moveOnWindow d = false) → windowMove el ly x y t = t.
Proof.
  intros H. unfold windowMove. revert H. generalize (drags t) as ds.
  induction ds as [|d ds IH]; intros H; [done|]. cbn [foldl].
  rewrite (H d) by left. apply IH. intros d' Hd'. apply H. by right.
Qed.

(* No onMove and no onUp of the helper is a listener of window. *)
Definition idle (p : Page) : Prop :=
  ∀ el t d, targets p !! el = Some t → d ∈ drags t →
            moveOnWindow d = false ∧ upOnWindow d = false.

Lemma idle_window_events ly p x y :
  idle p → step ly p (PointerMove x y) = p ∧ step ly p PointerUp = p.
Proof.
  intros H. split; cbn [step].
  - assert (map_imap (λ el t, Some (windowMove el ly x y t)) (targets p) = targets p) as ->.
    { apply map_eq. intros el. rewrite map_lookup_imap.
      destruct (targets p !! el) as [t|] eqn:E; [|done]. cbn. f_equal.
      apply windowMove_idle. intros d Hd. by destruct (H el t d E Hd). }
    by destruct p.
  - assert (map_imap (λ el t, Some (windowUp el ly t)) (targets p) = targets p) as ->.
    { apply map_eq. intros el. rewrite map_lookup_imap.
      destruct (targets p !! el) as [t|] eqn:E; [|done]. cbn. f_equal.
      apply windowUp_idle. intros d Hd. by destruct (H el t d E Hd). }
    by destruct p.
Qed.

(* ---- The position a drag writes -------------------------------------- *)

Lemma windowMove_dragging el ly x y t d :
  drags t = [d] → moveOnWindow d = true → dragging d = true →
  styleLog (windowMove el ly x y t) =
    styleLog t ++ [("left", Px (startLeft d + (x - startX d) / getScale ly el));
                   ("top", Px (startTop d + (y - startY d) / getScale ly el))].
Proof.
  intros Hd Hm Hg. unfold windowMove. rewrite Hd. cbn [foldl]. rewrite Hm.
  unfold onMove. rewrite Hg. cbn [negb]. cbv zeta.
  match goal with
  | |- context [updateHudAndVars ?m false ?t0] =>
      destruct (updateHudAndVars_preview m t0) as [-> _]
  end.
  cbn [styleLog setStyle]. by rewrite <- app_assoc.
Qed.

(** X19: during a drag every pointer move writes the offsets of the
    target as the offsets it had at pointer-down plus the distance the
    pointer has travelled since pointer-down, divided by the render
    scale of the slide, each of the three operations being the binary64
    one (rounded to nearest); the frames in between do not enter into
    it. *)
Theorem drag_follows_pointer p el t d onGrip altKey x y l tp ly0 mids ly x' y' :
  targets p !! el = Some t →
  drags t = [d] →
  altKey || (onGrip && gripListener d) = true →
  forallb (λ le : Layout * Event, isIntermediate le.2) mids = true →
  styleLog <$>
    targets (run p ((ly0, PointerDown el onGrip altKey x y l tp) :: mids ++
                    [(ly, PointerMove x' y')])) !! el =
  (λ t2, styleLog t2 ++ [("left", Px (l + (x' - x) / getScale ly el));
                         ("top", Px (tp + (y' - y) / getScale ly el))]) <$>
    targets (run p ((ly0, PointerDown el onGrip altKey x y l tp) :: mids)) !! el.
Proof.
  intros Ht Hd Hstart Hmids.
  set (down := (ly0, PointerDown el onGrip altKey x y l tp)).
  set (p1 := step ly0 p (PointerDown el onGrip altKey x y l tp)).
  assert (dragsOf p1 el = Some [startDrag x y l tp d]) as D1.
  { unfold dragsOf, p1. cbn [step]. rewrite Ht. cbn [targets set_target].
    rewrite lookup_insert_eq. cbn. rewrite Hd. cbn [map].
    by rewrite pointerDown_starts. }
  change (run p (down :: mids ++ [(ly, PointerMove x' y')]))
    with (run p1 (mids ++ [(ly, PointerMove x' y')])).
  change (run p (down :: mids)) with (run p1 mids).
  rewrite <- run_app. destruct (run_intermediate mids p1 el Hmids) as [_ E2].
  rewrite D1 in E2. unfold dragsOf in E2. cbn [run foldl fst snd step targets].
  rewrite map_lookup_imap.
  destruct (targets (run p1 mids) !! el) as [t2|] eqn:E; [|done].
  cbn in E2. injection E2 as E2. cbn [mbind option_bind fmap option_fmap option_map].
  f_equal. by rewrite (windowMove_dragging el ly x' y' t2 (startDrag x y l tp d) E2).
Qed.

(* The layout of the example page with the slide rendered at [scale]. *)
Definition layoutScaled (scale : float) : Layout :=
  {| measure := measure (layoutAt 10 10 200 100); getScale := λ _, scale |}.

(* Dragging by the grip at scale 3: a pointer 1 to the right and 2 down
   of where it went down moves the target by the binary64 values nearest
   to 1/3 and 2/3, written as 0.3333333333333333px and
   0.6666666666666666px. *)
Lemma drag_follows_pointer_witness :
  let down := (layoutScaled 3, PointerDown 1 true false 0 0 0 0) in
  let mids := [(layoutScaled 3, PointerMove 100 66);
               (layoutScaled 3, ResizeObserved 1)] in
  forallb (λ le : Layout * Event, isIntermediate le.2) mids = true ∧
  styleLog <$>
    targets (run decoratedPage (down :: mids ++ [(layoutScaled 3, PointerMove 1 2)])) !! 1 =
  (λ t2, styleLog t2 ++ [("left", Px 0x1.5555555555555p-2);
                         ("top", Px 0x1.5555555555555p-1)]) <$>
    targets (run decoratedPage (down :: mids)) !! 1.
Proof.
  intros down mids. split; [reflexivity|].
  exact (drag_follows_pointer decoratedPage 1 decoratedTarget idleDrag true false
           0 0 0 0 (layoutScaled 3) mids (layoutScaled 3) 1 2
           decoratedPage_target eq_refl eq_refl eq_refl).
Defined.

(* ---- What a page can look like --------------------------------------- *)

(* A drag activation whose listeners on window are there exactly while it
   is dragging, and which listens on the grip. *)
Definition coherent (d : Drag) : Prop :=
  gripListener d = true ∧ moveOnWindow d = dragging d ∧ upOnWindow d = dragging d.

(* A decorated target: one grip, one HUD with its info span, one drag
   activation, one connected observer, at most one frame request. *)
Definition decorated (t : Target) : Prop :=
  slide t ≠ None ∧ grips t = 1 ∧ huds t = 1 ∧ hudInfo t ≠ None ∧
  (∃ d, drags t = [d] ∧ coherent d) ∧
  floatingRo t = true ∧ observers t = 1 ∧ frames t ≤ 1.

Definition page_ok (p : Page) : Prop :=
  stylesInjected p ≤ 1 ∧
  ∀ el t, targets p !! el = Some t →
          (el ∈ processed p ∧ decorated t) ∨
          ((el ∉ processed p) ∧ t = plainTarget (slide t)).

(* A page the helper has not seen yet; [slides] gives, for each
   .floating.debug element, its closest section if it has one. *)
Definition plainPage (slides : gmap nat (option nat)) : Page :=
  {| stylesInjected := 0; processed := ∅; targets := plainTarget <$> slides |}.

Lemma decorated_preview m b t : decorated t → decorated (updateHudAndVars m b t).
Proof.
  intros (H1 & H2 & H3 & H4 & H5 & H6 & H7 & H8). unfold updateHudAndVars.
  destruct (hudInfo t) eqn:E; [|done]. by destruct b.
Qed.

Lemma decorated_setStyle name v t : decorated t → decorated (setStyle name v t).
Proof. done. Qed.

Lemma decorated_windowMove el ly x y t : decorated t → decorated (windowMove el ly x y t).
Proof.
  unfold windowMove. generalize (drags t) as ds. intros ds. revert t.
  induction ds as [|d ds IH]; intros t Ht; [done|]. cbn [foldl]. apply IH.
  destruct (moveOnWindow d); [|done]. unfold onMove.
  destruct (dragging d); cbn [negb]; [|done]. cbv zeta.
  by apply decorated_preview, decorated_setStyle, decorated_setStyle.
Qed.

Lemma coherent_onUp d : coherent d → coherent (if upOnWindow d then onUp_drag d else d).
Proof.
  unfold coherent. intros (H1 & H2 & H3).
  destruct (upOnWindow d) eqn:E; cbn; split_and!; congruence.
Qed.

Lemma decorated_windowUp el ly t : decorated t → decorated (windowUp el ly t).
Proof.
  intros Ht. unfold windowUp.
  assert (decorated (with_drags (map (λ d, if upOnWindow d then onUp_drag d else d)
                                    (drags t)) t)) as Ht'.
  { destruct Ht as (H1 & H2 & H3 & H4 & (d & Hd & Hc) & H6 & H7 & H8).
    split_and!; try done. exists (if upOnWindow d then onUp_drag d else d).
    split; [by rewrite Hd|by apply coherent_onUp]. }
  revert Ht'. generalize (with_drags (map (λ d, if upOnWindow d then onUp_drag d else d)
                                         (drags t)) t).
  induction (filter (λ d, upOnWindow d) (drags t)) as [|d ds IH]; intros t' Ht'; [done|].
  cbn [foldl]. by apply IH, decorated_preview.
Qed.

Lemma coherent_pointerDown onGrip altKey x y l tp d :
  coherent d → coherent (pointerDown onGrip altKey x y l tp d).
Proof.
  unfold coherent. intros (H1 & H2 & H3). unfold pointerDown.
  destruct altKey, onGrip; cbn; rewrite ?H1; cbn; split_and!; congruence.
Qed.

Lemma plain_windowUp el ly sl : windowUp el ly (plainTarget sl) = plainTarget sl.
Proof. done. Qed.

Lemma page_ok_step ly p e : page_ok p → page_ok (step ly p e).
Proof.
  intros [Hs Ht]. destruct e; cbn [step].
  - destruct (targets p !! el) as [t|] eqn:E; [|done]. split; [done|].
    intros el' t'. cbn [targets set_target processed]. rewrite lookup_insert.
    case_decide as Hel; [|apply Ht]. subst el'. intros [= <-].
    destruct (Ht el t E) as [[Hp Hd]|[Hp Hd]].
    + left. split; [done|].
      destruct Hd as (H1 & H2 & H3 & H4 & (d & Hd & Hc) & H6 & H7 & H8).
      split_and!; try done. exists (pointerDown onGrip altKey clientX clientY csLeft csTop d).
      split; [by rewrite Hd|by apply coherent_pointerDown].
    + right. split; [done|]. by rewrite Hd.
  - split; [done|]. intros el t. cbn [targets processed]. rewrite map_lookup_imap.
    destruct (targets p !! el) as [t0|] eqn:E; [|done]. cbn. intros [= <-].
    destruct (Ht el t0 E) as [[Hp Hd]|[Hp Hd]].
    + left. split; [done|by apply decorated_windowMove].
    + right. split; [done|]. by rewrite Hd.
  - split; [done|]. intros el t. cbn [targets processed]. rewrite map_lookup_imap.
    destruct (targets p !! el) as [t0|] eqn:E; [|done]. cbn. intros [= <-].
    destruct (Ht el t0 E) as [[Hp Hd]|[Hp Hd]].
    + left. split; [done|by apply decorated_windowUp].
    + right. split; [done|]. by rewrite Hd.
  - destruct (targets p !! el) as [t|] eqn:E; [|done].
    destruct (observers t) as [|n] eqn:Eo; [done|]. split; [done|].
    intros el' t'. cbn [targets set_target processed]. rewrite lookup_insert.
    case_decide as Hel; [|apply Ht]. subst el'. intros [= <-].
    destruct (Ht el t E) as [[Hp Hd]|[Hp Hd]].
    + left. split; [done|]. exact (decorated_preview (measure ly el) false t Hd).
    + rewrite Hd in Eo. discriminate.
  - destruct (targets p !! el) as [t|] eqn:E; [|done].
    destruct (frames t) as [|n] eqn:Ef; [done|]. split; [done|].
    intros el' t'. cbn [targets set_target processed]. rewrite lookup_insert.
    case_decide as Hel; [|apply Ht]. subst el'. intros [= <-].
    destruct (Ht el t E) as [[Hp Hd]|[Hp Hd]].
    + left. split; [done|].
      assert (decorated (with_frames n t)) as Hd'.
      { destruct Hd as (H1 & H2 & H3 & H4 & H5 & H6 & H7 & H8).
        split_and!; try done. cbn. lia. }
      exact (decorated_preview (measure ly el) false (with_frames n t) Hd').
    + rewrite Hd in Ef. discriminate.
  - rewrite initAll_scanOne.
    assert (page_ok (injectStyles p)) as H0.
    { unfold injectStyles. destruct (stylesInjected p) eqn:E0.
      - split; [cbn; lia|done].
      - split; [by rewrite E0|done]. }
    revert H0. generalize (injectStyles p).
    induction els as [|el els IH]; intros q Hq; cbn [foldl]; [done|].
    apply IH. destruct Hq as [Hqs Hqt]. unfold scanOne. case_bool_decide as Hp.
    + destruct (targets q !! el) as [t|] eqn:E; [|by split]. split; [done|].
      intros el' t'. cbn [targets set_target processed]. rewrite lookup_insert.
      case_decide as Hel; [|apply Hqt]. subst el'. intros [= <-].
      destruct (Hqt el t E) as [[_ Hd]|[Hn _]]; [|done].
      left. split; [done|]. exact (decorated_preview (measure ly el) false t Hd).
    + unfold initOne. destruct (targets q !! el) as [t|] eqn:E; [|by split].
      destruct (slide t) as [sl|] eqn:Es; [|by split]. split; [done|].
      destruct (Hqt el t E) as [[Hin _]|[_ Hplain]]; [done|].
      intros el' t'. cbn [targets processed]. rewrite lookup_insert.
      case_decide as Hel.
      * subst el'. intros [= <-]. left.
        split; [apply elem_of_union; left; by apply elem_of_singleton|].
        rewrite Hplain, Es. cbn. split_and!; try done.
        eexists. split; [reflexivity|done].
      * intros Ht'. destruct (Hqt el' t' Ht') as [[Hin Hd]|[Hin Hd]].
        -- left. split; [|done]. apply elem_of_union. by right.
        -- right. split; [|done]. rewrite not_elem_of_union, not_elem_of_singleton.
           split; [congruence|done].
Qed.

Lemma page_ok_plainPage slides : page_ok (plainPage slides).
Proof.
  split; [cbn; lia|]. intros el t. cbn [targets plainPage processed].
  rewrite lookup_fmap. destruct (slides !! el) as [sl|]; [|done]. cbn.
  intros [= <-]. right. split; [apply not_elem_of_empty|done].
Qed.

Lemma page_ok_run events : ∀ p, page_ok p → page_ok (run p events).
Proof.
  unfold run. induction events as [|[ly e] events IH]; intros p Hp; cbn [foldl]; [done|].
  by apply IH, page_ok_step.
Qed.

(** X20: whatever events reach a page that starts undecorated, there is
    at most one injected style element, and every target is either
    unprocessed and untouched or processed and decorated exactly once:
    one grip, one HUD, one drag activation, one connected resize
    observer, at most one pending frame request; the drag activation
    has its move and up listeners on window exactly while it is
    dragging. *)
Theorem decoration_invariant slides events : page_ok (run (plainPage slides) events).
Proof. apply page_ok_run, page_ok_plainPage. Qed.

(* ---- The end of a drag ----------------------------------------------- *)

Definition isPointerDown (e : Event) : bool :=
  match e with PointerDown _ _ _ _ _ _ _ => true | _ => false end.

Lemma drags_foldl_commit (m : Measure) (fired : list Drag) : ∀ t,
  drags (foldl (λ t _, updateHudAndVars m true t) t fired) = drags t.
Proof.
  induction fired as [|d fired IH]; intros t; [done|]. cbn [foldl].
  rewrite IH. apply updateHudAndVars_commit.
Qed.

Lemma drags_windowUp el ly t :
  drags (windowUp el ly t) = map (λ d, if upOnWindow d then onUp_drag d else d) (drags t).
Proof. unfold windowUp. cbv zeta. by rewrite drags_foldl_commit. Qed.

(* Pointer-up takes every onMove and onUp of a well-formed page off
   window. *)
Lemma pointerUp_idle ly p : page_ok p → idle (step ly p PointerUp).
Proof.
  intros [_ Ht] el t d. cbn [step targets]. rewrite map_lookup_imap.
  destruct (targets p !! el) as [t0|] eqn:E; [|done]. cbn. intros [= <-].
  rewrite drags_windowUp.
  destruct (Ht el t0 E) as [[_ Hd]|[_ Hplain]].
  - destruct Hd as (_ & _ & _ & _ & (d0 & Hd0 & _ & Hm & Hu) & _).
    rewrite Hd0. cbn [map]. intros ->%list_elem_of_singleton.
    destruct (upOnWindow d0) eqn:Eu; [done|]. split; [congruence|done].
  - rewrite Hplain. cbn. intros H. by apply elem_of_nil in H.
Qed.

Lemma idle_set_target el t t' p :
  targets p !! el = Some t → drags t' = drags t → idle p → idle (set_target el t' p).
Proof.
  intros E Hd H el' t'' d. cbn [targets set_target]. rewrite lookup_insert.
  case_decide as Hel; [|apply H]. subst el'. intros [= <-]. rewrite Hd.
  exact (H el t d E).
Qed.

Lemma idle_scanOne ly p el : idle p → idle (scanOne ly p el).
Proof.
  intros H. unfold scanOne. case_bool_decide as Hp.
  - destruct (targets p !! el) as [t|] eqn:E; [|done].
    apply (idle_set_target el t); [done| |done]. apply updateHudAndVars_preview.
  - unfold initOne. destruct (targets p !! el) as [t|] eqn:E; [|done].
    destruct (slide t) as [sl|]; [|done]. cbv zeta.
    intros el' t' d. cbn [targets]. rewrite lookup_insert.
    case_decide as Hel; [|apply H]. subst el'. intros [= <-].
    change (d ∈ drags (addHud (addGrip t)) ++
                [{| gripListener := match grips (addHud (addGrip t)) with
                                    | S _ => true | O => false end;
                    startX := 0; startY := 0; startLeft := 0; startTop := 0;
                    dragging := false; moveOnWindow := false; upOnWindow := false |}] →
            moveOnWindow d = false ∧ upOnWindow d = false).
    assert (drags (addHud (addGrip t)) = drags t) as ->.
    { unfold addHud, addGrip. by destruct (grips t), (huds t). }
    intros [Hd|Hd]%elem_of_app; [exact (H el t d E Hd)|].
    by apply list_elem_of_singleton in Hd as ->.
Qed.

Lemma idle_step ly p e : isPointerDown e = false → idle p → idle (step ly p e).
Proof.
  intros He H. destruct e; try discriminate.
  - by destruct (idle_window_events ly p clientX clientY H) as [-> _].
  - by destruct (idle_window_events ly p 0%float 0%float H) as [_ ->].
  - cbn [step]. destruct (targets p !! el) as [t|] eqn:E; [|done].
    destruct (observers t); [done|].
    apply (idle_set_target el t); [done| |done]. apply updateHudAndVars_preview.
  - cbn [step]. destruct (targets p !! el) as [t|] eqn:E; [|done].
    destruct (frames t) as [|n]; [done|].
    apply (idle_set_target el t); [done| |done].
    by destruct (updateHudAndVars_preview (measure ly el) (with_frames n t)) as [_ ->].
  - cbn [step]. rewrite initAll_scanOne.
    assert (idle (injectStyles p)) as H0.
    { unfold injectStyles. by destruct (stylesInjected p). }
    revert H0. generalize (injectStyles p).
    induction els as [|el els IH]; intros q Hq; cbn [foldl]; [done|].
    by apply IH, idle_scanOne.
Qed.

Lemma idle_run events : ∀ p,
  forallb (λ le : Layout * Event, negb (isPointerDown le.2)) events = true →
  idle p → idle (run p events).
Proof.
  unfold run. induction events as [|[ly e] events IH]; intros p Hev Hp; [done|].
  cbn [foldl forallb fst snd] in *. apply andb_true_iff in Hev as [He Hev].
  apply IH; [done|]. apply idle_step; [|done]. by destruct (isPointerDown e).
Qed.

(** X18: a pointer-up ends every drag.  On a page that started
    undecorated, whatever happened before a pointer-up, from that
    pointer-up until the next pointer-down the helper has no listener on
    window: pointer moves and further pointer-ups leave the page exactly
    as it is (no offset is written, no variable committed, the HUD keeps
    its text), also after resize-observer ticks, animation frames and
    scans in between. *)
Theorem pointer_up_ends_every_drag slides events lyU rest ly x y :
  forallb (λ le : Layout * Event, negb (isPointerDown le.2)) rest = true →
  let p := run (plainPage slides) (events ++ (lyU, PointerUp) :: rest) in
  step ly p (PointerMove x y) = p ∧ step ly p PointerUp = p.
Proof.
  intros Hrest p. apply idle_window_events. unfold p.
  rewrite <- run_app. change (run (run (plainPage slides) events) ((lyU, PointerUp) :: rest))
    with (run (step lyU (run (plainPage slides) events) PointerUp) rest).
  apply idle_run; [done|]. apply pointerUp_idle, page_ok_run, page_ok_plainPage.
Qed.

(* A page with one target is scanned, dragged by the grip and released;
   a resize-observer tick later, pointer moves and pointer-ups change
   nothing, although the move before the release did write offsets. *)
Lemma pointer_up_ends_every_drag_witness :
  let ly := layoutAt 10 10 200 100 in
  let events := [(ly, Scan [1]); (ly, PointerDown 1 true false 80 60 80 60);
                 (ly, PointerMove 100 66)] in
  let rest := [(ly, ResizeObserved 1)] in
  let p := run (plainPage {[1 := Some 0]}) (events ++ (ly, PointerUp) :: rest) in
  forallb (λ le : Layout * Event, negb (isPointerDown le.2)) rest = true ∧
  step ly p (PointerMove 120 75) = p ∧ step ly p PointerUp = p ∧
  (styleLog <$> targets (run (plainPage {[1 := Some 0]}) events) !! 1) =
    Some [("left", Px 120); ("top", Px 72)].
Proof.
  intros ly events rest p. split; [reflexivity|].
  destruct (pointer_up_ends_every_drag {[1 := Some 0]} events ly rest ly 120 75 eq_refl)
    as [Hm Hu].
  split; [exact Hm|]. split; [exact Hu|]. vm_compute. reflexivity.
Defined.
